(** * NetworkInfoApp: the collect-and-save pipeline of [App.js]

    A shallow embedding of the React Native component [App] of
    [src/App.js]: its state cells, the asynchronous functions
    [requestPermissions], [fetchNetworkInfo], [fetchLocation], [saveData],
    [fetchSavedData] and [fetchAvailableNetworks], and the mount effect
    that starts them.

    An [async] function runs synchronously up to its next [await]; there it
    is suspended until the awaited promise settles.  Every [await] of
    [App.js] waits on one call of a collaborator (expo-location,
    react-native-wifi-reborn, Firestore), so a suspended function is
    identified by the call it waits for, and the code after the [await] is
    a function of the settlement and of the component state.  The event
    loop is a transition system that settles the outstanding calls in any
    order.  A second transition system follows the component over several
    instances, with its renders and remounts. *)

From Stdlib Require Import String Ascii ZArith List Bool Lia Permutation.
From Stdlib Require Import Floats.SpecFloat.
From Stdlib Require DecimalString.
Import ListNotations.
Open Scope string_scope.
Open Scope list_scope.
Open Scope Z_scope.

(** ** JavaScript data *)

(** A JavaScript number that the program only carries around (a coordinate)
    is an IEEE 754 datum. *)
Definition float64 : Type := spec_float.

(** Plain data as it is handed to Firestore: strings, integers, floats and
    objects.  An object keeps its properties in insertion order. *)
#[warnings="-register-all"]
Inductive value : Type :=
| VStr (s : string)
| VInt (z : Z)
| VFloat (f : float64)
| VNull
| VMap (props : list (string * value)).

Definition object : Type := list (string * value).

(** [o.k]: the property [k] of [o], [None] standing for [undefined]. *)
Fixpoint obj_get (k : string) (o : object) : option value :=
  match o with
  | [] => None
  | (k', v) :: o' => if String.eqb k' k then Some v else obj_get k o'
  end.

(** [{...o, k: v}]: a copy of [o] in which [k] is [v]; an existing property
    keeps its place, a new one goes last. *)
Fixpoint obj_set (k : string) (v : value) (o : object) : object :=
  match o with
  | [] => [(k, v)]
  | (k', v') :: o' =>
      if String.eqb k' k then (k, v) :: o' else (k', v') :: obj_set k v o'
  end.

Definition obj_keys (o : object) : list string := map fst o.

(** [v.k] and the property names of [v], for a value that may be an
    object. *)
Definition field (k : string) (v : value) : option value :=
  match v with
  | VMap o => obj_get k o
  | _ => None
  end.

Definition keys (v : value) : list string :=
  match v with
  | VMap o => obj_keys o
  | _ => []
  end.

(** ECMAScript [ToBoolean], on the values the component holds. *)
Definition float_truthy (f : float64) : bool :=
  match f with
  | S754_zero _ | S754_nan => false
  | S754_infinity _ | S754_finite _ _ _ => true
  end.

Definition truthy (v : value) : bool :=
  match v with
  | VStr s => negb (String.eqb s "")
  | VInt z => negb (z =? 0)
  | VFloat f => float_truthy f
  | VNull => false
  | VMap _ => true
  end.

(** Truthiness of a property read, [undefined] being falsy. *)
Definition truthy_prop (r : option value) : bool :=
  match r with
  | None => false
  | Some v => truthy v
  end.

(** ** The clock

    [new Date()] reads the clock: a time value, in milliseconds since
    1970-01-01T00:00:00Z.  [toISOString] prints it as ECMAScript does
    (Date.prototype.toISOString): [YYYY-MM-DDTHH:mm:ss.sssZ], the year
    written with a sign and six digits when it is outside 0..9999. *)
Module Date.

Definition msPerDay : Z := 86400000.

(** The largest time value of an ECMAScript Date: 100,000,000 days. *)
Definition maxTime : Z := 8640000000000000.

Definition valid (t : Z) : Prop := - maxTime <= t <= maxTime.

Definition Day (t : Z) : Z := t / msPerDay.
Definition TimeWithinDay (t : Z) : Z := t mod msPerDay.

Definition HourFromTime (t : Z) : Z := TimeWithinDay t / 3600000.
Definition MinFromTime (t : Z) : Z := (TimeWithinDay t / 60000) mod 60.
Definition SecFromTime (t : Z) : Z := (TimeWithinDay t / 1000) mod 60.
Definition msFromTime (t : Z) : Z := TimeWithinDay t mod 1000.

(** The proleptic Gregorian date of a day number, years counted from
    March so that the leap day comes last. *)
Definition dayOfEra (day : Z) : Z := (day + 719468) mod 146097.
Definition era (day : Z) : Z := (day + 719468) / 146097.
Definition yearOfEra (day : Z) : Z :=
  let doe := dayOfEra day in
  (doe - doe / 1460 + doe / 36524 - doe / 146096) / 365.
Definition dayOfYear (day : Z) : Z :=
  let yoe := yearOfEra day in
  dayOfEra day - (365 * yoe + yoe / 4 - yoe / 100).
Definition monthIndex (day : Z) : Z := (5 * dayOfYear day + 2) / 153.

Definition DateFromDay (day : Z) : Z :=
  dayOfYear day - (153 * monthIndex day + 2) / 5 + 1.
Definition MonthFromDay (day : Z) : Z :=
  let mp := monthIndex day in
  if mp <? 10 then mp + 3 else mp - 9.
Definition YearFromDay (day : Z) : Z :=
  yearOfEra day + era day * 400 + (if MonthFromDay day <=? 2 then 1 else 0).

Definition digit (n : Z) : ascii := ascii_of_nat (48 + Z.to_nat (n mod 10)).

(** [n] in decimal, on exactly [width] digits (the low ones). *)
Fixpoint pad (width : nat) (n : Z) : string :=
  match width with
  | O => ""
  | S w => (pad w (n / 10) ++ String (digit n) "")%string
  end.

Definition yearString (y : Z) : string :=
  if (0 <=? y) && (y <=? 9999) then pad 4 y
  else
    let sign := if 0 <=? y then "+" else "-" in
    (sign ++ pad 6 (Z.abs y))%string.

Definition toISOString (t : Z) : string :=
  (yearString (YearFromDay (Day t)) ++ "-" ++
   pad 2 (MonthFromDay (Day t)) ++ "-" ++
   pad 2 (DateFromDay (Day t)) ++ "T" ++
   pad 2 (HourFromTime t) ++ ":" ++
   pad 2 (MinFromTime t) ++ ":" ++
   pad 2 (SecFromTime t) ++ "." ++
   pad 3 (msFromTime t) ++ "Z")%string.

(** The shape of an ISO 8601 date-time in UTC, as a test on the characters:
    a year of four digits, or a sign and six digits; then [-MM-DDTHH:mm:ss.sssZ]
    with the month in 01..12, the day in 01..31, the hour in 00..23, the
    minutes and seconds in 00..59. *)
Definition is_digit (c : ascii) : bool :=
  let n := nat_of_ascii c in ((48 <=? n) && (n <=? 57))%nat.

Definition digit_value (c : ascii) : Z := Z.of_nat (nat_of_ascii c) - 48.

Fixpoint number (cs : list ascii) (acc : Z) : option Z :=
  match cs with
  | [] => Some acc
  | c :: cs' =>
      if is_digit c then number cs' (10 * acc + digit_value c) else None
  end.

Definition in_range (cs : list ascii) (lo hi : Z) : bool :=
  match number cs 0 with
  | Some n => (lo <=? n) && (n <=? hi)
  | None => false
  end.

Definition is_char (lit : string) (c : ascii) : bool :=
  String.eqb (String c "") lit.

Definition month_to_zone (cs : list ascii) : bool :=
  match cs with
  | [c0; m1; m2; c1; d1; d2; c2; h1; h2; c3; n1; n2; c4; s1; s2; c5;
     f1; f2; f3; c6] =>
      is_char "-" c0 && in_range [m1; m2] 1 12 &&
      is_char "-" c1 && in_range [d1; d2] 1 31 &&
      is_char "T" c2 && in_range [h1; h2] 0 23 &&
      is_char ":" c3 && in_range [n1; n2] 0 59 &&
      is_char ":" c4 && in_range [s1; s2] 0 59 &&
      is_char "." c5 && in_range [f1; f2; f3] 0 999 &&
      is_char "Z" c6
  | _ => false
  end.

Definition is_iso8601 (s : string) : bool :=
  match list_ascii_of_string s with
  | y1 :: y2 :: y3 :: y4 :: rest =>
      if is_digit y1
      then forallb is_digit [y2; y3; y4] && month_to_zone rest
      else
        (is_char "+" y1 || is_char "-" y1) &&
        match rest with
        | y5 :: y6 :: y7 :: rest' =>
            forallb is_digit [y2; y3; y4; y5; y6; y7] && month_to_zone rest'
        | _ => false
        end
  | _ => false
  end.

(** The time value of a date and a time of day, as ECMAScript's [MakeDay],
    [MakeTime] and [MakeDate] compose it; [month] counts from 1. *)
Definition MakeDay (year month date : Z) : Z :=
  let y := if month <=? 2 then year - 1 else year in
  let e := y / 400 in
  let yoe := y - e * 400 in
  let mp := if 2 <? month then month - 3 else month + 9 in
  let doy := (153 * mp + 2) / 5 + date - 1 in
  e * 146097 + (yoe * 365 + yoe / 4 - yoe / 100 + doy) - 719468.

Definition MakeTime (hour min sec ms : Z) : Z :=
  hour * 3600000 + min * 60000 + sec * 1000 + ms.

Definition MakeDate (day time : Z) : Z := day * msPerDay + time.

(** Reading a date-time of the shape above back into a time value. *)
Definition read_month_to_zone (year : option Z) (cs : list ascii) : option Z :=
  match cs with
  | [_; m1; m2; _; d1; d2; _; h1; h2; _; n1; n2; _; s1; s2; _; f1; f2; f3; _] =>
      match year, number [m1; m2] 0, number [d1; d2] 0, number [h1; h2] 0,
            number [n1; n2] 0, number [s1; s2] 0, number [f1; f2; f3] 0 with
      | Some y, Some mo, Some d, Some h, Some mi, Some s, Some ms =>
          Some (MakeDate (MakeDay y mo d) (MakeTime h mi s ms))
      | _, _, _, _, _, _, _ => None
      end
  | _ => None
  end.

Definition fromISOString (s : string) : option Z :=
  if is_iso8601 s then
    match list_ascii_of_string s with
    | y1 :: y2 :: y3 :: y4 :: rest =>
        if is_digit y1 then read_month_to_zone (number [y1; y2; y3; y4] 0) rest
        else
          match rest with
          | y5 :: y6 :: y7 :: rest' =>
              read_month_to_zone
                (option_map (fun n => if is_char "-" y1 then - n else n)
                            (number [y2; y3; y4; y5; y6; y7] 0))
                rest'
          | _ => None
          end
    | _ => None
    end
  else None.

End Date.

(** ** The component state

    The five [useState] cells of [App].  [signalStrength] is [null] or the
    integer level that [getCurrentSignalStrength] reports, [location] is
    [null] or the location object, and [wifiDetails] is an object that
    starts empty. *)

(** What [Location.getCurrentPositionAsync] resolves to.  The program reads
    [loc.coords.latitude] and [loc.coords.longitude] of it, and
    [setLocation(loc)] keeps the object whole: [others] are the properties
    of the object besides [coords] (the time of the fix, for one), and
    [coords_others] those of [loc.coords] besides the two coordinates. *)
Record Coords : Type := {
  latitude : float64;
  longitude : float64;
  coords_others : object
}.
Record LocationObject : Type := { coords : Coords; others : object }.

(** An entry of [WifiManager.loadWifiList()]. *)
Record WifiEntry : Type := { SSID : string; level : Z }.

Record AppState : Type := {
  wifiDetails : object;                 (* useState({})   *)
  signalStrength : option Z;            (* useState(null) *)
  location : option LocationObject;     (* useState(null) *)
  savedData : list value;               (* useState([])   *)
  availableNetworks : list WifiEntry    (* useState([])   *)
}.

Definition initialState : AppState :=
  {| wifiDetails := []; signalStrength := None; location := None;
     savedData := []; availableNetworks := [] |}.

Definition setWifiDetails (f : object -> object) (st : AppState) : AppState :=
  {| wifiDetails := f (wifiDetails st); signalStrength := signalStrength st;
     location := location st; savedData := savedData st;
     availableNetworks := availableNetworks st |}.

Definition setSignalStrength (lvl : Z) (st : AppState) : AppState :=
  {| wifiDetails := wifiDetails st; signalStrength := Some lvl;
     location := location st; savedData := savedData st;
     availableNetworks := availableNetworks st |}.

Definition setLocation (loc : LocationObject) (st : AppState) : AppState :=
  {| wifiDetails := wifiDetails st; signalStrength := signalStrength st;
     location := Some loc; savedData := savedData st;
     availableNetworks := availableNetworks st |}.

Definition setSavedData (docs : list value) (st : AppState) : AppState :=
  {| wifiDetails := wifiDetails st; signalStrength := signalStrength st;
     location := location st; savedData := docs;
     availableNetworks := availableNetworks st |}.

Definition setAvailableNetworks (l : list WifiEntry) (st : AppState) : AppState :=
  {| wifiDetails := wifiDetails st; signalStrength := signalStrength st;
     location := location st; savedData := savedData st;
     availableNetworks := l |}.

(** ** Collaborators, calls and settlements *)

(** The calls the component awaits.  [addDoc] carries the document handed
    to [addDoc(collection(db, "networkDetails"), data)]. *)
Inductive call : Type :=
| requestForegroundPermissionsAsync    (* Location *)
| getCurrentPositionAsync              (* Location *)
| getCurrentWifiSSID                   (* WifiManager *)
| connectionStatus                     (* WifiManager *)
| getCurrentSignalStrength             (* WifiManager *)
| loadWifiList                         (* WifiManager *)
| addDoc (data : value)                (* Firestore *)
| getDocs.                             (* Firestore *)

(** A promise resolves with a value or rejects; the program only logs the
    error of a rejection, so the error itself is not represented. *)
Inductive outcome (A : Type) : Type :=
| Resolved (a : A)
| Rejected.
Arguments Resolved {A} a.
Arguments Rejected {A}.

Record PermissionResponse : Type := { status : string }.

(** A settlement of an awaited call, with the type of what it resolves to. *)
Inductive settlement : Type :=
| PermissionSettled (r : outcome PermissionResponse)
| PositionSettled (r : outcome LocationObject)
| SsidSettled (r : outcome string)
| ConnectionSettled (r : outcome bool)
| SignalSettled (r : outcome Z)
| WifiListSettled (r : outcome (list WifiEntry))
| AddDocSettled (data : value) (r : outcome unit)
| GetDocsSettled (r : outcome (list value)).

Definition call_of (s : settlement) : call :=
  match s with
  | PermissionSettled _ => requestForegroundPermissionsAsync
  | PositionSettled _ => getCurrentPositionAsync
  | SsidSettled _ => getCurrentWifiSSID
  | ConnectionSettled _ => connectionStatus
  | SignalSettled _ => getCurrentSignalStrength
  | WifiListSettled _ => loadWifiList
  | AddDocSettled data _ => addDoc data
  | GetDocsSettled _ => getDocs
  end.

(** What the component does to the outside, and what happens to it. *)
Inductive event : Type :=
| Invoke (c : call)                 (* a collaborator is called *)
| ToastShow (msg : string)          (* Toast.show(msg) *)
| ConsoleError (msg : string)       (* console.error(msg, error) *)
| Uncaught (msg : string)           (* an exception no handler catches *)
| Settled (s : settlement).         (* an awaited promise settles *)

(** Synchronous code: it updates the state cells and emits events. *)
Definition sync : Type := AppState -> AppState * list event.

Definition emit (es : list event) : sync := fun st => (st, es).
Definition update (f : AppState -> AppState) : sync := fun st => (f st, []).
Definition seq (p q : sync) : sync :=
  fun st => let (st1, es1) := p st in
            let (st2, es2) := q st1 in (st2, es1 ++ es2).
Notation "p ;; q" := (seq p q) (at level 61, right associativity).

(** [await c]: the call is made and the function is suspended on it. *)
Definition await (c : call) : sync := emit [Invoke c].

(** ** The asynchronous functions of [App]

    For each function, its code up to the first [await], and the code that
    runs when an awaited call settles. *)

(** [fetchLocation]: [try { loc = await getCurrentPositionAsync({});
    setLocation(loc) } catch { console.error; Toast.show }]. *)
Definition fetchLocation : sync := await getCurrentPositionAsync.

Definition fetchLocation_resume (r : outcome LocationObject) : sync :=
  match r with
  | Resolved loc => update (setLocation loc)
  | Rejected =>
      emit [ConsoleError "Error fetching location:";
            ToastShow "Error fetching location"]
  end.

(** [fetchNetworkInfo]: one [try] block around the three awaits, whose
    [catch] logs and shows a toast; [fetchLocation()] follows the block on
    every path. *)
Definition fetchNetworkInfo : sync := await getCurrentWifiSSID.

Definition fetchNetworkInfo_catch : sync :=
  emit [ConsoleError "Error fetching network info:";
        ToastShow "Error fetching network info"] ;;
  fetchLocation.

Definition fetchNetworkInfo_ssid (r : outcome string) : sync :=
  match r with
  | Resolved ssid =>
      update (setWifiDetails (fun prev => obj_set "ssid" (VStr ssid) prev)) ;;
      await connectionStatus
  | Rejected => fetchNetworkInfo_catch
  end.

Definition fetchNetworkInfo_connected (r : outcome bool) : sync :=
  match r with
  | Resolved isConnected =>
      if isConnected then await getCurrentSignalStrength else fetchLocation
  | Rejected => fetchNetworkInfo_catch
  end.

Definition fetchNetworkInfo_level (r : outcome Z) : sync :=
  match r with
  | Resolved lvl => update (setSignalStrength lvl) ;; fetchLocation
  | Rejected => fetchNetworkInfo_catch
  end.

(** [requestPermissions]: the [await] is not inside a [try], so a rejection
    ends the function; otherwise [fetchNetworkInfo()] is called when the
    status is ['granted'], and a toast is shown when it is not. *)
Definition requestPermissions : sync := await requestForegroundPermissionsAsync.

Definition requestPermissions_resume (r : outcome PermissionResponse) : sync :=
  match r with
  | Resolved p =>
      if negb (String.eqb (status p) "granted")
      then emit [ToastShow "Location permission is required to collect data."]
      else fetchNetworkInfo
  | Rejected => emit [Uncaught "requestForegroundPermissionsAsync rejected"]
  end.

(** [fetchSavedData]: [getDocs], then [setSavedData] with the documents'
    data. *)
Definition fetchSavedData : sync := await getDocs.

Definition fetchSavedData_resume (r : outcome (list value)) : sync :=
  match r with
  | Resolved data => update (setSavedData data)
  | Rejected =>
      emit [ConsoleError "Error fetching saved data:";
            ToastShow "Error fetching saved data"]
  end.

(** [fetchAvailableNetworks]. *)
Definition fetchAvailableNetworks : sync := await loadWifiList.

Definition fetchAvailableNetworks_resume (r : outcome (list WifiEntry)) : sync :=
  match r with
  | Resolved networks => update (setAvailableNetworks networks)
  | Rejected =>
      emit [ConsoleError "Error fetching available networks:";
            ToastShow "Error fetching available networks"]
  end.

(** [saveData].  The three operands of the guard are JavaScript truthiness
    tests: [!wifiDetails.ssid], [!signalStrength], [!location]. *)
Definition signal_value (s : option Z) : value :=
  match s with
  | Some z => VInt z
  | None => VNull
  end.

Definition isSome {A : Type} (o : option A) : bool :=
  match o with
  | Some _ => true
  | None => false
  end.

Definition saveData_guard (st : AppState) : bool :=
  negb (truthy_prop (obj_get "ssid" (wifiDetails st)))
  || negb (truthy (signal_value (signalStrength st)))
  || negb (isSome (location st)).

(** The object literal [data] of [saveData], [now] being the time value
    of [new Date()]. *)
Definition saveData_data (st : AppState) (loc : LocationObject) (now : Z) : value :=
  VMap [("wifiDetails", VMap (wifiDetails st));
        ("signalStrength", signal_value (signalStrength st));
        ("location", VMap [("latitude", VFloat (latitude (coords loc)));
                           ("longitude", VFloat (longitude (coords loc)))]);
        ("timestamp", VStr (Date.toISOString now))].

Definition saveData (now : Z) : sync :=
  fun st =>
    if saveData_guard st
    then emit [ToastShow "Please ensure all data (Wi-Fi, Signal Strength, Location) is available."] st
    else
      match location st with
      | None => emit [Uncaught "TypeError: location is null"] st
      | Some loc => await (addDoc (saveData_data st loc now)) st
      end.

Definition saveData_resume (r : outcome unit) : sync :=
  match r with
  | Resolved _ =>
      emit [ToastShow "Data saved successfully!"] ;;
      fetchSavedData
  | Rejected =>
      emit [ConsoleError "Error saving data to Firebase:";
            ToastShow "Error saving data to Firebase"]
  end.

(** The effect of [useEffect(..., [])], run once when the component has
    mounted. *)
Definition useEffect : sync :=
  requestPermissions ;; fetchSavedData ;; fetchAvailableNetworks.

(** The code that runs when an awaited call settles. *)
Definition resume (s : settlement) : sync :=
  match s with
  | PermissionSettled r => requestPermissions_resume r
  | PositionSettled r => fetchLocation_resume r
  | SsidSettled r => fetchNetworkInfo_ssid r
  | ConnectionSettled r => fetchNetworkInfo_connected r
  | SignalSettled r => fetchNetworkInfo_level r
  | WifiListSettled r => fetchAvailableNetworks_resume r
  | AddDocSettled _ r => saveData_resume r
  | GetDocsSettled r => fetchSavedData_resume r
  end.

(** ** The event loop

    The outstanding calls, the remote collection and the clock around the
    component.  A task is a suspended function: the call it awaits, and
    (for the store's answers) how many documents the collection held when
    the call was made. *)
Record task : Type := { awaited : call; issued : nat }.

Record System : Type := {
  app : AppState;          (* the state cells *)
  pool : list task;        (* the suspended functions *)
  store : list value;      (* the collection "networkDetails" *)
  clock : Z;               (* the time value [new Date()] would read *)
  trace : list event       (* what has happened, oldest first *)
}.

Definition invoked (es : list event) : list call :=
  flat_map (fun e => match e with Invoke c => [c] | _ => [] end) es.

(** The functions suspended by a piece of synchronous code. *)
Definition spawn (n : nat) (es : list event) : list task :=
  map (fun c => {| awaited := c; issued := n |}) (invoked es).

(** Firestore is outside the program; the collection is taken to behave as
    follows.  After a settlement: a resolved [addDoc] has created its
    document, a rejected one has not, and nothing else writes. *)
Definition store_after (s : settlement) (docs : list value) : list value :=
  match s with
  | AddDocSettled data (Resolved _) => docs ++ [data]
  | _ => docs
  end.

(** What [getDocs] may resolve to: the documents of the collection at some
    moment between the call and its settlement, in any order. *)
Definition answer_ok (tk : task) (s : settlement) (docs : list value) : Prop :=
  match s with
  | GetDocsSettled (Resolved data) =>
      exists k : nat,
        (issued tk <= k <= length docs)%nat /\ Permutation data (firstn k docs)
  | _ => True
  end.

Inductive label : Type :=
| Tick (dt : Z)                          (* time passes *)
| Press                                  (* the button "Save Data": saveData() *)
| Settle (tk : task) (s : settlement).   (* an awaited promise settles *)

Inductive step : System -> label -> System -> Prop :=
| step_tick : forall sys dt,
    0 <= dt ->
    Date.valid (clock sys + dt) ->
    step sys (Tick dt)
      {| app := app sys; pool := pool sys; store := store sys;
         clock := clock sys + dt; trace := trace sys |}
| step_press : forall sys st es,
    saveData (clock sys) (app sys) = (st, es) ->
    step sys Press
      {| app := st; pool := pool sys ++ spawn (length (store sys)) es;
         store := store sys; clock := clock sys;
         trace := trace sys ++ es |}
| step_settle : forall sys before tk after s st es,
    pool sys = before ++ tk :: after ->
    awaited tk = call_of s ->
    answer_ok tk s (store sys) ->
    resume s (app sys) = (st, es) ->
    step sys (Settle tk s)
      {| app := st;
         pool := before ++ after
                 ++ spawn (length (store_after s (store sys))) es;
         store := store_after s (store sys); clock := clock sys;
         trace := trace sys ++ Settled s :: es |}.

(** [start]: the component mounts with fresh state cells and its effect
    runs. *)
Definition start (store0 : list value) (t0 : Z) : System :=
  let (st, es) := useEffect initialState in
  {| app := st; pool := spawn (length store0) es; store := store0;
     clock := t0; trace := es |}.

Inductive steps : System -> System -> Prop :=
| steps_refl : forall sys, steps sys sys
| steps_next : forall sys l sys1 sys2,
    steps sys sys1 -> step sys1 l sys2 -> steps sys sys2.

(** The systems of a run of the component. *)
Definition reachable (sys : System) : Prop :=
  exists store0 t0, Date.valid t0 /\ steps (start store0 t0) sys.

(** The three kinds of step as functions, to compute runs: [settle i s]
    settles the [i]-th outstanding call with [s]. *)
Definition tick (dt : Z) (sys : System) : System :=
  {| app := app sys; pool := pool sys; store := store sys;
     clock := clock sys + dt; trace := trace sys |}.

Definition press (sys : System) : System :=
  let (st, es) := saveData (clock sys) (app sys) in
  {| app := st; pool := pool sys ++ spawn (length (store sys)) es;
     store := store sys; clock := clock sys; trace := trace sys ++ es |}.

Definition settle (i : nat) (s : settlement) (sys : System) : System :=
  let (st, es) := resume s (app sys) in
  {| app := st;
     pool := firstn i (pool sys) ++ skipn (S i) (pool sys)
             ++ spawn (length (store_after s (store sys))) es;
     store := store_after s (store sys); clock := clock sys;
     trace := trace sys ++ Settled s :: es |}.

(** ** The collection pipeline, as the sequence it is

    [requestPermissions], [fetchNetworkInfo] and [fetchLocation] call one
    another in a chain, so at any moment the pipeline is at one place of
    it.  A [phase] names the place together with the answers received so
    far; [script] is what the pipeline has done to get there, [awaiting]
    the call it is suspended on, and [wifi_of], [level_of], [position_of]
    the contents of the three state cells it fills. *)

(** How [fetchNetworkInfo] left its [try] block. *)
Inductive network_end : Type :=
| SsidFailed                            (* getCurrentWifiSSID rejected *)
| ConnectionFailed (ssid : string)      (* connectionStatus rejected *)
| NotConnected (ssid : string)          (* connectionStatus gave false *)
| LevelFailed (ssid : string)           (* getCurrentSignalStrength rejected *)
| LevelRead (ssid : string) (lvl : Z).  (* all three resolved *)

Inductive phase : Type :=
| AwaitPermission
| Stopped (r : outcome PermissionResponse)
| AwaitSsid (p : PermissionResponse)
| AwaitConnection (p : PermissionResponse) (ssid : string)
| AwaitLevel (p : PermissionResponse) (ssid : string)
| AwaitPosition (p : PermissionResponse) (n : network_end)
| Finished (p : PermissionResponse) (n : network_end)
           (r : outcome LocationObject).

Definition granted (p : PermissionResponse) : bool :=
  String.eqb (status p) "granted".

Definition phase_ok (ph : phase) : bool :=
  match ph with
  | AwaitPermission => true
  | Stopped (Resolved p) => negb (granted p)
  | Stopped Rejected => true
  | AwaitSsid p | AwaitConnection p _ | AwaitLevel p _
  | AwaitPosition p _ | Finished p _ _ => granted p
  end.

Definition network_error : list event :=
  [ConsoleError "Error fetching network info:";
   ToastShow "Error fetching network info"].

Definition location_error : list event :=
  [ConsoleError "Error fetching location:";
   ToastShow "Error fetching location"].

Definition script_ssid (p : PermissionResponse) : list event :=
  [Invoke requestForegroundPermissionsAsync;
   Settled (PermissionSettled (Resolved p));
   Invoke getCurrentWifiSSID].

Definition script_connection (p : PermissionResponse) (ssid : string) : list event :=
  script_ssid p ++
  [Settled (SsidSettled (Resolved ssid)); Invoke connectionStatus].

Definition script_level (p : PermissionResponse) (ssid : string) : list event :=
  script_connection p ssid ++
  [Settled (ConnectionSettled (Resolved true)); Invoke getCurrentSignalStrength].

Definition script_network (p : PermissionResponse) (n : network_end) : list event :=
  match n with
  | SsidFailed =>
      script_ssid p ++ Settled (SsidSettled Rejected) :: network_error
  | ConnectionFailed ssid =>
      script_connection p ssid
      ++ Settled (ConnectionSettled Rejected) :: network_error
  | NotConnected ssid =>
      script_connection p ssid ++ [Settled (ConnectionSettled (Resolved false))]
  | LevelFailed ssid =>
      script_level p ssid ++ Settled (SignalSettled Rejected) :: network_error
  | LevelRead ssid lvl =>
      script_level p ssid ++ [Settled (SignalSettled (Resolved lvl))]
  end.

Definition script (ph : phase) : list event :=
  match ph with
  | AwaitPermission => [Invoke requestForegroundPermissionsAsync]
  | Stopped (Resolved p) =>
      [Invoke requestForegroundPermissionsAsync;
       Settled (PermissionSettled (Resolved p));
       ToastShow "Location permission is required to collect data."]
  | Stopped Rejected =>
      [Invoke requestForegroundPermissionsAsync;
       Settled (PermissionSettled Rejected);
       Uncaught "requestForegroundPermissionsAsync rejected"]
  | AwaitSsid p => script_ssid p
  | AwaitConnection p ssid => script_connection p ssid
  | AwaitLevel p ssid => script_level p ssid
  | AwaitPosition p n => script_network p n ++ [Invoke getCurrentPositionAsync]
  | Finished p n r =>
      script_network p n ++ [Invoke getCurrentPositionAsync]
      ++ Settled (PositionSettled r)
         :: match r with Resolved _ => [] | Rejected => location_error end
  end.

Definition awaiting (ph : phase) : list call :=
  match ph with
  | AwaitPermission => [requestForegroundPermissionsAsync]
  | Stopped _ => []
  | AwaitSsid _ => [getCurrentWifiSSID]
  | AwaitConnection _ _ => [connectionStatus]
  | AwaitLevel _ _ => [getCurrentSignalStrength]
  | AwaitPosition _ _ => [getCurrentPositionAsync]
  | Finished _ _ _ => []
  end.

Definition wifi_of_network (n : network_end) : object :=
  match n with
  | SsidFailed => []
  | ConnectionFailed ssid | NotConnected ssid | LevelFailed ssid
  | LevelRead ssid _ => [("ssid", VStr ssid)]
  end.

Definition level_of_network (n : network_end) : option Z :=
  match n with
  | LevelRead _ lvl => Some lvl
  | _ => None
  end.

Definition wifi_of (ph : phase) : object :=
  match ph with
  | AwaitPermission | Stopped _ | AwaitSsid _ => []
  | AwaitConnection _ ssid | AwaitLevel _ ssid => [("ssid", VStr ssid)]
  | AwaitPosition _ n | Finished _ n _ => wifi_of_network n
  end.

Definition level_of (ph : phase) : option Z :=
  match ph with
  | AwaitPosition _ n | Finished _ n _ => level_of_network n
  | _ => None
  end.

Definition position_of (ph : phase) : option LocationObject :=
  match ph with
  | Finished _ _ (Resolved loc) => Some loc
  | _ => None
  end.

(** The calls and the events of the pipeline, among all those of the
    component. *)
Definition pipeline_call (c : call) : bool :=
  match c with
  | requestForegroundPermissionsAsync | getCurrentPositionAsync
  | getCurrentWifiSSID | connectionStatus | getCurrentSignalStrength => true
  | loadWifiList | addDoc _ | getDocs => false
  end.

Definition pipeline_event (e : event) : bool :=
  match e with
  | Invoke c => pipeline_call c
  | Settled s => pipeline_call (call_of s)
  | ToastShow msg =>
      String.eqb msg "Location permission is required to collect data."
      || String.eqb msg "Error fetching network info"
      || String.eqb msg "Error fetching location"
  | ConsoleError msg =>
      String.eqb msg "Error fetching network info:"
      || String.eqb msg "Error fetching location:"
  | Uncaught msg => String.eqb msg "requestForegroundPermissionsAsync rejected"
  end.

(** The pipeline of [sys] is at [ph]. *)
Record at_phase (ph : phase) (sys : System) : Prop := {
  ph_ok : phase_ok ph = true;
  ph_script : filter pipeline_event (trace sys) = script ph;
  ph_pool : filter pipeline_call (map awaited (pool sys)) = awaiting ph;
  ph_wifi : wifiDetails (app sys) = wifi_of ph;
  ph_level : signalStrength (app sys) = level_of ph;
  ph_position : location (app sys) = position_of ph
}.

(** Where a settlement takes the pipeline; the settlements of other
    functions leave it where it is. *)
Definition advance (ph : phase) (s : settlement) : phase :=
  match ph, s with
  | AwaitPermission, PermissionSettled (Resolved p) =>
      if granted p then AwaitSsid p else Stopped (Resolved p)
  | AwaitPermission, PermissionSettled Rejected => Stopped Rejected
  | AwaitSsid p, SsidSettled (Resolved ssid) => AwaitConnection p ssid
  | AwaitSsid p, SsidSettled Rejected => AwaitPosition p SsidFailed
  | AwaitConnection p ssid, ConnectionSettled (Resolved true) =>
      AwaitLevel p ssid
  | AwaitConnection p ssid, ConnectionSettled (Resolved false) =>
      AwaitPosition p (NotConnected ssid)
  | AwaitConnection p ssid, ConnectionSettled Rejected =>
      AwaitPosition p (ConnectionFailed ssid)
  | AwaitLevel p ssid, SignalSettled (Resolved lvl) =>
      AwaitPosition p (LevelRead ssid lvl)
  | AwaitLevel p ssid, SignalSettled Rejected =>
      AwaitPosition p (LevelFailed ssid)
  | AwaitPosition p n, PositionSettled r => Finished p n r
  | _, _ => ph
  end.

Definition advance_label (ph : phase) (l : label) : phase :=
  match l with
  | Settle _ s => advance ph s
  | Tick _ | Press => ph
  end.

(** ** The words of the specification

    The network identifier of the session is [wifiDetails.ssid], the
    signal level [signalStrength] and the position [location]. *)
Definition networkId (st : AppState) : option value :=
  obj_get "ssid" (wifiDetails st).

(** A field is present when it is not absent ([undefined] or [null]). *)
Definition all_present (st : AppState) : Prop :=
  networkId st <> None /\ signalStrength st <> None /\ location st <> None.

(** A field is truthy when JavaScript's [!] gives [false] on it. *)
Definition all_truthy (st : AppState) : Prop :=
  (exists v, networkId st = Some v /\ truthy v = true) /\
  (exists z, signalStrength st = Some z /\ z <> 0) /\
  (exists loc, location st = Some loc).

(** A piece of code performs a store write when it calls [addDoc]. *)
Definition writes (es : list event) : Prop :=
  exists d, In (Invoke (addDoc d)) es.

(** How [saveData] reports an observation that is not submittable. *)
Definition IncompleteObservation : list event :=
  [ToastShow "Please ensure all data (Wi-Fi, Signal Strength, Location) is available."].

(** The session of the specification's scenario B with a signal level of
    zero, and the one of scenario C. *)
Definition position_37_122 : LocationObject :=
  {| coords := {| latitude := S754_finite false 37 0;
                  longitude := S754_finite true 122 0;
                  coords_others := [] |};
     others := [] |}.

Definition session_level_zero : AppState :=
  {| wifiDetails := [("ssid", VStr "NET1")]; signalStrength := Some 0;
     location := Some position_37_122; savedData := [];
     availableNetworks := [] |}.

Definition session_no_name : AppState :=
  {| wifiDetails := [("ssid", VStr "")]; signalStrength := Some (-54);
     location := Some position_37_122; savedData := [];
     availableNetworks := [] |}.

Definition session_complete : AppState :=
  {| wifiDetails := [("ssid", VStr "NET1")]; signalStrength := Some (-54);
     location := Some position_37_122; savedData := [];
     availableNetworks := [] |}.

(** The device queries: those of the pipeline behind the permission
    request, and the listing of the nearby networks. *)
Definition gated_query (c : call) : bool :=
  match c with
  | getCurrentWifiSSID | connectionStatus | getCurrentSignalStrength
  | getCurrentPositionAsync => true
  | _ => false
  end.

Definition device_query (c : call) : bool :=
  match c with
  | loadWifiList => true
  | _ => gated_query c
  end.

(** The permission request has resolved to ['granted'] among [es]. *)
Definition is_grant (e : event) : bool :=
  match e with
  | Settled (PermissionSettled (Resolved p)) => granted p
  | _ => false
  end.

Definition permission_granted_in (es : list event) : Prop :=
  exists e, In e es /\ is_grant e = true.

(** No gated query is made before the grant. *)
Fixpoint grant_first (es : list event) : bool :=
  match es with
  | [] => true
  | e :: es' =>
      if is_grant e then true
      else match e with
           | Invoke c => negb (gated_query c) && grant_first es'
           | _ => grant_first es'
           end
  end.

(** P1 of the specification, for a set [queries] of device queries: in
    every run, a query is made only after the permission request of that
    run has resolved to granted. *)
Definition permission_ordering (queries : call -> bool) : Prop :=
  forall sys, reachable sys ->
  forall pre c post,
    trace sys = pre ++ Invoke c :: post -> queries c = true ->
    permission_granted_in pre.

(** ** A stage run alone

    [run_sequential] runs a piece of code and then, as long as it is
    suspended on a call that [answers] knows, settles that call and runs
    on: the stage as it goes when nothing else is interleaved.  The
    network stage is [fetchNetworkInfo] run this way up to its call of
    [fetchLocation], on the outcomes of its three queries. *)
Fixpoint run_sequential (fuel : nat) (answers : call -> option settlement)
    (p : sync) : sync :=
  fun st =>
    let (st1, es) := p st in
    match fuel, invoked es with
    | S fuel', [c] =>
        match answers c with
        | Some s =>
            let (st2, es2) := run_sequential fuel' answers (resume s) st1 in
            (st2, es ++ Settled s :: es2)
        | None => (st1, es)
        end
    | _, _ => (st1, es)
    end.

Definition network_answers (ssid : outcome string) (isConnected : outcome bool)
    (lvl : outcome Z) (c : call) : option settlement :=
  match c with
  | getCurrentWifiSSID => Some (SsidSettled ssid)
  | connectionStatus => Some (ConnectionSettled isConnected)
  | getCurrentSignalStrength => Some (SignalSettled lvl)
  | _ => None
  end.

Definition network_stage (ssid : outcome string) (isConnected : outcome bool)
    (lvl : outcome Z) : sync :=
  run_sequential 3 (network_answers ssid isConnected lvl) fetchNetworkInfo.

(** The end of the network stage on given outcomes. *)
Definition network_end_of (ssid : outcome string) (isConnected : outcome bool)
    (lvl : outcome Z) : network_end :=
  match ssid, isConnected, lvl with
  | Rejected, _, _ => SsidFailed
  | Resolved id, Rejected, _ => ConnectionFailed id
  | Resolved id, Resolved false, _ => NotConnected id
  | Resolved id, Resolved true, Rejected => LevelFailed id
  | Resolved id, Resolved true, Resolved l => LevelRead id l
  end.

(** P2 of the specification on one outcome of the stage: a failure of the
    signal level query leaves the identifier set, and a failure of the
    identifier query does not keep a successful signal level query from
    setting the level. *)
Definition retrieval_independent (ssid : outcome string)
    (isConnected : outcome bool) (lvl : outcome Z) (st : AppState) : Prop :=
  let st' := fst (network_stage ssid isConnected lvl st) in
  (forall id, ssid = Resolved id -> lvl = Rejected ->
     networkId st' = Some (VStr id)) /\
  (forall l, ssid = Rejected -> lvl = Resolved l ->
     signalStrength st' = Some l).

(** ** The record shapes

    [contract_shape] is the shape of section 6 of the specification;
    [record_shape] the shape of the object literal [data] of [saveData]. *)
Definition contract_shape (d : value) : Prop :=
  exists id lvl pos lat lon ts,
    Permutation (keys d) ["networkId"; "signalLevel"; "position"; "capturedAt"] /\
    field "networkId" d = Some (VStr id) /\
    field "signalLevel" d = Some (VInt lvl) /\
    field "position" d = Some pos /\
    Permutation (keys pos) ["lat"; "lon"] /\
    field "lat" pos = Some (VFloat lat) /\
    field "lon" pos = Some (VFloat lon) /\
    field "capturedAt" d = Some (VStr ts) /\
    Date.is_iso8601 ts = true.

Definition record_shape (d : value) : Prop :=
  exists ssid lvl lat lon ts,
    ssid <> "" /\ lvl <> 0 /\ Date.is_iso8601 ts = true /\
    d = VMap [("wifiDetails", VMap [("ssid", VStr ssid)]);
              ("signalStrength", VInt lvl);
              ("location", VMap [("latitude", VFloat lat);
                                 ("longitude", VFloat lon)]);
              ("timestamp", VStr ts)].

(** Every record handed to [addDoc] in a run has the shape [shape]. *)
Definition records_have (shape : value -> Prop) : Prop :=
  forall sys, reachable sys ->
  forall d, In (Invoke (addDoc d)) (trace sys) -> shape d.

(** ** Three runs

    The scenarios of the specification, on an empty collection and from
    time 0: the permission is denied (scenario A); everything is
    collected, NET1 at -54 and the position (37, -122) (scenario C), then
    saved five seconds later, stored and listed again; the identifier query
    fails while the device is connected. *)
Definition permission (st : string) : outcome PermissionResponse :=
  Resolved {| status := st |}.

Definition run_denied : System :=
  settle 0 (PermissionSettled (permission "denied")) (start [] 0).

Definition run_collected : System :=
  settle 2 (PositionSettled (Resolved position_37_122))
    (settle 2 (SignalSettled (Resolved (-54)))
       (settle 2 (ConnectionSettled (Resolved true))
          (settle 2 (SsidSettled (Resolved "NET1"))
             (settle 0 (PermissionSettled (permission "granted"))
                (start [] 0))))).

Definition record_saved : value :=
  saveData_data session_complete position_37_122 5000.

Definition run_saved : System := press (tick 5000 run_collected).

Definition run_stored : System :=
  settle 2 (AddDocSettled record_saved (Resolved tt)) run_saved.

Definition run_refreshed : System :=
  settle 2 (GetDocsSettled (Resolved [record_saved])) run_stored.

Definition run_save_failed : System :=
  settle 2 (AddDocSettled record_saved Rejected) run_saved.

Definition run_no_ssid : System :=
  settle 2 (SsidSettled Rejected)
    (settle 0 (PermissionSettled (permission "granted")) (start [] 0)).

Definition run_not_connected : System :=
  settle 2 (ConnectionSettled (Resolved false))
    (settle 2 (SsidSettled (Resolved "NET1"))
       (settle 0 (PermissionSettled (permission "granted")) (start [] 0))).

(** ** Timestamps in the session

    The program keeps no time of its own before [saveData]; what it holds
    under the name [timestamp] is a property of [wifiDetails], or one of
    the location object, which is stored as it was received. *)
Definition session_timestamp (st : AppState) : option value :=
  match obj_get "timestamp" (wifiDetails st) with
  | Some v => Some v
  | None =>
      match location st with
      | Some loc => obj_get "timestamp" (others loc)
      | None => None
      end
  end.

(** The last clause of C5, in the words of the specification: no timestamp
    exists on the in-progress observation before save. *)
Definition no_timestamp_before_save : Prop :=
  forall sys,
    reachable sys -> (forall d, ~ In (Invoke (addDoc d)) (trace sys)) ->
    session_timestamp (app sys) = None.

(** Scenario C again, the position answered three seconds into the run by
    an object that carries the time of the fix, as expo-location's do; the
    button is pressed two seconds later. *)
Definition position_fixed_at_3000 : LocationObject :=
  {| coords := coords position_37_122;
     others := [("timestamp", VInt 3000)] |}.

Definition run_fixed : System :=
  settle 2 (PositionSettled (Resolved position_fixed_at_3000))
    (tick 3000
       (settle 2 (SignalSettled (Resolved (-54)))
          (settle 2 (ConnectionSettled (Resolved true))
             (settle 2 (SsidSettled (Resolved "NET1"))
                (settle 0 (PermissionSettled (permission "granted"))
                   (start [] 0)))))).

Definition record_fixed : value :=
  saveData_data (app run_fixed) position_fixed_at_3000 5000.

(** ** What a run keeps true

    The clock stays a time value; an outstanding call has been made, when
    the collection held no more documents than now; a document handed to
    [addDoc] is the object literal of [saveData], built at some time from
    the session as it still is. *)
Definition saved_from (st : AppState) (d : value) (now : Z) : Prop :=
  exists loc,
    location st = Some loc /\ all_truthy st /\ d = saveData_data st loc now.

Record run_inv (sys : System) : Prop := {
  inv_clock : Date.valid (clock sys);
  inv_pool : forall tk, In tk (pool sys) ->
               In (Invoke (awaited tk)) (trace sys) /\
               (issued tk <= length (store sys))%nat;
  inv_written : forall d, In (Invoke (addDoc d)) (trace sys) ->
                  exists now, Date.valid now /\ now <= clock sys /\
                              saved_from (app sys) d now
}.

(** ** More words about a run *)

(** The three queries of [fetchNetworkInfo]. *)
Definition network_query (c : call) : bool :=
  match c with
  | getCurrentWifiSSID | connectionStatus | getCurrentSignalStrength => true
  | _ => false
  end.

(** The calls that the source makes from one place only, outside any
    repetition: those of the pipeline and the listing of the networks. *)
Definition single_call (c : call) : bool :=
  match c with
  | loadWifiList => true
  | _ => pipeline_call c
  end.

(** The settlements after which a field of the session stays absent: the
    permission is not granted, a query rejects, or the device is not
    connected. *)
Definition blocks_save (e : event) : bool :=
  match e with
  | Settled (PermissionSettled r) => negb (is_grant e)
  | Settled (SsidSettled Rejected)
  | Settled (ConnectionSettled Rejected)
  | Settled (ConnectionSettled (Resolved false))
  | Settled (SignalSettled Rejected)
  | Settled (PositionSettled Rejected) => true
  | _ => false
  end.

(** The listing of the networks: its call, and what the code after an
    [await] may emit (anything but a settlement or a new listing). *)
Definition listing_call (c : call) : bool :=
  match c with
  | loadWifiList => true
  | _ => false
  end.

Definition emitted_event (e : event) : bool :=
  match e with
  | Settled _ | Invoke loadWifiList => false
  | _ => true
  end.

(** The settlements of the listing, among the events of a run. *)
Definition listing_settled (e : event) : bool :=
  match e with
  | Settled s => listing_call (call_of s)
  | _ => false
  end.

(** What [availableNetworks] holds once the listing has settled with [r]. *)
Definition networks_of (r : outcome (list WifiEntry)) : list WifiEntry :=
  match r with
  | Resolved networks => networks
  | Rejected => []
  end.

(** Scenario C saved a second time, one second later. *)
Definition record_saved_again : value :=
  saveData_data session_complete position_37_122 6000.

Definition run_saved_again : System := press (tick 1000 run_saved).

(** A listing that answers with two networks, on the run of scenario A. *)
Definition two_networks : list WifiEntry :=
  [{| SSID := "NET1"; level := -54 |}; {| SSID := "NET2"; level := -71 |}].

Definition run_listed : System :=
  settle 1 (WifiListSettled (Resolved two_networks)) run_denied.

(** ** The screen

    What [App] returns: the tree of elements, with the [style] of an
    element as the name of its entry in [styles] and the children of a
    [Text] as the values between its tags, [None] standing for
    [undefined].  A [FlatList] holds its data; it calls [renderItem] and
    [keyExtractor] on the items it shows. *)
#[warnings="-register-all"]
Inductive node : Type :=
| Text (style : option string) (children : list (option value))
| Button (title : string)
| View (key : option nat) (style : option string) (children : list node)
| ScrollView (children : list node)
| FlatList (data : list value)
| Nothing.                                (* [null]: nothing is shown *)

(** [String(z)] for an integer [z], as a template literal or [toString]
    prints it: in decimal (JavaScript does so below 10^21). *)
Definition Number_toString (z : Z) : string :=
  DecimalString.NilZero.string_of_int (Z.to_int z).

(** [a || b]. *)
Definition js_or (a : option value) (b : value) : option value :=
  if truthy_prop a then a else Some b.

(** [<Text style={styles.info}>SSID: {wifiDetails.ssid || "Fetching..."}</Text>] *)
Definition ssid_text (st : AppState) : node :=
  Text (Some "info")
    [Some (VStr "SSID: ");
     js_or (obj_get "ssid" (wifiDetails st)) (VStr "Fetching...")].

(** The template literal [`${signalStrength} dBm`]. *)
Definition signal_template (s : option Z) : string :=
  match s with
  | Some z => (Number_toString z ++ " dBm")%string
  | None => "null dBm"
  end.

Definition signal_text (st : AppState) : node :=
  Text (Some "info")
    [Some (VStr "Signal Strength: ");
     Some (VStr (if truthy (signal_value (signalStrength st))
                 then signal_template (signalStrength st)
                 else "Fetching..."))].

(** [{location && (<Text ...>Location: {lat}, {lon}</Text>)}] *)
Definition location_text (st : AppState) : node :=
  match location st with
  | None => Nothing
  | Some loc =>
      Text (Some "info")
        [Some (VStr "Location: "); Some (VFloat (latitude (coords loc)));
         Some (VStr ", "); Some (VFloat (longitude (coords loc)))]
  end.

(** [availableNetworks.map((network, index) => ...)] *)
Definition network_item (index : nat) (network : WifiEntry) : node :=
  View (Some index) (Some "item")
    [Text None [Some (VStr "SSID: "); Some (VStr (SSID network))];
     Text None [Some (VStr "Signal Strength: "); Some (VInt (level network));
                Some (VStr " dBm")]].

Fixpoint map_index {A B : Type} (f : nat -> A -> B) (i : nat) (l : list A)
    : list B :=
  match l with
  | [] => []
  | a :: l' => f i a :: map_index f (S i) l'
  end.

(** A property read [v.k] where [v] itself may be [undefined] or [null]:
    then the read throws a TypeError, which is [None] here. *)
Definition prop (v : option value) (k : string) : option (option value) :=
  match v with
  | None | Some VNull => None
  | Some v' => Some (field k v')
  end.

Definition is_nullish (v : option value) : bool :=
  match v with
  | None | Some VNull => true
  | Some _ => false
  end.

(** [renderItem={({ item }) => ...}]: the element shown for a saved
    record, or [None] when building it throws. *)
Definition renderItem (item : value) : option node :=
  match prop (Some item) "wifiDetails" with
  | None => None
  | Some wifi =>
      match prop wifi "ssid", prop (Some item) "location" with
      | Some ssid, Some loc =>
          match prop loc "latitude", prop loc "longitude" with
          | Some lat, Some lon =>
              Some (View None (Some "item")
                      [Text None [Some (VStr "SSID: "); ssid];
                       Text None [Some (VStr "Signal: ");
                                  field "signalStrength" item;
                                  Some (VStr " dBm")];
                       Text None [Some (VStr "Location: "); lat;
                                  Some (VStr ", "); lon];
                       Text None [Some (VStr "Timestamp: ");
                                  field "timestamp" item]])
          | _, _ => None
          end
      | _, _ => None
      end
  end.

(** [keyExtractor={(item, index) => index.toString()}] *)
Definition keyExtractor (item : value) (index : nat) : string :=
  Number_toString (Z.of_nat index).

Definition render (st : AppState) : node :=
  View None (Some "container")
    [Text (Some "header") [Some (VStr "Wi-Fi Signal Strength and Location")];
     ssid_text st;
     signal_text st;
     location_text st;
     Button "Save Data";
     Text (Some "subHeader") [Some (VStr "Available Networks:")];
     ScrollView (map_index network_item 0 (availableNetworks st));
     Text (Some "subHeader") [Some (VStr "Saved Data:")];
     FlatList (savedData st)].

(** The two lines that stand for a value that is not there. *)
Definition ssid_fetching : node :=
  Text (Some "info") [Some (VStr "SSID: "); Some (VStr "Fetching...")].

Definition signal_fetching : node :=
  Text (Some "info")
    [Some (VStr "Signal Strength: "); Some (VStr "Fetching...")].

(** A document of another writer: no [wifiDetails], no [location]. *)
Definition foreign_document : value := VMap [("note", VStr "hello")].

(** ** Mounts and renders

    React calls the function [App] to render an instance of the component:
    when the instance is mounted, and again after its state has been
    updated.  [useState(init)] gives the cell as the instance remembers
    it, and [init] at the first call; the effect of
    [useEffect(effect, [])], whose list of dependencies is empty, runs
    after the first render of the instance and not again.  An instance
    that is unmounted is gone with its cells; a function of it that is
    still suspended runs on when its call settles, and the state updates
    it makes are dropped.

    [start] above is the first render of one instance.  A [Life] is the
    component over several: which instance is mounted, its cells once it
    has rendered, and the suspended functions and the events, each with
    the instance it belongs to. *)
Definition useState {A : Type} (remembered : option A) (init : A) : A :=
  match remembered with
  | Some v => v
  | None => init
  end.

(** The hooks of [App] (lines 25 to 35) in a render of an instance that
    remembers [memory]: the five cells, and the effect that is due. *)
Definition App_hooks (memory : option AppState) : AppState * option sync :=
  ({| wifiDetails := useState (option_map wifiDetails memory) [];
      signalStrength := useState (option_map signalStrength memory) None;
      location := useState (option_map location memory) None;
      savedData := useState (option_map savedData memory) [];
      availableNetworks := useState (option_map availableNetworks memory) [] |},
   match memory with
   | None => Some useEffect
   | Some _ => None
   end).

Record Life : Type := {
  mounted : nat;                    (* the instance that is mounted *)
  cells : option AppState;          (* its cells, [None] before its first render *)
  suspended : list (nat * task);    (* the suspended functions, with their instance *)
  collection : list value;          (* the collection "networkDetails" *)
  time : Z;                         (* the clock *)
  history : list (nat * event)      (* the events, with their instance *)
}.

Definition of_instance {A : Type} (g : nat) (l : list A) : list (nat * A) :=
  map (pair g) l.

Definition run_effect (effect : option sync) : sync :=
  match effect with
  | Some p => p
  | None => emit []
  end.

Inductive life_label : Type :=
| Elapse (dt : Z)                               (* time passes *)
| Render                                        (* React calls [App] *)
| Remount                                       (* the instance is replaced *)
| PressSave                                     (* the button "Save Data" *)
| SettleOf (g : nat) (tk : task) (s : settlement).

Inductive life_step : Life -> life_label -> Life -> Prop :=
| life_elapse : forall L dt,
    0 <= dt ->
    Date.valid (time L + dt) ->
    life_step L (Elapse dt)
      {| mounted := mounted L; cells := cells L; suspended := suspended L;
         collection := collection L; time := time L + dt;
         history := history L |}
| life_render : forall L st effect st' es,
    App_hooks (cells L) = (st, effect) ->
    run_effect effect st = (st', es) ->
    life_step L Render
      {| mounted := mounted L; cells := Some st';
         suspended := suspended L
                      ++ of_instance (mounted L)
                           (spawn (length (collection L)) es);
         collection := collection L; time := time L;
         history := history L ++ of_instance (mounted L) es |}
| life_remount : forall L,
    life_step L Remount
      {| mounted := S (mounted L); cells := None; suspended := suspended L;
         collection := collection L; time := time L;
         history := history L |}
| life_press : forall L st st' es,
    cells L = Some st ->
    saveData (time L) st = (st', es) ->
    life_step L PressSave
      {| mounted := mounted L; cells := Some st';
         suspended := suspended L
                      ++ of_instance (mounted L)
                           (spawn (length (collection L)) es);
         collection := collection L; time := time L;
         history := history L ++ of_instance (mounted L) es |}
| life_settle : forall L before tk after s st st' es,
    suspended L = before ++ (mounted L, tk) :: after ->
    awaited tk = call_of s ->
    answer_ok tk s (collection L) ->
    cells L = Some st ->
    resume s st = (st', es) ->
    life_step L (SettleOf (mounted L) tk s)
      {| mounted := mounted L; cells := Some st';
         suspended := before ++ after
                      ++ of_instance (mounted L)
                           (spawn (length (store_after s (collection L))) es);
         collection := store_after s (collection L); time := time L;
         history := history L ++ of_instance (mounted L) (Settled s :: es) |}
| life_settle_unmounted : forall L before g tk after s st st' es,
    suspended L = before ++ (g, tk) :: after ->
    g <> mounted L ->
    awaited tk = call_of s ->
    answer_ok tk s (collection L) ->
    resume s st = (st', es) ->        (* on the cells of the instance that is gone *)
    life_step L (SettleOf g tk s)
      {| mounted := mounted L; cells := cells L;
         suspended := before ++ after
                      ++ of_instance g
                           (spawn (length (store_after s (collection L))) es);
         collection := store_after s (collection L); time := time L;
         history := history L ++ of_instance g (Settled s :: es) |}.

(** Before the first mount. *)
Definition born (store0 : list value) (t0 : Z) : Life :=
  {| mounted := 0%nat; cells := None; suspended := []; collection := store0;
     time := t0; history := [] |}.

Inductive life_steps : Life -> Life -> Prop :=
| life_steps_refl : forall L, life_steps L L
| life_steps_next : forall L l L1 L2,
    life_steps L L1 -> life_step L1 l L2 -> life_steps L L2.

Definition life_reachable (L : Life) : Prop :=
  exists store0 t0, Date.valid t0 /\ life_steps (born store0 t0) L.

(** A run of one instance, as a life. *)
Definition life_of (sys : System) : Life :=
  {| mounted := 0%nat; cells := Some (app sys);
     suspended := of_instance 0%nat (pool sys); collection := store sys;
     time := clock sys; history := of_instance 0%nat (trace sys) |}.

(** The steps of a life as functions, to compute lives: [settle_of i s]
    settles the [i]-th suspended function with [s]. *)
Definition render_app (L : Life) : Life :=
  let (st, effect) := App_hooks (cells L) in
  let (st', es) := run_effect effect st in
  {| mounted := mounted L; cells := Some st';
     suspended := suspended L
                  ++ of_instance (mounted L) (spawn (length (collection L)) es);
     collection := collection L; time := time L;
     history := history L ++ of_instance (mounted L) es |}.

Definition remount (L : Life) : Life :=
  {| mounted := S (mounted L); cells := None; suspended := suspended L;
     collection := collection L; time := time L; history := history L |}.

Definition settle_of (i : nat) (s : settlement) (L : Life) : Life :=
  match nth_error (suspended L) i with
  | None => L
  | Some (g, _) =>
      let live := Nat.eqb g (mounted L) in
      let st := match cells L with
                | Some st => if live then st else initialState
                | None => initialState
                end in
      let (st', es) := resume s st in
      {| mounted := mounted L;
         cells := if live then Some st' else cells L;
         suspended := firstn i (suspended L) ++ skipn (S i) (suspended L)
                      ++ of_instance g
                           (spawn (length (store_after s (collection L))) es);
         collection := store_after s (collection L); time := time L;
         history := history L ++ of_instance g (Settled s :: es) |}
  end.

(** A first instance that reads NET1 and is replaced while its query of
    the connection is outstanding; the second instance starts; then the
    queries of the first come back: connected, at -54. *)
Definition life_first_run : Life :=
  settle_of 2 (SsidSettled (Resolved "NET1"))
    (settle_of 0 (PermissionSettled (permission "granted"))
       (render_app (born [] 0))).

Definition life_restarted : Life := render_app (remount life_first_run).

Definition life_late_answers : Life :=
  settle_of 5 (SignalSettled (Resolved (-54)))
    (settle_of 2 (ConnectionSettled (Resolved true)) life_restarted).

(** The session [st] is the work of instance [g]: each of its three fields
    that is set was set by a query of [g] that resolved, in [h]. *)
Definition own_session (g : nat) (st : AppState) (h : list (nat * event)) : Prop :=
  (forall k v, obj_get k (wifiDetails st) = Some v ->
     k = "ssid" /\ exists ssid, v = VStr ssid /\
     In (g, Settled (SsidSettled (Resolved ssid))) h) /\
  (forall lvl, signalStrength st = Some lvl ->
     In (g, Settled (SignalSettled (Resolved lvl))) h) /\
  (forall loc, location st = Some loc ->
     In (g, Settled (PositionSettled (Resolved loc))) h).

(** What a life keeps true: nothing belongs to an instance that is yet to
    come, an instance that has not rendered has done nothing, and the
    session is the work of the mounted instance. *)
Record life_inv (L : Life) : Prop := {
  li_history : forall g e, In (g, e) (history L) -> (g <= mounted L)%nat;
  li_suspended : forall g tk, In (g, tk) (suspended L) -> (g <= mounted L)%nat;
  li_fresh : cells L = None -> forall e, ~ In (mounted L, e) (history L);
  li_session : forall st, cells L = Some st ->
                 own_session (mounted L) st (history L)
}.

(** ** The earlier version of the component

    The second text of [src/App.js]: the same component before the list of
    nearby networks was added.  It shows alerts ([Alert.alert]) where the
    later version shows toasts, and its [catch] blocks only log.  The
    calls, the settlements, the collection and the clock are those of the
    later version. *)
Module Previous.

Record State : Type := {
  wifiDetails : object;                 (* useState({})   *)
  signalStrength : option Z;            (* useState(null) *)
  location : option LocationObject;     (* useState(null) *)
  savedData : list value                (* useState([])   *)
}.

Definition initialState : State :=
  {| wifiDetails := []; signalStrength := None; location := None;
     savedData := [] |}.

Definition setWifiDetails (f : object -> object) (st : State) : State :=
  {| wifiDetails := f (wifiDetails st); signalStrength := signalStrength st;
     location := location st; savedData := savedData st |}.

Definition setSignalStrength (lvl : Z) (st : State) : State :=
  {| wifiDetails := wifiDetails st; signalStrength := Some lvl;
     location := location st; savedData := savedData st |}.

Definition setLocation (loc : LocationObject) (st : State) : State :=
  {| wifiDetails := wifiDetails st; signalStrength := signalStrength st;
     location := Some loc; savedData := savedData st |}.

Definition setSavedData (docs : list value) (st : State) : State :=
  {| wifiDetails := wifiDetails st; signalStrength := signalStrength st;
     location := location st; savedData := docs |}.

Inductive event : Type :=
| Invoke (c : call)                     (* a collaborator is called *)
| AlertShow (title msg : string)        (* Alert.alert(title, msg) *)
| ConsoleError (msg : string)           (* console.error(msg, error) *)
| Uncaught (msg : string)               (* an exception no handler catches *)
| Settled (s : settlement).             (* an awaited promise settles *)

Definition sync : Type := State -> State * list event.

Definition emit (es : list event) : sync := fun st => (st, es).
Definition update (f : State -> State) : sync := fun st => (f st, []).
Definition seq (p q : sync) : sync :=
  fun st => let (st1, es1) := p st in
            let (st2, es2) := q st1 in (st2, es1 ++ es2).
Definition await (c : call) : sync := emit [Invoke c].

Definition fetchLocation : sync := await getCurrentPositionAsync.

Definition fetchLocation_resume (r : outcome LocationObject) : sync :=
  match r with
  | Resolved loc => update (setLocation loc)
  | Rejected => emit [ConsoleError "Error fetching location:"]
  end.

Definition fetchNetworkInfo : sync := await getCurrentWifiSSID.

Definition fetchNetworkInfo_catch : sync :=
  seq (emit [ConsoleError "Error fetching network info:"]) fetchLocation.

Definition fetchNetworkInfo_ssid (r : outcome string) : sync :=
  match r with
  | Resolved ssid =>
      seq (update (setWifiDetails (fun prev => obj_set "ssid" (VStr ssid) prev)))
          (await connectionStatus)
  | Rejected => fetchNetworkInfo_catch
  end.

Definition fetchNetworkInfo_connected (r : outcome bool) : sync :=
  match r with
  | Resolved isConnected =>
      if isConnected then await getCurrentSignalStrength else fetchLocation
  | Rejected => fetchNetworkInfo_catch
  end.

Definition fetchNetworkInfo_level (r : outcome Z) : sync :=
  match r with
  | Resolved lvl => seq (update (setSignalStrength lvl)) fetchLocation
  | Rejected => fetchNetworkInfo_catch
  end.

Definition requestPermissions : sync := await requestForegroundPermissionsAsync.

Definition requestPermissions_resume (r : outcome PermissionResponse) : sync :=
  match r with
  | Resolved p =>
      if negb (String.eqb (status p) "granted")
      then emit [AlertShow "Permission Error"
                   "Location permission is required to collect data."]
      else fetchNetworkInfo
  | Rejected => emit [Uncaught "requestForegroundPermissionsAsync rejected"]
  end.

Definition fetchSavedData : sync := await getDocs.

Definition fetchSavedData_resume (r : outcome (list value)) : sync :=
  match r with
  | Resolved data => update (setSavedData data)
  | Rejected => emit [ConsoleError "Error fetching saved data:"]
  end.

Definition saveData_guard (st : State) : bool :=
  negb (truthy_prop (obj_get "ssid" (wifiDetails st)))
  || negb (truthy (signal_value (signalStrength st)))
  || negb (isSome (location st)).

Definition saveData_data (st : State) (loc : LocationObject) (now : Z) : value :=
  VMap [("wifiDetails", VMap (wifiDetails st));
        ("signalStrength", signal_value (signalStrength st));
        ("location", VMap [("latitude", VFloat (latitude (coords loc)));
                           ("longitude", VFloat (longitude (coords loc)))]);
        ("timestamp", VStr (Date.toISOString now))].

Definition saveData (now : Z) : sync :=
  fun st =>
    if saveData_guard st
    then emit [AlertShow "Data Missing"
                 "Please ensure all data (Wi-Fi, Signal Strength, Location) is available."] st
    else
      match location st with
      | None => emit [Uncaught "TypeError: location is null"] st
      | Some loc => await (addDoc (saveData_data st loc now)) st
      end.

Definition saveData_resume (r : outcome unit) : sync :=
  match r with
  | Resolved _ =>
      seq (emit [AlertShow "Success" "Data saved successfully!"])
          fetchSavedData
  | Rejected => emit [ConsoleError "Error saving data to Firebase:"]
  end.

Definition useEffect : sync := seq requestPermissions fetchSavedData.

(** The code that runs when an awaited call settles; no function of this
    version awaits [loadWifiList]. *)
Definition resume (s : settlement) : option sync :=
  match s with
  | PermissionSettled r => Some (requestPermissions_resume r)
  | PositionSettled r => Some (fetchLocation_resume r)
  | SsidSettled r => Some (fetchNetworkInfo_ssid r)
  | ConnectionSettled r => Some (fetchNetworkInfo_connected r)
  | SignalSettled r => Some (fetchNetworkInfo_level r)
  | WifiListSettled _ => None
  | AddDocSettled _ r => Some (saveData_resume r)
  | GetDocsSettled r => Some (fetchSavedData_resume r)
  end.

Record System : Type := {
  app : State;
  pool : list task;
  store : list value;
  clock : Z;
  trace : list event
}.

Definition invoked (es : list event) : list call :=
  flat_map (fun e => match e with Invoke c => [c] | _ => [] end) es.

Definition spawn (n : nat) (es : list event) : list task :=
  map (fun c => {| awaited := c; issued := n |}) (invoked es).

Inductive step : System -> label -> System -> Prop :=
| step_tick : forall sys dt,
    0 <= dt ->
    Date.valid (clock sys + dt) ->
    step sys (Tick dt)
      {| app := app sys; pool := pool sys; store := store sys;
         clock := clock sys + dt; trace := trace sys |}
| step_press : forall sys st es,
    saveData (clock sys) (app sys) = (st, es) ->
    step sys Press
      {| app := st; pool := pool sys ++ spawn (length (store sys)) es;
         store := store sys; clock := clock sys;
         trace := trace sys ++ es |}
| step_settle : forall sys before tk after s p st es,
    pool sys = before ++ tk :: after ->
    awaited tk = call_of s ->
    answer_ok tk s (store sys) ->
    resume s = Some p ->
    p (app sys) = (st, es) ->
    step sys (Settle tk s)
      {| app := st;
         pool := before ++ after
                 ++ spawn (length (store_after s (store sys))) es;
         store := store_after s (store sys); clock := clock sys;
         trace := trace sys ++ Settled s :: es |}.

Definition start (store0 : list value) (t0 : Z) : System :=
  let (st, es) := useEffect initialState in
  {| app := st; pool := spawn (length store0) es; store := store0;
     clock := t0; trace := es |}.

Inductive steps : System -> System -> Prop :=
| steps_refl : forall sys, steps sys sys
| steps_next : forall sys l sys1 sys2,
    steps sys sys1 -> step sys1 l sys2 -> steps sys sys2.

Definition reachable (sys : System) : Prop :=
  exists store0 t0, Date.valid t0 /\ steps (start store0 t0) sys.

(** The grant among events, and the test that no device query is made
    before it. *)
Definition is_grant (e : event) : bool :=
  match e with
  | Settled (PermissionSettled (Resolved p)) => granted p
  | _ => false
  end.

Fixpoint grant_first (es : list event) : bool :=
  match es with
  | [] => true
  | e :: es' =>
      if is_grant e then true
      else match e with
           | Invoke c => negb (device_query c) && grant_first es'
           | _ => grant_first es'
           end
  end.

Definition has_grant (es : list event) : bool := existsb is_grant es.

(** The three alerts of the source. *)
Definition alerts : list event :=
  [AlertShow "Permission Error"
     "Location permission is required to collect data.";
   AlertShow "Data Missing"
     "Please ensure all data (Wi-Fi, Signal Strength, Location) is available.";
   AlertShow "Success" "Data saved successfully!"].

Definition is_alert (e : event) : bool :=
  match e with
  | AlertShow _ _ => true
  | _ => false
  end.

(** A settlement as a function, to compute runs; a settlement that no
    function awaits changes nothing. *)
Definition settle (i : nat) (s : settlement) (sys : System) : System :=
  match resume s with
  | None => sys
  | Some p =>
      let (st, es) := p (app sys) in
      {| app := st;
         pool := firstn i (pool sys) ++ skipn (S i) (pool sys)
                 ++ spawn (length (store_after s (store sys))) es;
         store := store_after s (store sys); clock := clock sys;
         trace := trace sys ++ Settled s :: es |}
  end.

(** Two runs: the permission is granted; the permission is denied and the
    first listing of the saved records fails. *)
Definition run_granted : System :=
  settle 0 (PermissionSettled (permission "granted")) (start [] 0).

Definition run_denied : System :=
  settle 0 (PermissionSettled (permission "denied")) (start [] 0).

Definition run_denied_unlisted : System :=
  settle 0 (GetDocsSettled Rejected) run_denied.

End Previous.

(** A settlement that is a rejection. *)
Definition is_rejection (s : settlement) : bool :=
  match s with
  | PermissionSettled Rejected | PositionSettled Rejected
  | SsidSettled Rejected | ConnectionSettled Rejected
  | SignalSettled Rejected | WifiListSettled Rejected
  | AddDocSettled _ Rejected | GetDocsSettled Rejected => true
  | _ => false
  end.

(** ** The two versions side by side

    What a run exchanges with its collaborators: the calls and their
    settlements, without what is shown or logged.  For the later version
    the listing of the nearby networks is left out, the earlier version
    having none. *)
Inductive exchange : Type :=
| Called (c : call)
| Answered (s : settlement).

Definition exchanges (es : list event) : list exchange :=
  flat_map (fun e => match e with
                     | Invoke c =>
                         if listing_call c then [] else [Called c]
                     | Settled s =>
                         if listing_call (call_of s) then [] else [Answered s]
                     | _ => []
                     end) es.

Definition previous_exchanges (es : list Previous.event) : list exchange :=
  flat_map (fun e => match e with
                     | Previous.Invoke c => [Called c]
                     | Previous.Settled s => [Answered s]
                     | _ => []
                     end) es.

Definition not_listing (tk : task) : bool := negb (listing_call (awaited tk)).

Definition same_cells (p : Previous.State) (a : AppState) : Prop :=
  Previous.wifiDetails p = wifiDetails a /\
  Previous.signalStrength p = signalStrength a /\
  Previous.location p = location a /\
  Previous.savedData p = savedData a.

(** The later version [sys] has done what the earlier version [psys] has:
    same state cells, same collection, same clock, same outstanding calls
    and same exchanges, the listing apart. *)
Record same_run (psys : Previous.System) (sys : System) : Prop := {
  same_app : same_cells (Previous.app psys) (app sys);
  same_store : Previous.store psys = store sys;
  same_clock : Previous.clock psys = clock sys;
  same_pool : Previous.pool psys = filter not_listing (pool sys);
  same_trace : previous_exchanges (Previous.trace psys) = exchanges (trace sys)
}.

(** * Properties *)

(** ** The clock and its printing *)

Module DateFacts.
Import Date.

Lemma TimeWithinDay_range t : 0 <= TimeWithinDay t < msPerDay.
Proof. unfold TimeWithinDay. apply Z.mod_pos_bound. reflexivity. Qed.

Lemma HourFromTime_range t : 0 <= HourFromTime t <= 23.
Proof.
  unfold HourFromTime. pose proof (TimeWithinDay_range t) as H.
  unfold msPerDay in H. Z.div_mod_to_equations. lia.
Qed.

Lemma MinFromTime_range t : 0 <= MinFromTime t <= 59.
Proof. unfold MinFromTime. Z.div_mod_to_equations. lia. Qed.

Lemma SecFromTime_range t : 0 <= SecFromTime t <= 59.
Proof. unfold SecFromTime. Z.div_mod_to_equations. lia. Qed.

Lemma msFromTime_range t : 0 <= msFromTime t <= 999.
Proof. unfold msFromTime. Z.div_mod_to_equations. lia. Qed.

Lemma dayOfEra_range day : 0 <= dayOfEra day < 146097.
Proof. unfold dayOfEra. apply Z.mod_pos_bound. reflexivity. Qed.

Lemma dayOfYear_range day : 0 <= dayOfYear day <= 365.
Proof.
  unfold dayOfYear, yearOfEra. pose proof (dayOfEra_range day) as H.
  set (doe := dayOfEra day) in *. cbv zeta. Z.div_mod_to_equations. lia.
Qed.

Lemma monthIndex_range day : 0 <= monthIndex day <= 11.
Proof.
  unfold monthIndex. pose proof (dayOfYear_range day) as H.
  Z.div_mod_to_equations. lia.
Qed.

Lemma MonthFromDay_range day : 1 <= MonthFromDay day <= 12.
Proof.
  unfold MonthFromDay. pose proof (monthIndex_range day) as H. cbv zeta.
  destruct (Z.ltb_spec (monthIndex day) 10); lia.
Qed.

Lemma DateFromDay_range day : 1 <= DateFromDay day <= 31.
Proof.
  unfold DateFromDay, monthIndex. pose proof (dayOfYear_range day) as H.
  set (doy := dayOfYear day) in *. Z.div_mod_to_equations. lia.
Qed.

(** The characters [toISOString] writes. *)
Lemma nat_of_digit n : nat_of_ascii (digit n) = (48 + Z.to_nat (n mod 10))%nat.
Proof.
  unfold digit. apply nat_ascii_embedding.
  pose proof (Z.mod_pos_bound n 10 eq_refl). lia.
Qed.

Lemma is_digit_digit n : is_digit (digit n) = true.
Proof.
  unfold is_digit. rewrite nat_of_digit.
  pose proof (Z.mod_pos_bound n 10 eq_refl) as H.
  apply andb_true_intro. split; apply Nat.leb_le; lia.
Qed.

Lemma digit_value_digit n : digit_value (digit n) = n mod 10.
Proof.
  unfold digit_value. rewrite nat_of_digit.
  pose proof (Z.mod_pos_bound n 10 eq_refl) as H. lia.
Qed.

Lemma in_range_pad2 n lo hi :
  0 <= lo -> hi < 100 -> lo <= n <= hi ->
  in_range [digit (n / 10); digit n] lo hi = true.
Proof.
  intros Hlo Hhi Hn. unfold in_range, number.
  rewrite !is_digit_digit, !digit_value_digit.
  replace (10 * (10 * 0 + (n / 10) mod 10) + n mod 10) with n
    by (Z.div_mod_to_equations; lia).
  apply andb_true_intro. split; apply Z.leb_le; lia.
Qed.

Lemma in_range_pad3 n :
  0 <= n <= 999 ->
  in_range [digit (n / 10 / 10); digit (n / 10); digit n] 0 999 = true.
Proof.
  intros Hn. unfold in_range, number.
  rewrite !is_digit_digit, !digit_value_digit.
  replace (10 * (10 * (10 * 0 + (n / 10 / 10) mod 10) + (n / 10) mod 10)
           + n mod 10) with n by (Z.div_mod_to_equations; lia).
  apply andb_true_intro. split; apply Z.leb_le; lia.
Qed.

Lemma list_ascii_app s1 s2 :
  list_ascii_of_string (s1 ++ s2)
  = list_ascii_of_string s1 ++ list_ascii_of_string s2.
Proof. induction s1 as [|c s1 IH]; cbn; [reflexivity | now rewrite IH]. Qed.

(** Every time value is printed as an ISO 8601 date-time. *)
Lemma toISOString_iso8601 t : is_iso8601 (toISOString t) = true.
Proof.
  pose proof (MonthFromDay_range (Day t)) as Hmo.
  pose proof (DateFromDay_range (Day t)) as Hd.
  pose proof (HourFromTime_range t) as Hh.
  pose proof (MinFromTime_range t) as Hmi.
  pose proof (SecFromTime_range t) as Hs.
  pose proof (msFromTime_range t) as Hms.
  unfold is_iso8601, toISOString, yearString.
  set (y := YearFromDay (Day t)). set (mo := MonthFromDay (Day t)) in *.
  set (d := DateFromDay (Day t)) in *. set (h := HourFromTime t) in *.
  set (mi := MinFromTime t) in *. set (s := SecFromTime t) in *.
  set (ms := msFromTime t) in *.
  destruct ((0 <=? y) && (y <=? 9999)).
  - cbn -[digit Z.div in_range is_digit].
    rewrite !is_digit_digit. cbn -[digit Z.div in_range].
    rewrite !in_range_pad2, in_range_pad3 by lia. reflexivity.
  - destruct (0 <=? y);
      cbn -[digit Z.div in_range is_digit];
      rewrite !is_digit_digit; cbn -[digit Z.div in_range];
      rewrite !in_range_pad2, in_range_pad3 by lia; reflexivity.
Qed.


(** The year of a time value has at most six digits. *)
Lemma YearFromDay_range t :
  valid t -> -999999 <= YearFromDay (Day t) <= 999999.
Proof.
  unfold valid, maxTime, YearFromDay, Day, msPerDay, era. intros Hv.
  assert (Hy : 0 <= yearOfEra (t / 86400000) <= 399).
  { unfold yearOfEra. pose proof (dayOfEra_range (t / 86400000)) as Hdoe.
    set (doe := dayOfEra (t / 86400000)) in *. cbv zeta.
    Z.div_mod_to_equations. lia. }
  destruct (MonthFromDay (t / 86400000) <=? 2); Z.div_mod_to_equations; lia.
Qed.
Lemma number_pad2 n :
  0 <= n < 100 -> number [digit (n / 10); digit n] 0 = Some n.
Proof.
  intros Hn. unfold number. rewrite !is_digit_digit, !digit_value_digit.
  f_equal. Z.div_mod_to_equations; lia.
Qed.

Lemma number_pad3 n :
  0 <= n < 1000 ->
  number [digit (n / 10 / 10); digit (n / 10); digit n] 0 = Some n.
Proof.
  intros Hn. unfold number. rewrite !is_digit_digit, !digit_value_digit.
  f_equal. Z.div_mod_to_equations; lia.
Qed.

Lemma number_pad4 n :
  0 <= n < 10000 ->
  number [digit (n / 10 / 10 / 10); digit (n / 10 / 10); digit (n / 10);
          digit n] 0 = Some n.
Proof.
  intros Hn. unfold number. rewrite !is_digit_digit, !digit_value_digit.
  f_equal. Z.div_mod_to_equations; lia.
Qed.

Lemma number_pad6 n :
  0 <= n < 1000000 ->
  number [digit (n / 10 / 10 / 10 / 10 / 10); digit (n / 10 / 10 / 10 / 10);
          digit (n / 10 / 10 / 10); digit (n / 10 / 10); digit (n / 10);
          digit n] 0 = Some n.
Proof.
  intros Hn. unfold number. rewrite !is_digit_digit, !digit_value_digit.
  f_equal. Z.div_mod_to_equations; lia.
Qed.

Lemma yearOfEra_range day : 0 <= yearOfEra day <= 399.
Proof.
  unfold yearOfEra. pose proof (dayOfEra_range day) as Hdoe.
  set (doe := dayOfEra day) in *. cbv zeta. Z.div_mod_to_equations. lia.
Qed.

(** The date of a day number is the date of that day. *)
Lemma MakeDay_FromDay day :
  MakeDay (YearFromDay day) (MonthFromDay day) (DateFromDay day) = day.
Proof.
  pose proof (yearOfEra_range day) as Hy.
  pose proof (monthIndex_range day) as Hm.
  unfold MakeDay, YearFromDay, DateFromDay, MonthFromDay.
  set (mp := monthIndex day) in *.
  assert (Hera : day = era day * 146097 + dayOfEra day - 719468).
  { unfold era, dayOfEra. Z.div_mod_to_equations. lia. }
  assert (Hdoy : dayOfEra day
                 = yearOfEra day * 365 + yearOfEra day / 4
                   - yearOfEra day / 100 + dayOfYear day).
  { unfold dayOfYear. cbv zeta. lia. }
  set (yoe := yearOfEra day) in *. set (e := era day) in *.
  set (doy := dayOfYear day) in *. set (doe := dayOfEra day) in *.
  cbv zeta.
  destruct (Z.ltb_spec mp 10) as [Hlt|Hge].
  - destruct (Z.leb_spec (mp + 3) 2) as [H1|H1]; [lia|].
    destruct (Z.ltb_spec 2 (mp + 3)) as [H2|H2]; [|lia].
    replace (mp + 3 - 3) with mp by lia.
    replace ((yoe + e * 400 + 0) / 400) with e
      by (Z.div_mod_to_equations; lia).
    replace (yoe + e * 400 + 0 - e * 400) with yoe by lia.
    lia.
  - destruct (Z.leb_spec (mp - 9) 2) as [H1|H1]; [|lia].
    destruct (Z.ltb_spec 2 (mp - 9)) as [H2|H2]; [lia|].
    replace (mp - 9 + 9) with mp by lia.
    replace ((yoe + e * 400 + 1 - 1) / 400) with e
      by (Z.div_mod_to_equations; lia).
    replace (yoe + e * 400 + 1 - 1 - e * 400) with yoe by lia.
    lia.
Qed.

Lemma MakeTime_FromTime t :
  MakeTime (HourFromTime t) (MinFromTime t) (SecFromTime t) (msFromTime t)
  = TimeWithinDay t.
Proof.
  pose proof (TimeWithinDay_range t) as H. unfold msPerDay in H.
  unfold MakeTime, HourFromTime, MinFromTime, SecFromTime, msFromTime.
  set (w := TimeWithinDay t) in *. Z.div_mod_to_equations. lia.
Qed.

Lemma MakeDate_Day t : MakeDate (Day t) (TimeWithinDay t) = t.
Proof.
  unfold MakeDate, Day, TimeWithinDay, msPerDay. Z.div_mod_to_equations. lia.
Qed.

(** [toISOString] loses nothing of a time value: reading the string gives
    the time value back. *)
Lemma fromISOString_toISOString t :
  valid t -> fromISOString (toISOString t) = Some t.
Proof.
  intros Hv. unfold fromISOString. rewrite toISOString_iso8601.
  pose proof (YearFromDay_range t Hv) as Hy.
  pose proof (MonthFromDay_range (Day t)) as Hmo.
  pose proof (DateFromDay_range (Day t)) as Hd.
  pose proof (HourFromTime_range t) as Hh.
  pose proof (MinFromTime_range t) as Hmi.
  pose proof (SecFromTime_range t) as Hs.
  pose proof (msFromTime_range t) as Hms.
  rewrite <- (MakeDate_Day t) at 2.
  rewrite <- (MakeTime_FromTime t), <- (MakeDay_FromDay (Day t)).
  unfold toISOString, yearString.
  set (y := YearFromDay (Day t)) in *. set (mo := MonthFromDay (Day t)) in *.
  set (d := DateFromDay (Day t)) in *. set (h := HourFromTime t) in *.
  set (mi := MinFromTime t) in *. set (s := SecFromTime t) in *.
  set (ms := msFromTime t) in *.
  destruct (Z.leb_spec 0 y) as [H0|H0].
  - destruct (Z.leb_spec y 9999) as [H1|H1].
    + cbn -[digit Z.div number is_digit MakeDate MakeDay MakeTime].
      rewrite is_digit_digit.
      cbn -[digit Z.div number MakeDate MakeDay MakeTime].
      rewrite number_pad4, !number_pad2, number_pad3 by lia. reflexivity.
    + cbn -[digit Z.div number is_digit MakeDate MakeDay MakeTime Z.abs].
      rewrite number_pad6, !number_pad2, number_pad3 by lia.
      cbn. rewrite Z.abs_eq by lia. reflexivity.
  - cbn -[digit Z.div number is_digit MakeDate MakeDay MakeTime Z.abs].
    rewrite number_pad6, !number_pad2, number_pad3 by lia.
    cbn -[MakeDate MakeDay MakeTime Z.abs].
    replace (- Z.abs y) with y by lia. reflexivity.
Qed.

(** Two time values are printed alike only if they are the same. *)
Lemma toISOString_inj t1 t2 :
  valid t1 -> valid t2 -> toISOString t1 = toISOString t2 -> t1 = t2.
Proof.
  intros H1 H2 E. apply (f_equal fromISOString) in E.
  rewrite !fromISOString_toISOString in E by assumption. now injection E.
Qed.
End DateFacts.

(** ** Lists and objects *)

Lemma filter_singleton_split {A : Type} (f : A -> bool) (l1 l2 : list A) x y :
  filter f (l1 ++ x :: l2) = [y] -> f x = true ->
  x = y /\ filter f (l1 ++ l2) = [].
Proof.
  rewrite !filter_app. cbn [filter]. intros H Hx. rewrite Hx in H.
  destruct (filter f l1) as [|a l1'] eqn:E1.
  - cbn in H. injection H as -> H2. now rewrite H2.
  - cbn in H. injection H as _ H. destruct l1'; discriminate H.
Qed.

Lemma filter_drop {A : Type} (f : A -> bool) (l1 l2 : list A) x :
  f x = false -> filter f (l1 ++ x :: l2) = filter f (l1 ++ l2).
Proof. intros Hx. rewrite !filter_app. cbn [filter]. now rewrite Hx. Qed.

Lemma obj_get_set k v o : obj_get k (obj_set k v o) = Some v.
Proof.
  induction o as [|[k' v'] o IH]; cbn [obj_set obj_get].
  - now rewrite String.eqb_refl.
  - destruct (String.eqb k' k) eqn:E; cbn [obj_get].
    + now rewrite String.eqb_refl.
    + now rewrite E.
Qed.

Lemma obj_get_set_other k k' v o :
  k' <> k -> obj_get k' (obj_set k v o) = obj_get k' o.
Proof.
  intros Hk. induction o as [|[k0 v0] o IH]; cbn [obj_set obj_get].
  - destruct (String.eqb_spec k k'); [congruence | reflexivity].
  - destruct (String.eqb_spec k0 k) as [-> | Hk0]; cbn [obj_get].
    + destruct (String.eqb_spec k k'); [congruence | reflexivity].
    + now rewrite IH.
Qed.

(** ** Computed steps are steps *)

Lemma tick_step sys dt :
  0 <= dt -> Date.valid (clock sys + dt) -> step sys (Tick dt) (tick dt sys).
Proof. intros. now apply step_tick. Qed.

Lemma press_step sys : step sys Press (press sys).
Proof.
  unfold press. destruct (saveData (clock sys) (app sys)) as [st es] eqn:E.
  now apply step_press.
Qed.

Lemma nth_error_firstn_skipn {A : Type} (l : list A) i x :
  nth_error l i = Some x -> l = firstn i l ++ x :: skipn (S i) l.
Proof.
  revert i. induction l as [|a l IH]; intros [|i] H; try discriminate H.
  - injection H as ->. reflexivity.
  - cbn [firstn skipn List.app]. f_equal. now apply IH.
Qed.

Lemma settle_step sys i tk s :
  nth_error (pool sys) i = Some tk ->
  awaited tk = call_of s ->
  answer_ok tk s (store sys) ->
  step sys (Settle tk s) (settle i s sys).
Proof.
  intros Hnth Htk Hans. unfold settle.
  destruct (resume s (app sys)) as [st es] eqn:E.
  apply step_settle; auto using nth_error_firstn_skipn.
Qed.

Lemma steps_one sys l sys' : step sys l sys' -> steps sys sys'.
Proof. intros H. eapply steps_next; [apply steps_refl | exact H]. Qed.

Lemma steps_trans sys1 sys2 sys3 :
  steps sys1 sys2 -> steps sys2 sys3 -> steps sys1 sys3.
Proof.
  intros H12 H23. induction H23 as [|sys2 l sys3 sys4 _ IH Hstep].
  - exact H12.
  - eapply steps_next; [exact (IH H12) | exact Hstep].
Qed.

(** ** The pipeline invariant *)

Lemma start_at_phase store0 t0 : at_phase AwaitPermission (start store0 t0).
Proof. split; reflexivity. Qed.

Ltac run_sync :=
  cbv [resume saveData saveData_resume requestPermissions_resume
       fetchNetworkInfo_ssid fetchNetworkInfo_connected fetchNetworkInfo_level
       fetchNetworkInfo_catch fetchNetworkInfo fetchLocation
       fetchLocation_resume fetchSavedData fetchSavedData_resume
       fetchAvailableNetworks_resume useEffect requestPermissions
       fetchAvailableNetworks seq emit update await] in *.

Lemma awaited_spawn n es : map awaited (spawn n es) = invoked es.
Proof.
  unfold spawn. rewrite map_map. cbn [awaited]. apply map_id.
Qed.

Lemma pool_after_settle sys before tk after cs n es :
  pool sys = before ++ tk :: after ->
  filter pipeline_call (map awaited (pool sys)) = cs ->
  (length cs <= 1)%nat ->
  (pipeline_call (awaited tk) = true ->
     cs = [awaited tk] /\
     filter pipeline_call (map awaited (before ++ after ++ spawn n es))
     = filter pipeline_call (invoked es)) /\
  (pipeline_call (awaited tk) = false ->
     filter pipeline_call (map awaited (before ++ after ++ spawn n es))
     = cs ++ filter pipeline_call (invoked es)).
Proof.
  intros Hp Hcs Hlen. rewrite Hp in Hcs.
  rewrite app_assoc, map_app, filter_app, awaited_spawn.
  rewrite map_app in Hcs. cbn [map] in Hcs. split; intros Htk.
  - destruct cs as [|c [|c' cs]]; cbn in Hlen; try lia.
    + rewrite filter_app in Hcs. cbn [filter] in Hcs. rewrite Htk in Hcs.
      destruct (filter pipeline_call (map awaited before)); discriminate Hcs.
    + destruct (filter_singleton_split _ _ _ _ _ Hcs Htk) as [-> Hrest].
      split; [reflexivity|].
      replace (map awaited (before ++ after))
        with (map awaited before ++ map awaited after)
        by (symmetry; apply map_app).
      now rewrite Hrest.
  - rewrite filter_drop in Hcs by exact Htk.
    rewrite map_app. now rewrite Hcs.
Qed.

Lemma awaiting_short ph : (length (awaiting ph) <= 1)%nat.
Proof. destruct ph; cbn; lia. Qed.

Lemma resume_other s st st' es :
  pipeline_call (call_of s) = false ->
  resume s st = (st', es) ->
  wifiDetails st' = wifiDetails st /\ signalStrength st' = signalStrength st /\
  location st' = location st /\
  filter pipeline_event es = [] /\ filter pipeline_call (invoked es) = [].
Proof.
  intros Hs Hres.
  destruct s as [r|r|r|r|r|r|d r|r]; try discriminate Hs;
    destruct r; run_sync; injection Hres as <- <-; repeat split.
Qed.

Lemma resume_pipeline ph s st st' es :
  phase_ok ph = true ->
  awaiting ph = [call_of s] ->
  wifiDetails st = wifi_of ph -> signalStrength st = level_of ph ->
  location st = position_of ph ->
  resume s st = (st', es) ->
  phase_ok (advance ph s) = true /\
  script ph ++ filter pipeline_event (Settled s :: es) = script (advance ph s) /\
  filter pipeline_call (invoked es) = awaiting (advance ph s) /\
  wifiDetails st' = wifi_of (advance ph s) /\
  signalStrength st' = level_of (advance ph s) /\
  location st' = position_of (advance ph s).
Proof.
  intros Hok Haw Hw Hl Hp Hres.
  destruct ph; destruct s as [q|q|q|q|q|q|d q|q]; try discriminate Haw;
    destruct q as [a|]; run_sync; cbn in Hres.
  all: try (destruct a as [|]).
  all: cbn [advance].
  all: try (unfold granted in *; cbn [phase_ok] in *; unfold granted in *;
            destruct (String.eqb (status a) "granted") eqn:Hg; cbn in Hres).
  all: injection Hres as <- <-.
  all: cbn.
  all: rewrite ?Hw, ?Hl, ?Hp, <- ?app_assoc.
  all: try (unfold granted; rewrite Hg).
  all: repeat split; (assumption || reflexivity).
Qed.

Lemma step_at_phase ph sys l sys' :
  at_phase ph sys -> step sys l sys' -> at_phase (advance_label ph l) sys'.
Proof.
  intros [Hok Hscript Hpool Hwifi Hlevel Hpos] Hstep.
  destruct Hstep as [sys dt Hdt Hvalid | sys st es Hsave
                    | sys before tk after s st es Hsplit Htk Hans Hres].
  - split; assumption.
  - assert (Hes : st = app sys /\ filter pipeline_event es = []
                  /\ filter pipeline_call (invoked es) = []).
    { run_sync. destruct (saveData_guard (app sys)).
      - injection Hsave as <- <-. repeat split.
      - destruct (location (app sys)); injection Hsave as <- <-; repeat split. }
    destruct Hes as (-> & Hes1 & Hes2).
    split; cbn [app pool trace advance_label]; try assumption.
    + now rewrite filter_app, Hes1, app_nil_r.
    + now rewrite map_app, filter_app, awaited_spawn, Hes2, app_nil_r.
  - destruct (pool_after_settle sys before tk after (awaiting ph)
                (length (store_after s (store sys))) es
                Hsplit Hpool (awaiting_short ph)) as [Hin Hout].
    rewrite Htk in Hin, Hout. cbn [advance_label].
    destruct (pipeline_call (call_of s)) eqn:Hpipe.
    + destruct (Hin eq_refl) as [Haw Hnew].
      destruct (resume_pipeline ph s _ _ _ Hok Haw Hwifi Hlevel Hpos Hres)
        as (Hok' & Hscript' & Hpool' & Hwifi' & Hlevel' & Hpos').
      split; cbn [app pool trace]; try assumption.
      * now rewrite filter_app, Hscript.
      * now rewrite Hnew.
    + destruct (resume_other s _ _ _ Hpipe Hres)
        as (Hwifi' & Hlevel' & Hpos' & Hes1 & Hes2).
      assert (Hadv : advance ph s = ph).
      { destruct ph, s; try reflexivity; discriminate Hpipe. }
      rewrite Hadv.
      split; cbn [app pool trace]; try congruence.
      * rewrite filter_app. cbn [filter pipeline_event]. rewrite Hpipe, Hes1.
        now rewrite app_nil_r.
      * rewrite (Hout eq_refl), Hes2. now rewrite app_nil_r.
Qed.

Lemma steps_at_phase ph sys sys' :
  at_phase ph sys -> steps sys sys' -> exists ph', at_phase ph' sys'.
Proof.
  intros Hph Hsteps. induction Hsteps as [sys | sys l sys1 sys2 _ IH Hstep].
  - now exists ph.
  - destruct (IH Hph) as [ph1 Hph1].
    exists (advance_label ph1 l). eapply step_at_phase; eassumption.
Qed.

(** Every system of a run has its pipeline at some phase. *)
Lemma reachable_at_phase sys : reachable sys -> exists ph, at_phase ph sys.
Proof.
  intros (store0 & t0 & _ & Hsteps).
  eapply steps_at_phase; [apply start_at_phase | eassumption].
Qed.

(** ** [saveData]: the guard *)

Lemma saveData_guard_false st :
  saveData_guard st = false <-> all_truthy st.
Proof.
  unfold saveData_guard, all_truthy, networkId. split.
  - intros H. apply orb_false_elim in H as [H H3].
    apply orb_false_elim in H as [H1 H2].
    apply negb_false_iff in H1, H2, H3. repeat split.
    + destruct (obj_get "ssid" (wifiDetails st)) as [v|]; [|discriminate H1].
      now exists v.
    + destruct (signalStrength st) as [z|]; [|discriminate H2].
      exists z. split; [reflexivity|]. cbn in H2.
      apply negb_true_iff, Z.eqb_neq in H2. exact H2.
    + destruct (location st) as [loc|]; [|discriminate H3]. now exists loc.
  - intros ((v & -> & Hv) & (z & -> & Hz) & (loc & ->)). cbn.
    rewrite Hv. apply Z.eqb_neq in Hz. now rewrite Hz.
Qed.

Lemma saveData_cases now st :
  (saveData_guard st = true /\ saveData now st = (st, IncompleteObservation)) \/
  (saveData_guard st = false /\
   exists loc, location st = Some loc /\
     saveData now st = (st, [Invoke (addDoc (saveData_data st loc now))])).
Proof.
  unfold saveData. destruct (saveData_guard st) eqn:Hg.
  - left. split; reflexivity.
  - right. split; [reflexivity|].
    destruct (proj1 (saveData_guard_false st) Hg) as (_ & _ & loc & Hloc).
    exists loc. now rewrite Hloc.
Qed.

(** C1, as amended: [saveData] calls [addDoc] exactly when the three
    fields are truthy (a network identifier that is not the empty string,
    a signal level that is not zero, a position that is not null);
    otherwise it reports the incomplete observation with its toast, calls
    nothing and leaves the state cells as they are. *)
Theorem saveData_writes_iff_truthy (now : Z) (st : AppState) :
  (writes (snd (saveData now st)) <-> all_truthy st) /\
  (~ all_truthy st <-> saveData now st = (st, IncompleteObservation)) /\
  fst (saveData now st) = st.
Proof.
  rewrite <- saveData_guard_false.
  destruct (saveData_cases now st) as [[Hg ->] | [Hg (loc & Hloc & ->)]];
    rewrite Hg; cbn [fst snd]; repeat split; try easy.
  - intros (d & [Hd | []]). discriminate Hd.
  - intros _. eexists. left. reflexivity.
Qed.

Lemma saveData_writes_iff_truthy_witness :
  writes (snd (saveData 5000 session_complete)) /\
  saveData 5000 session_level_zero = (session_level_zero, IncompleteObservation).
Proof.
  split.
  - apply (saveData_writes_iff_truthy 5000 session_complete).
    split; [|split].
    + exists (VStr "NET1"). split; reflexivity.
    + exists (-54). split; [reflexivity | discriminate].
    + exists position_37_122. reflexivity.
  - apply (saveData_writes_iff_truthy 5000 session_level_zero).
    intros (_ & (z & Hz & Hnz) & _). injection Hz as <-. now apply Hnz.
Defined.

(** At the level of the event loop: a press on a session that is not
    submittable adds the toast to the trace and changes nothing else, no
    state cell, no outstanding call, no document. *)
Lemma press_incomplete_changes_nothing sys sys' :
  step sys Press sys' -> ~ all_truthy (app sys) ->
  app sys' = app sys /\ pool sys' = pool sys /\ store sys' = store sys /\
  trace sys' = trace sys ++ IncompleteObservation.
Proof.
  intros Hstep Hnot.
  inversion Hstep as [ | sys0 st es Hsave | ]; subst. cbn [app pool store trace].
  destruct (saveData_cases (clock sys) (app sys))
    as [[Hg E] | [Hg _]].
  - rewrite E in Hsave. injection Hsave as <- <-.
    cbn [spawn invoked flat_map map IncompleteObservation].
    now rewrite app_nil_r.
  - now apply saveData_guard_false in Hg.
Qed.

(** C1, as the specification words it (presence, not truthiness), fails:
    with a signal level of zero the three fields are present and nothing
    is written. *)
Lemma saveData_present_not_written :
  ~ (writes (snd (saveData 0 session_level_zero))
     <-> all_present session_level_zero).
Proof.
  intros [_ H].
  assert (Hp : all_present session_level_zero) by (repeat split; discriminate).
  destruct (H Hp) as (d & [Hd | []]). discriminate Hd.
Qed.

(** C9: with an empty network identifier or a signal level of zero,
    [saveData] reports the incomplete observation and writes nothing, the
    fields being present all the same. *)
Theorem saveData_rejects_falsy (now : Z) (st : AppState) :
  networkId st = Some (VStr "") \/ signalStrength st = Some 0 ->
  saveData now st = (st, IncompleteObservation) /\
  ~ writes (snd (saveData now st)).
Proof.
  intros H.
  assert (Hg : saveData_guard st = true).
  { unfold saveData_guard, networkId in *. destruct H as [-> | ->]; cbn.
    - reflexivity.
    - now rewrite orb_true_r. }
  unfold saveData. rewrite Hg. split; [reflexivity|].
  intros (d & [Hd | []]). discriminate Hd.
Qed.

Lemma saveData_rejects_falsy_witness :
  (all_present session_no_name /\
   saveData 0 session_no_name = (session_no_name, IncompleteObservation)) /\
  (all_present session_level_zero /\
   saveData 0 session_level_zero = (session_level_zero, IncompleteObservation)).
Proof.
  split; (split; [repeat split; discriminate|]).
  - apply (saveData_rejects_falsy 0 session_no_name). left. reflexivity.
  - apply (saveData_rejects_falsy 0 session_level_zero). right. reflexivity.
Defined.

(** ** What the phase says about the trace *)

Lemma step_trace_grows sys l sys' e :
  step sys l sys' -> In e (trace sys) -> In e (trace sys').
Proof.
  intros Hstep Hin. destruct Hstep; cbn [trace]; try apply in_or_app; tauto.
Qed.

Lemma trace_grows sys sys' :
  steps sys sys' -> forall e, In e (trace sys) -> In e (trace sys').
Proof.
  induction 1 as [|sys l sys1 sys2 _ IH Hstep]; intros e Hin.
  - exact Hin.
  - eapply step_trace_grows; eauto.
Qed.

Lemma filter_split {A : Type} (f : A -> bool) (l pre post : list A) x :
  l = pre ++ x :: post -> f x = true ->
  filter f l = filter f pre ++ x :: filter f post.
Proof. intros -> Hx. rewrite filter_app. cbn [filter]. now rewrite Hx. Qed.

Lemma in_trace_script ph sys e :
  at_phase ph sys -> pipeline_event e = true ->
  (In e (trace sys) <-> In e (script ph)).
Proof.
  intros Hph He. rewrite <- (ph_script _ _ Hph), filter_In. tauto.
Qed.

Lemma trace_to_script ph sys e :
  at_phase ph sys -> In e (trace sys) -> pipeline_event e = true ->
  In e (script ph).
Proof. intros Hph Hin He. now apply (in_trace_script ph sys e Hph He). Qed.

Lemma script_to_trace ph sys e :
  at_phase ph sys -> pipeline_event e = true -> In e (script ph) ->
  In e (trace sys).
Proof. intros Hph He Hin. now apply (in_trace_script ph sys e Hph He). Qed.

Ltac in_script :=
  cbv [script script_network script_level script_connection script_ssid
       network_error location_error] in *;
  cbn [List.app In] in *.

Lemma grant_first_split es :
  grant_first es = true ->
  forall pre c post, es = pre ++ Invoke c :: post -> gated_query c = true ->
  permission_granted_in pre.
Proof.
  induction es as [|e es IH]; intros Hgf pre c post Heq Hc.
  - destruct pre; discriminate Heq.
  - destruct pre as [|e' pre]; cbn in Heq; injection Heq as He Heq; subst e.
    + cbn in Hgf. now rewrite Hc in Hgf.
    + cbn [grant_first] in Hgf. rename e' into e. destruct (is_grant e) eqn:Hg.
      * exists e. split; [now left | exact Hg].
      * assert (Hgf' : grant_first es = true).
        { destruct e; try exact Hgf. now apply andb_prop in Hgf. }
        destruct (IH Hgf' pre c post Heq Hc) as (e0 & Hin & He0).
        exists e0. split; [now right | exact He0].
Qed.

Lemma grant_first_script ph : phase_ok ph = true -> grant_first (script ph) = true.
Proof.
  destruct ph as [ | [p|] | p | p ssid | p ssid | p n | p n r];
    cbn [phase_ok]; intros Hok;
    try destruct n; in_script; cbn; rewrite ?Hok; try reflexivity.
  apply negb_true_iff in Hok. now rewrite Hok.
Qed.

(** ** C2: the permission gate *)

(** C2, as amended: in every run the network identifier query, the
    connection status query, the signal level query and the position query
    are made only after the permission request of that run has resolved to
    granted, and when it has settled otherwise (denied, or rejected) none
    of them is ever made.  The listing of the nearby networks is not
    behind the gate: the mount effect calls it. *)
Theorem gated_queries_follow_grant (sys : System) :
  reachable sys ->
  (forall pre c post,
      trace sys = pre ++ Invoke c :: post -> gated_query c = true ->
      permission_granted_in pre) /\
  (forall r,
      In (Settled (PermissionSettled r)) (trace sys) ->
      is_grant (Settled (PermissionSettled r)) = false ->
      forall c, gated_query c = true -> ~ In (Invoke c) (trace sys)) /\
  In (Invoke loadWifiList) (trace sys).
Proof.
  intros Hreach. destruct (reachable_at_phase sys Hreach) as [ph Hph].
  split; [|split].
  - intros pre c post Heq Hc.
    assert (Hpipe : pipeline_event (Invoke c) = true) by (now destruct c).
    pose proof (filter_split pipeline_event _ _ _ _ Heq Hpipe) as Hf.
    rewrite (ph_script _ _ Hph) in Hf.
    destruct (grant_first_split _ (grant_first_script ph (ph_ok _ _ Hph))
                _ _ _ Hf Hc) as (e & Hin & He).
    exists e. split; [|exact He]. apply filter_In in Hin. tauto.
  - intros r Hr Hng c Hc Hin.
    apply (in_trace_script ph sys (Settled (PermissionSettled r)) Hph eq_refl)
      in Hr.
    assert (Hpipe : pipeline_event (Invoke c) = true) by (now destruct c).
    apply (in_trace_script ph sys _ Hph Hpipe) in Hin.
    pose proof (ph_ok _ _ Hph) as Hok.
    destruct ph as [ | [p|] | p | p ssid | p ssid | p n | p n q];
      try destruct n; try destruct q; cbn [phase_ok] in Hok; in_script;
      repeat match goal with
             | H : _ \/ _ |- _ => destruct H
             | H : False |- _ => destruct H
             | H : Invoke _ = Invoke c |- _ => injection H as <-
             | H : Settled _ = Settled (PermissionSettled r) |- _ =>
                 injection H as <-
             end;
      cbn in Hng, Hc; unfold granted in *; try discriminate; congruence.
  - destruct Hreach as (store0 & t0 & _ & Hsteps).
    apply (trace_grows _ _ Hsteps). cbv. tauto.
Qed.

(** ** The three runs are runs *)

Lemma valid_0 : Date.valid 0.
Proof. unfold Date.valid, Date.maxTime. lia. Qed.

Ltac settles :=
  eapply settle_step; [reflexivity | reflexivity | cbn; auto].

Lemma reachable_start store0 t0 : Date.valid t0 -> reachable (start store0 t0).
Proof. intros H. exists store0, t0. split; [exact H | apply steps_refl]. Qed.

Lemma reachable_step sys l sys' : reachable sys -> step sys l sys' -> reachable sys'.
Proof.
  intros (store0 & t0 & Hv & Hs) Hstep. exists store0, t0.
  split; [exact Hv | eapply steps_next; eassumption].
Qed.

Lemma reachable_run_denied : reachable run_denied.
Proof.
  eapply reachable_step; [apply (reachable_start [] 0 valid_0) | settles].
Qed.

Lemma steps_run_collected : steps (start [] 0) run_collected.
Proof.
  repeat (eapply steps_next; [ | settles ]). apply steps_refl.
Qed.

Lemma steps_run_saved : steps run_collected run_saved.
Proof.
  eapply steps_next; [ | apply press_step ].
  eapply steps_one, tick_step; [lia|].
  unfold Date.valid, Date.maxTime. cbn. lia.
Qed.

Lemma reachable_run_saved : reachable run_saved.
Proof.
  exists [], 0. split; [apply valid_0|].
  exact (steps_trans _ _ _ steps_run_collected steps_run_saved).
Qed.

Lemma reachable_run_no_ssid : reachable run_no_ssid.
Proof.
  exists [], 0. split; [apply valid_0|].
  repeat (eapply steps_next; [ | settles ]). apply steps_refl.
Qed.

Lemma reachable_run_not_connected : reachable run_not_connected.
Proof.
  exists [], 0. split; [apply valid_0|].
  repeat (eapply steps_next; [ | settles ]). apply steps_refl.
Qed.

(** C2, as the specification words it, fails: the nearby networks are
    listed in a run whose permission request is denied. *)
Lemma listing_without_grant : ~ permission_ordering device_query.
Proof.
  intros H.
  destruct (H run_denied reachable_run_denied
              [Invoke requestForegroundPermissionsAsync; Invoke getDocs]
              loadWifiList
              [Settled (PermissionSettled (permission "denied"));
               ToastShow "Location permission is required to collect data."]
              eq_refl eq_refl) as (e & [<- | [<- | []]] & He);
    discriminate He.
Qed.

Lemma gated_queries_follow_grant_witness :
  (forall c, gated_query c = true -> ~ In (Invoke c) (trace run_denied)) /\
  In (Invoke loadWifiList) (trace run_denied).
Proof.
  destruct (gated_queries_follow_grant run_denied reachable_run_denied)
    as (_ & Hdenied & Hlist).
  split; [|exact Hlist].
  apply (Hdenied (permission "denied")).
  - cbv. tauto.
  - reflexivity.
Defined.

(** ** C10: a device that is not connected *)

Lemma script_not_connected ph :
  In (Settled (ConnectionSettled (Resolved false))) (script ph) ->
  exists p ssid,
    ph = AwaitPosition p (NotConnected ssid) \/
    exists r, ph = Finished p (NotConnected ssid) r.
Proof.
  destruct ph as [ | [p|] | p | p ssid | p ssid | p n | p n r];
    try destruct n; try destruct r; in_script; intros H;
    repeat match goal with
           | H : _ \/ _ |- _ => destruct H
           | H : False |- _ => destruct H
           end;
    try discriminate; eauto 6.
Qed.

(** C10: in every run in which the connection status query has answered
    [false], the signal level is never queried and stays absent, no
    network error is reported, and the network identifier of that run is
    set. *)
Theorem not_connected_skips_level (sys : System) :
  reachable sys ->
  In (Settled (ConnectionSettled (Resolved false))) (trace sys) ->
  ~ In (Invoke getCurrentSignalStrength) (trace sys) /\
  signalStrength (app sys) = None /\
  (forall e, In e network_error -> ~ In e (trace sys)) /\
  exists ssid,
    wifiDetails (app sys) = [("ssid", VStr ssid)] /\
    In (Settled (SsidSettled (Resolved ssid))) (trace sys).
Proof.
  intros Hreach Hfalse. destruct (reachable_at_phase sys Hreach) as [ph Hph].
  apply (trace_to_script ph sys _ Hph) in Hfalse; [|reflexivity].
  destruct (script_not_connected ph Hfalse) as (p & ssid & Hcases).
  assert (Hsc : script ph = script (AwaitPosition p (NotConnected ssid))
                \/ exists r, script ph = script (Finished p (NotConnected ssid) r))
    by (destruct Hcases as [-> | [r ->]]; eauto).
  assert (Hw : wifi_of ph = [("ssid", VStr ssid)] /\ level_of ph = None)
    by (destruct Hcases as [-> | [r ->]]; split; reflexivity).
  clear Hcases. destruct Hw as [Hw Hl]. repeat split.
  - intros Hin.
    apply (trace_to_script ph sys _ Hph) in Hin; [|reflexivity].
    destruct Hsc as [Hsc | [[loc|] Hsc]]; rewrite Hsc in Hin; in_script;
      repeat destruct Hin as [Hin | Hin]; discriminate || assumption.
  - now rewrite (ph_level _ _ Hph).
  - intros e He Hin.
    assert (Hpipe : pipeline_event e = true)
      by (destruct He as [<- | [<- | []]]; reflexivity).
    apply (trace_to_script ph sys _ Hph) in Hin; [|exact Hpipe].
    destruct Hsc as [Hsc | [[loc|] Hsc]]; rewrite Hsc in Hin; in_script;
      destruct He as [<- | [<- | []]];
      repeat destruct Hin as [Hin | Hin]; discriminate || assumption.
  - exists ssid. split; [now rewrite (ph_wifi _ _ Hph)|].
    apply (script_to_trace ph sys _ Hph); [reflexivity|].
    destruct Hsc as [Hsc | [r Hsc]]; rewrite Hsc; in_script; tauto.
Qed.

Lemma not_connected_skips_level_witness :
  ~ In (Invoke getCurrentSignalStrength) (trace run_not_connected) /\
  signalStrength (app run_not_connected) = None /\
  (forall e, In e network_error -> ~ In e (trace run_not_connected)) /\
  exists ssid,
    wifiDetails (app run_not_connected) = [("ssid", VStr ssid)] /\
    In (Settled (SsidSettled (Resolved ssid))) (trace run_not_connected).
Proof.
  apply (not_connected_skips_level run_not_connected).
  - exact reachable_run_not_connected.
  - cbv. tauto.
Defined.

(** ** C7: every start is from an empty session *)

(** In the run of one instance, [start] begins from an empty session, and a
    field is in the session only when a stage of the run has set it: the
    identifier, the level or the position that a query resolved to. *)
Lemma fields_come_from_the_run (store0 : list value) (t0 : Z) (sys : System) :
  steps (start store0 t0) sys ->
  (wifiDetails (app (start store0 t0)) = [] /\
   signalStrength (app (start store0 t0)) = None /\
   location (app (start store0 t0)) = None /\
   forall s, ~ In (Settled s) (trace (start store0 t0))) /\
  (forall k v, obj_get k (wifiDetails (app sys)) = Some v ->
     k = "ssid" /\ exists ssid, v = VStr ssid /\
     In (Settled (SsidSettled (Resolved ssid))) (trace sys)) /\
  (forall lvl, signalStrength (app sys) = Some lvl ->
     In (Settled (SignalSettled (Resolved lvl))) (trace sys)) /\
  (forall loc, location (app sys) = Some loc ->
     In (Settled (PositionSettled (Resolved loc))) (trace sys)).
Proof.
  intros Hsteps.
  destruct (steps_at_phase _ _ _ (start_at_phase store0 t0) Hsteps) as [ph Hph].
  split; [|split; [|split]].
  - repeat split. intros s Hin. cbv in Hin.
    repeat destruct Hin as [Hin | Hin]; discriminate || assumption.
  - intros k v. rewrite (ph_wifi _ _ Hph). intros Hget.
    assert (Hssid : exists ssid, wifi_of ph = [("ssid", VStr ssid)] /\
              In (Settled (SsidSettled (Resolved ssid))) (script ph)).
    { destruct ph as [ | [p|] | p | p ssid | p ssid | p n | p n r];
        try destruct n; try discriminate Hget;
        eexists; (split; [reflexivity|]); try destruct r; in_script; tauto. }
    destruct Hssid as (ssid & Hw & Hin). rewrite Hw in Hget.
    cbn [obj_get] in Hget.
    destruct (String.eqb_spec "ssid" k) as [<- | Hk]; [|discriminate Hget].
    injection Hget as <-. split; [reflexivity|]. exists ssid.
    split; [reflexivity|].
    apply (script_to_trace ph sys _ Hph); [reflexivity | exact Hin].
  - intros lvl. rewrite (ph_level _ _ Hph). intros Hl.
    apply (script_to_trace ph sys _ Hph); [reflexivity|].
    destruct ph as [ | [p|] | p | p ssid | p ssid | p n | p n r];
      try destruct n; try discriminate Hl; injection Hl as <-;
      try destruct r; in_script; tauto.
  - intros loc. rewrite (ph_position _ _ Hph). intros Hl.
    apply (script_to_trace ph sys _ Hph); [reflexivity|].
    destruct ph as [ | [p|] | p | p ssid | p ssid | p n | p n [loc'|]];
      try discriminate Hl; injection Hl as <-;
      destruct n; in_script; tauto.
Qed.

(** The pipeline itself clears nothing: were [fetchNetworkInfo] run on a
    session that already holds a signal level, a device that is not
    connected would leave that level where it is.  The source never does
    so; the mount effect is the only caller of [requestPermissions]. *)
Lemma network_stage_keeps_level id lvl st :
  signalStrength (fst (network_stage (Resolved id) (Resolved false) lvl st))
  = signalStrength st.
Proof. reflexivity. Qed.

(** Computed steps of a life are steps. *)
Lemma render_step L : life_step L Render (render_app L).
Proof.
  unfold render_app. destruct (App_hooks (cells L)) as [st effect] eqn:E.
  destruct (run_effect effect st) as [st' es] eqn:E'.
  now apply life_render with st effect.
Qed.

Lemma remount_step L : life_step L Remount (remount L).
Proof. apply life_remount. Qed.

Lemma settle_of_step L i g tk s :
  nth_error (suspended L) i = Some (g, tk) ->
  awaited tk = call_of s ->
  answer_ok tk s (collection L) ->
  (g = mounted L -> cells L <> None) ->
  life_step L (SettleOf g tk s) (settle_of i s L).
Proof.
  intros Hnth Htk Hans Hlive. unfold settle_of. rewrite Hnth. cbv zeta.
  apply nth_error_firstn_skipn in Hnth.
  destruct (Nat.eqb_spec g (mounted L)) as [-> | Hg].
  - destruct (cells L) as [st|] eqn:Hc; [|now destruct (Hlive eq_refl)].
    destruct (resume s st) as [st' es] eqn:E.
    now apply life_settle with st.
  - replace (match cells L with Some _ => initialState | None => initialState end)
      with initialState by now destruct (cells L).
    destruct (resume s initialState) as [st' es] eqn:E.
    now apply life_settle_unmounted with (st := initialState) (st' := st').
Qed.

Lemma life_steps_trans L1 L2 L3 :
  life_steps L1 L2 -> life_steps L2 L3 -> life_steps L1 L3.
Proof.
  intros H12 H23. induction H23 as [|L2 l L3 L4 _ IH Hstep].
  - exact H12.
  - eapply life_steps_next; [exact (IH H12) | exact Hstep].
Qed.

Lemma in_of_instance {A : Type} (g g' : nat) (x : A) (l : list A) :
  In (g, x) (of_instance g' l) <-> g = g' /\ In x l.
Proof.
  unfold of_instance. rewrite in_map_iff. split.
  - intros (y & E & Hin). injection E as <- <-. now split.
  - intros [-> Hin]. now exists x.
Qed.

(** The run of one instance is a life: the event loop above is the life of
    a component that is mounted once. *)
Lemma run_is_a_life (store0 : list value) (t0 : Z) (sys : System) :
  steps (start store0 t0) sys -> life_steps (born store0 t0) (life_of sys).
Proof.
  intros Hsteps. remember (start store0 t0) as sys0 eqn:Hstart.
  induction Hsteps as [sys | sys l sys1 sys2 _ IH Hstep].
  - subst. eapply life_steps_next; [apply life_steps_refl|].
    exact (render_step (born store0 t0)).
  - specialize (IH Hstart).
    destruct Hstep as [sys1 dt Hdt Hvalid | sys1 st es Hsave
                      | sys1 before tk after s st es Hsplit Htk Hans Hres].
    + eapply life_steps_next; [exact IH|].
      exact (life_elapse (life_of sys1) dt Hdt Hvalid).
    + eapply life_steps_next; [exact IH|].
      pose proof (life_press (life_of sys1) (app sys1) st es eq_refl Hsave) as H.
      unfold life_of in *. cbn [mounted cells suspended collection time history
                                app pool store clock trace] in *.
      unfold of_instance in *. rewrite !map_app. exact H.
    + eapply life_steps_next; [exact IH|].
      assert (Hsus : suspended (life_of sys1)
                     = of_instance 0%nat before
                       ++ (mounted (life_of sys1), tk) :: of_instance 0%nat after).
      { cbn [life_of suspended mounted]. rewrite Hsplit. unfold of_instance.
        now rewrite map_app. }
      pose proof (life_settle (life_of sys1) _ tk _ s (app sys1) st es
                    Hsus Htk Hans eq_refl Hres) as H.
      unfold life_of in *. cbn [mounted cells suspended collection time history
                                app pool store clock trace] in *.
      unfold of_instance in *. rewrite !map_app. exact H.
Qed.

(** What the code after an [await] does to the session of its instance. *)
Lemma own_session_grows g st st' h h' :
  own_session g st h ->
  wifiDetails st' = wifiDetails st ->
  signalStrength st' = signalStrength st ->
  location st' = location st ->
  incl h h' ->
  own_session g st' h'.
Proof.
  intros (Hw & Hl & Hp) Ew El Ep Hincl. unfold own_session.
  rewrite Ew, El, Ep. split; [|split].
  - intros k v Hget. destruct (Hw k v Hget) as (Hk & ssid & Hv & Hin).
    split; [exact Hk|]. exists ssid. split; [exact Hv | now apply Hincl].
  - intros lvl H. now apply Hincl, Hl.
  - intros loc H. now apply Hincl, Hp.
Qed.

Lemma resume_own_session s st st' es g h :
  resume s st = (st', es) ->
  own_session g st h ->
  own_session g st' (h ++ of_instance g (Settled s :: es)).
Proof.
  intros Hres Hown.
  assert (Hincl : incl h (h ++ of_instance g (Settled s :: es)))
    by (intros x Hx; apply in_or_app; now left).
  assert (Hnow : In (g, Settled s) (h ++ of_instance g (Settled s :: es)))
    by (apply in_or_app; right; apply in_of_instance; split;
        [reflexivity | now left]).
  destruct s as [r|r|r|r|r|r|d r|r]; destruct r as [a|]; run_sync;
    try (destruct (negb (String.eqb (status a) "granted")));
    try (match type of a with bool => destruct a end);
    injection Hres as <- <-;
    try (apply (own_session_grows g st _ h); auto; reflexivity).
  - (* the position *)
    destruct Hown as (Hw & Hl & Hp). split; [|split].
    + intros k v Hget. destruct (Hw k v Hget) as (Hk & ssid & Hv & Hin).
      split; [exact Hk|]. exists ssid. split; [exact Hv | now apply Hincl].
    + intros lvl H. now apply Hincl, Hl.
    + intros loc H. cbn in H. injection H as <-. exact Hnow.
  - (* the identifier *)
    destruct Hown as (Hw & Hl & Hp). split; [|split].
    + intros k v Hget. cbn [wifiDetails setWifiDetails] in Hget.
      destruct (String.eqb_spec k "ssid") as [-> | Hk].
      * rewrite obj_get_set in Hget. injection Hget as <-.
        split; [reflexivity|]. exists a. split; [reflexivity | exact Hnow].
      * rewrite obj_get_set_other in Hget by exact Hk.
        now destruct (Hw k v Hget) as (Hk' & _).
    + intros lvl H. now apply Hincl, Hl.
    + intros loc H. now apply Hincl, Hp.
  - (* the level *)
    destruct Hown as (Hw & Hl & Hp). split; [|split].
    + intros k v Hget. destruct (Hw k v Hget) as (Hk & ssid & Hv & Hin).
      split; [exact Hk|]. exists ssid. split; [exact Hv | now apply Hincl].
    + intros lvl H. cbn in H. injection H as <-. exact Hnow.
    + intros loc H. now apply Hincl, Hp.
Qed.

Lemma App_hooks_first : App_hooks None = (initialState, Some useEffect).
Proof. reflexivity. Qed.

Lemma App_hooks_again st : App_hooks (Some st) = (st, None).
Proof. now destruct st. Qed.

Lemma life_step_inv L l L' : life_inv L -> life_step L l L' -> life_inv L'.
Proof.
  intros [Hh Hs Hf Hown] Hstep.
  destruct Hstep as [L dt Hdt Hvalid | L st effect st' es Hhooks Hrun
                    | L | L st st' es Hc Hsave
                    | L before tk after s st st' es Hsplit Htk Hans Hc Hres
                    | L before g tk after s st st' es Hsplit Hg Htk Hans Hres].
  - split; assumption.
  - destruct (cells L) as [st0|] eqn:Hc.
    + rewrite App_hooks_again in Hhooks. injection Hhooks as <- <-.
      cbn in Hrun. injection Hrun as <- <-.
      split; cbn [mounted cells suspended history of_instance map spawn invoked
                  flat_map]; rewrite ?app_nil_r; auto; discriminate.
    + rewrite App_hooks_first in Hhooks. injection Hhooks as <- <-.
      cbn in Hrun. injection Hrun as <- <-.
      split; cbn [mounted cells suspended history].
      * intros g e Hin. apply in_app_or in Hin as [Hin | Hin]; [now apply Hh in Hin|].
        apply in_of_instance in Hin as [-> _]. lia.
      * intros g tk Hin. apply in_app_or in Hin as [Hin | Hin]; [now apply Hs in Hin|].
        apply in_of_instance in Hin as [-> _]. lia.
      * discriminate.
      * intros st E. injection E as <-. repeat split; intros; discriminate.
  - split; cbn [mounted cells suspended history].
    + intros g e Hin. apply Hh in Hin. lia.
    + intros g tk Hin. apply Hs in Hin. lia.
    + intros _ e Hin. apply Hh in Hin. lia.
    + discriminate.
  - assert (Hst : st' = st).
    { destruct (saveData_cases (time L) st) as [[_ E] | [_ (loc & _ & E)]];
        rewrite E in Hsave; now injection Hsave as <- <-. }
    subst st'. split; cbn [mounted cells suspended history].
    + intros g e Hin. apply in_app_or in Hin as [Hin | Hin]; [now apply Hh in Hin|].
      apply in_of_instance in Hin as [-> _]. lia.
    + intros g tk Hin. apply in_app_or in Hin as [Hin | Hin]; [now apply Hs in Hin|].
      apply in_of_instance in Hin as [-> _]. lia.
    + discriminate.
    + intros st0 E. injection E as <-.
      apply (own_session_grows (mounted L) st st (history L) _ (Hown st Hc)
               eq_refl eq_refl eq_refl).
      intros x Hx. apply in_or_app. now left.
  - split; cbn [mounted cells suspended history].
    + intros g e Hin. apply in_app_or in Hin as [Hin | Hin]; [now apply Hh in Hin|].
      apply in_of_instance in Hin as [-> _]. lia.
    + intros g tk' Hin. rewrite Hsplit in Hs.
      apply in_app_or in Hin as [Hin | Hin];
        [apply (Hs g tk'), in_or_app; now left|].
      apply in_app_or in Hin as [Hin | Hin];
        [apply (Hs g tk'), in_or_app; right; now right|].
      apply in_of_instance in Hin as [-> _]. lia.
    + discriminate.
    + intros st0 E. injection E as <-.
      exact (resume_own_session s st st' es _ _ Hres (Hown st Hc)).
  - assert (Hle : (g <= mounted L)%nat).
    { apply (Hs g tk). rewrite Hsplit. apply in_or_app. right. now left. }
    split; cbn [mounted cells suspended history].
    + intros g' e Hin. apply in_app_or in Hin as [Hin | Hin]; [now apply Hh in Hin|].
      apply in_of_instance in Hin as [-> _]. exact Hle.
    + intros g' tk' Hin. rewrite Hsplit in Hs.
      apply in_app_or in Hin as [Hin | Hin];
        [apply (Hs g' tk'), in_or_app; now left|].
      apply in_app_or in Hin as [Hin | Hin];
        [apply (Hs g' tk'), in_or_app; right; now right|].
      apply in_of_instance in Hin as [-> _]. exact Hle.
    + intros Hc e Hin. apply in_app_or in Hin as [Hin | Hin];
        [now apply (Hf Hc e)|].
      apply in_of_instance in Hin as [E _]. now apply Hg.
    + intros st0 Hc.
      apply (own_session_grows (mounted L) st0 st0 (history L) _ (Hown st0 Hc)
               eq_refl eq_refl eq_refl).
      intros x Hx. apply in_or_app. now left.
Qed.

Lemma born_inv store0 t0 : life_inv (born store0 t0).
Proof. split; cbn; intros; try discriminate; tauto. Qed.

Lemma life_steps_inv L L' : life_inv L -> life_steps L L' -> life_inv L'.
Proof.
  intros Hinv Hsteps. induction Hsteps as [|L l L1 L2 _ IH Hstep];
    [exact Hinv | exact (life_step_inv _ _ _ (IH Hinv) Hstep)].
Qed.

Lemma life_reachable_inv L : life_reachable L -> life_inv L.
Proof.
  intros (store0 & t0 & _ & Hsteps).
  exact (life_steps_inv _ _ (born_inv store0 t0) Hsteps).
Qed.

(** [requestPermissions] is called by the mount effect and by nothing
    else. *)
Lemma resume_does_not_start s st st' es :
  resume s st = (st', es) ->
  ~ In (Invoke requestForegroundPermissionsAsync) es.
Proof.
  intros Hres Hin.
  destruct s as [r|r|r|r|r|r|d r|r]; destruct r as [a|]; run_sync;
    try (destruct a as [|]);
    try (destruct (negb (String.eqb (status a) "granted")));
    injection Hres as <- <-; cbn in Hin;
    repeat (destruct Hin as [Hin | Hin]; [discriminate Hin|]); exact Hin.
Qed.

Lemma saveData_does_not_start now st st' es :
  saveData now st = (st', es) ->
  ~ In (Invoke requestForegroundPermissionsAsync) es.
Proof.
  intros Hsave Hin.
  destruct (saveData_cases now st) as [[_ E] | [_ (loc & _ & E)]];
    rewrite E in Hsave; injection Hsave as <- <-;
    destruct Hin as [Hin | []]; discriminate Hin.
Qed.

(** C7: [start], the call of [requestPermissions] by the mount effect,
    happens in the first render of an instance and in no other step of a
    life: not in a later render, because the effect has no dependencies.
    Whatever the instances before have collected, the session it begins
    from is empty, and no stage of the new instance has run.  From then
    on, as long as the instance is mounted, a field of the session that is
    set was set by a query of this instance: an answer that comes back
    late to an instance that is gone does not reach the session. *)
Theorem start_session_fresh (L L' : Life) (l : life_label) (g : nat)
    (es : list (nat * event)) :
  life_reachable L -> life_step L l L' ->
  history L' = history L ++ es ->
  In (g, Invoke requestForegroundPermissionsAsync) es ->
  (l = Render /\ cells L = None /\ g = mounted L') /\
  (exists st, cells L' = Some st /\ wifiDetails st = [] /\
              signalStrength st = None /\ location st = None) /\
  (forall s, ~ In (g, Settled s) (history L')) /\
  (forall L2 st, life_steps L' L2 -> mounted L2 = g -> cells L2 = Some st ->
     own_session g st (history L2)).
Proof.
  intros Hreach Hstep Hhist Hin.
  pose proof (life_reachable_inv L Hreach) as Hinv.
  pose proof (life_step_inv L l L' Hinv Hstep) as Hinv'.
  assert (Hstart : l = Render /\ cells L = None /\ g = mounted L' /\
                   cells L' = Some initialState /\
                   forall s, ~ In (g, Settled s) es).
  { destruct Hstep as [L dt Hdt Hvalid | L st effect st' es' Hhooks Hrun
                      | L | L st st' es' Hc Hsave
                      | L before tk after s st st' es' Hsplit Htk Hans Hc Hres
                      | L before g' tk after s st st' es' Hsplit Hg Htk Hans Hres];
      cbn [history] in Hhist.
    - rewrite <- (app_nil_r (history L)) in Hhist at 1.
      apply app_inv_head in Hhist. subst es. destruct Hin.
    - apply app_inv_head in Hhist. subst es.
      destruct (cells L) as [st0|] eqn:Hc.
      + rewrite App_hooks_again in Hhooks. injection Hhooks as <- <-.
        cbn in Hrun. injection Hrun as <- <-. destruct Hin.
      + rewrite App_hooks_first in Hhooks. injection Hhooks as <- <-.
        cbn in Hrun. injection Hrun as <- <-.
        apply in_of_instance in Hin as [-> _].
        repeat split. intros s Hs. apply in_of_instance in Hs as [_ Hs].
        cbn in Hs. repeat (destruct Hs as [Hs | Hs]; [discriminate Hs|]).
        exact Hs.
    - rewrite <- (app_nil_r (history L)) in Hhist at 1.
      apply app_inv_head in Hhist. subst es. destruct Hin.
    - apply app_inv_head in Hhist. subst es.
      apply in_of_instance in Hin as [_ Hin].
      now destruct (saveData_does_not_start _ _ _ _ Hsave).
    - apply app_inv_head in Hhist. subst es.
      apply in_of_instance in Hin as [_ [Hin | Hin]]; [discriminate Hin|].
      now destruct (resume_does_not_start _ _ _ _ Hres).
    - apply app_inv_head in Hhist. subst es.
      apply in_of_instance in Hin as [_ [Hin | Hin]]; [discriminate Hin|].
      now destruct (resume_does_not_start _ _ _ _ Hres). }
  destruct Hstart as (Hl & Hc & Hg & Hc' & Hnone).
  split; [auto|]. split; [exists initialState; now repeat split|]. split.
  - intros s Hs. rewrite Hhist in Hs. apply in_app_or in Hs as [Hs | Hs].
    + assert (Hm : mounted L' = mounted L) by (subst l; now inversion Hstep).
      rewrite Hg, Hm in Hs. exact (li_fresh L Hinv Hc _ Hs).
    + exact (Hnone s Hs).
  - intros L2 st Hsteps Hm Hc2. rewrite <- Hm.
    exact (li_session L2 (life_steps_inv _ _ Hinv' Hsteps) st Hc2).
Qed.

Lemma life_steps_first_run : life_steps (born [] 0) life_first_run.
Proof.
  unfold life_first_run.
  eapply life_steps_next;
    [ | eapply settle_of_step; [reflexivity | reflexivity | exact I | discriminate] ].
  eapply life_steps_next;
    [ | eapply settle_of_step; [reflexivity | reflexivity | exact I | discriminate] ].
  eapply life_steps_next; [apply life_steps_refl | apply render_step].
Qed.

Lemma life_steps_late_answers : life_steps life_restarted life_late_answers.
Proof.
  unfold life_late_answers.
  eapply life_steps_next;
    [ | eapply settle_of_step; [reflexivity | reflexivity | exact I | discriminate] ].
  eapply life_steps_next;
    [ | eapply settle_of_step; [reflexivity | reflexivity | exact I | discriminate] ].
  apply life_steps_refl.
Qed.

Lemma start_session_fresh_witness :
  cells life_first_run
  = Some {| wifiDetails := [("ssid", VStr "NET1")]; signalStrength := None;
            location := None; savedData := []; availableNetworks := [] |} /\
  cells life_restarted = Some initialState /\
  (forall s, ~ In (1%nat, Settled s) (history life_restarted)) /\
  In (0%nat, Settled (SignalSettled (Resolved (-54)))) (history life_late_answers) /\
  cells life_late_answers = Some initialState /\
  own_session 1 initialState (history life_late_answers).
Proof.
  assert (Hreach : life_reachable (remount life_first_run)).
  { exists [], 0. split; [apply valid_0|].
    eapply life_steps_next; [exact life_steps_first_run | apply remount_step]. }
  destruct (start_session_fresh (remount life_first_run) life_restarted Render
              1%nat
              (of_instance 1%nat [Invoke requestForegroundPermissionsAsync;
                                  Invoke getDocs; Invoke loadWifiList])
              Hreach (render_step _) eq_refl (or_introl eq_refl))
    as (_ & _ & Hnone & Hlater).
  split; [reflexivity|]. split; [reflexivity|]. split; [exact Hnone|].
  split; [cbv; tauto|]. split; [reflexivity|].
  exact (Hlater life_late_answers initialState life_steps_late_answers
           eq_refl eq_refl).
Defined.

(** ** C3: the two queries of the network stage *)

(** The stage run alone does what the pipeline does in any run: its events
    are those of the script, after the permission. *)
Lemma network_stage_script p ssid isConnected lvl st :
  script (AwaitPosition p (network_end_of ssid isConnected lvl))
  = [Invoke requestForegroundPermissionsAsync;
     Settled (PermissionSettled (Resolved p))]
    ++ snd (network_stage ssid isConnected lvl st).
Proof.
  destruct ssid as [id|]; [destruct isConnected as [[|]|]; [destruct lvl|..]|];
    reflexivity.
Qed.

(** C3, as amended: a failure of the signal level query (or of the
    connection status query) leaves the network identifier that the stage
    has just set; a failure of the identifier query ends the stage at once:
    the error is reported, neither the connection status nor the signal
    level is queried, and the state cells are left as they were.  The
    position is queried next in every case. *)
Theorem network_stage_isolation (ssid : outcome string)
    (isConnected : outcome bool) (lvl : outcome Z) (st : AppState) :
  (forall id, ssid = Resolved id ->
     networkId (fst (network_stage ssid isConnected lvl st)) = Some (VStr id)) /\
  (ssid = Rejected ->
     network_stage ssid isConnected lvl st
     = (st, Invoke getCurrentWifiSSID :: Settled (SsidSettled Rejected)
            :: network_error ++ [Invoke getCurrentPositionAsync])) /\
  In (Invoke getCurrentPositionAsync) (snd (network_stage ssid isConnected lvl st)).
Proof.
  split; [|split].
  - intros id ->. unfold networkId.
    destruct isConnected as [[|]|]; [destruct lvl|..]; cbn;
      apply obj_get_set.
  - intros ->. reflexivity.
  - destruct ssid as [id|]; [destruct isConnected as [[|]|]; [destruct lvl|..]|];
      cbn; tauto.
Qed.

Lemma network_stage_isolation_witness :
  networkId (fst (network_stage (Resolved "NET1") (Resolved true) Rejected
                    initialState)) = Some (VStr "NET1") /\
  signalStrength (fst (network_stage Rejected (Resolved true) (Resolved (-54))
                         initialState)) = None.
Proof.
  split.
  - now apply (network_stage_isolation (Resolved "NET1") (Resolved true)
                 Rejected initialState).
  - destruct (network_stage_isolation Rejected (Resolved true)
                (Resolved (-54)) initialState) as (_ & H & _).
    now rewrite (H eq_refl).
Defined.

(** The same in any run, whatever is interleaved: after a failure of the
    identifier query neither the connection status nor the signal level is
    ever queried, and the position is; after a failure of the signal level
    query the identifier of that run is in the session. *)
Lemma ssid_failure_ends_stage sys :
  reachable sys -> In (Settled (SsidSettled Rejected)) (trace sys) ->
  ~ In (Invoke connectionStatus) (trace sys) /\
  ~ In (Invoke getCurrentSignalStrength) (trace sys) /\
  wifiDetails (app sys) = [] /\ signalStrength (app sys) = None /\
  In (Invoke getCurrentPositionAsync) (trace sys).
Proof.
  intros Hreach Hin. destruct (reachable_at_phase sys Hreach) as [ph Hph].
  apply (trace_to_script ph sys _ Hph) in Hin; [|reflexivity].
  assert (Hph' : exists p, ph = AwaitPosition p SsidFailed \/
                           exists r, ph = Finished p SsidFailed r).
  { destruct ph as [ | [p|] | p | p ssid | p ssid | p n | p n r];
      try destruct n; try destruct r; in_script;
      repeat destruct Hin as [Hin | Hin]; try discriminate Hin;
      try contradiction; eauto. }
  rewrite (ph_wifi _ _ Hph), (ph_level _ _ Hph).
  destruct Hph' as (p & [-> | [r ->]]); repeat split;
    try (intros Hq; apply (trace_to_script _ sys _ Hph) in Hq; [|reflexivity];
         try destruct r; in_script;
         repeat destruct Hq as [Hq | Hq]; discriminate || assumption);
    apply (script_to_trace _ sys _ Hph); try reflexivity;
    try destruct r; in_script; tauto.
Qed.

Lemma level_failure_keeps_ssid sys :
  reachable sys -> In (Settled (SignalSettled Rejected)) (trace sys) ->
  exists ssid,
    wifiDetails (app sys) = [("ssid", VStr ssid)] /\
    In (Settled (SsidSettled (Resolved ssid))) (trace sys).
Proof.
  intros Hreach Hin. destruct (reachable_at_phase sys Hreach) as [ph Hph].
  apply (trace_to_script ph sys _ Hph) in Hin; [|reflexivity].
  assert (Hph' : exists p ssid, ph = AwaitPosition p (LevelFailed ssid) \/
                                exists r, ph = Finished p (LevelFailed ssid) r).
  { destruct ph as [ | [p|] | p | p ssid | p ssid | p n | p n r];
      try destruct n; try destruct r; in_script;
      repeat destruct Hin as [Hin | Hin]; try discriminate Hin;
      try contradiction; eauto 6. }
  rewrite (ph_wifi _ _ Hph).
  destruct Hph' as (p & ssid & [-> | [r ->]]); exists ssid;
    (split; [reflexivity|]);
    apply (script_to_trace _ sys _ Hph); try reflexivity;
    try destruct r; in_script; tauto.
Qed.

Example run_no_ssid_never_reads_level :
  signalStrength (app run_no_ssid) = None /\
  ~ In (Invoke getCurrentSignalStrength) (trace run_no_ssid).
Proof.
  destruct (ssid_failure_ends_stage run_no_ssid reachable_run_no_ssid)
    as (_ & Hlevel & _ & Hcell & _).
  - cbv. tauto.
  - split; assumption.
Qed.

(** C3, as the specification words it, fails: when the identifier query
    fails on a connected device whose signal level query would answer -54,
    the level is not retrieved. *)
Lemma ssid_failure_blocks_level :
  ~ retrieval_independent Rejected (Resolved true) (Resolved (-54)) initialState.
Proof.
  intros [_ H]. specialize (H (-54) eq_refl eq_refl). discriminate H.
Qed.

(** ** The invariant of a run *)

Lemma start_run_inv store0 t0 : Date.valid t0 -> run_inv (start store0 t0).
Proof.
  intros Hv. split.
  - exact Hv.
  - intros tk Hin. cbv [start useEffect requestPermissions fetchSavedData
                        fetchAvailableNetworks seq await emit] in *.
    cbn in Hin. destruct Hin as [<- | [<- | [<- | []]]]; cbn; split; auto.
  - intros d Hin. cbv in Hin.
    repeat destruct Hin as [Hin | Hin]; discriminate || contradiction.
Qed.

Lemma resume_no_write s st st' es d :
  resume s st = (st', es) -> ~ In (Invoke (addDoc d)) es.
Proof.
  intros Hres Hin.
  destruct s as [r|r|r|r|r|r|d' r|r]; destruct r as [a|]; run_sync;
    try (destruct a as [|]);
    try (destruct (negb (String.eqb (status a) "granted")));
    injection Hres as <- <-; cbn in Hin;
    repeat destruct Hin as [Hin | Hin]; discriminate || contradiction.
Qed.

Lemma in_spawn tk n es :
  In tk (spawn n es) -> In (Invoke (awaited tk)) es /\ issued tk = n.
Proof.
  unfold spawn, invoked. rewrite in_map_iff. intros (c & <- & Hc).
  apply in_flat_map in Hc as (e & He & Hc).
  destruct e; try contradiction. destruct Hc as [<- | []]. now split.
Qed.

(** Once the position is set the pipeline has finished, and the three
    cells of the session do not change any more. *)
Lemma session_final ph sys l sys' loc :
  at_phase ph sys -> location (app sys) = Some loc -> step sys l sys' ->
  wifiDetails (app sys') = wifiDetails (app sys) /\
  signalStrength (app sys') = signalStrength (app sys) /\
  location (app sys') = location (app sys).
Proof.
  intros Hph Hloc Hstep.
  pose proof (step_at_phase ph sys l sys' Hph Hstep) as Hph'.
  rewrite (ph_position _ _ Hph) in Hloc.
  assert (Hadv : advance_label ph l = ph).
  { destruct ph as [ | [p|] | p | p ssid | p ssid | p n | p n r];
      try discriminate Hloc. destruct l as [dt| |tk s]; reflexivity. }
  rewrite Hadv in Hph'.
  rewrite (ph_wifi _ _ Hph), (ph_level _ _ Hph), (ph_position _ _ Hph).
  rewrite (ph_wifi _ _ Hph'), (ph_level _ _ Hph'), (ph_position _ _ Hph').
  repeat split.
Qed.

Lemma saved_from_ext st st' d now :
  wifiDetails st' = wifiDetails st -> signalStrength st' = signalStrength st ->
  location st' = location st ->
  saved_from st d now -> saved_from st' d now.
Proof.
  intros Hw Hl Hp (loc & Hloc & (H1 & H2 & H3) & ->). exists loc.
  unfold all_truthy, networkId, saveData_data in *. rewrite Hw, Hl, Hp.
  split; [exact Hloc|]. split; [|reflexivity]. split; [|split]; assumption.
Qed.

Lemma step_run_inv ph sys l sys' :
  at_phase ph sys -> run_inv sys -> step sys l sys' -> run_inv sys'.
Proof.
  intros Hph [Hclock Hpool Hwritten] Hstep.
  assert (Hkeep : forall d now, saved_from (app sys) d now ->
                                saved_from (app sys') d now).
  { intros d now Hs. pose proof Hs as (loc & Hloc & _).
    destruct (session_final ph sys l sys' loc Hph Hloc Hstep) as (Hw & Hl & Hp).
    eapply saved_from_ext; eassumption. }
  destruct Hstep as [sys dt Hdt Hvalid | sys st es Hsave
                    | sys before tk after s st es Hsplit Htk Hans Hres];
    cbn [app] in Hkeep.
  - split; cbn [clock pool store trace app].
    + exact Hvalid.
    + exact Hpool.
    + intros d Hin. destruct (Hwritten d Hin) as (now & Hv & Hle & Hs).
      exists now. split; [exact Hv|]. split; [lia | auto].
  - split; cbn [clock pool store trace app].
    + exact Hclock.
    + intros tk Hin. apply in_app_or in Hin as [Hin | Hin].
      * destruct (Hpool tk Hin). split; [apply in_or_app|]; auto.
      * apply in_spawn in Hin as [Hin ->]. split; [apply in_or_app|]; auto.
    + intros d Hin. apply in_app_or in Hin as [Hin | Hin].
      * destruct (Hwritten d Hin) as (now & Hv & Hle & Hs).
        exists now. split; [exact Hv|]. split; [exact Hle | auto].
      * exists (clock sys). split; [exact Hclock|]. split; [lia|].
        destruct (saveData_cases (clock sys) (app sys))
          as [[Hg E] | [Hg (loc & Hloc & E)]];
          rewrite E in Hsave; injection Hsave as <- <-.
        -- destruct Hin as [Hin | []]. discriminate Hin.
        -- destruct Hin as [Hin | []]. injection Hin as <-.
           exists loc. split; [exact Hloc|]. split; [|reflexivity].
           now apply saveData_guard_false.
  - split; cbn [clock pool store trace app].
    + exact Hclock.
    + intros tk' Hin.
      assert (Hgrow : (length (store sys) <= length (store_after s (store sys)))%nat).
      { destruct s as [r|r|r|r|r|r|d r|r]; cbn; try lia.
        destruct r; [rewrite length_app; cbn|]; lia. }
      apply in_app_or in Hin as [Hin | Hin];
        [|apply in_app_or in Hin as [Hin | Hin]].
      * destruct (Hpool tk') as [H1 H2];
          [rewrite Hsplit; apply in_or_app; now left|].
        split; [apply in_or_app; now left | lia].
      * destruct (Hpool tk') as [H1 H2];
          [rewrite Hsplit; apply in_or_app; right; now right|].
        split; [apply in_or_app; now left | lia].
      * apply in_spawn in Hin as [Hin ->].
        split; [apply in_or_app; right; now right | lia].
    + intros d Hin. apply in_app_or in Hin as [Hin | [Hin | Hin]].
      * destruct (Hwritten d Hin) as (now & Hv & Hle & Hs).
        exists now. split; [exact Hv|]. split; [exact Hle | auto].
      * discriminate Hin.
      * contradiction (resume_no_write _ _ _ _ d Hres Hin).
Qed.

Lemma steps_run_inv ph sys sys' :
  at_phase ph sys -> run_inv sys -> steps sys sys' -> run_inv sys'.
Proof.
  intros Hph Hinv Hsteps.
  assert (H : run_inv sys' /\ exists ph', at_phase ph' sys').
  { induction Hsteps as [sys | sys l sys1 sys2 _ IH Hstep].
    - split; [exact Hinv | now exists ph].
    - destruct (IH Hph Hinv) as [Hinv1 [ph1 Hph1]]. split.
      + eapply step_run_inv; eassumption.
      + exists (advance_label ph1 l). eapply step_at_phase; eassumption. }
  exact (proj1 H).
Qed.

Lemma reachable_run_inv sys : reachable sys -> run_inv sys.
Proof.
  intros (store0 & t0 & Hv & Hsteps).
  eapply steps_run_inv;
    [apply start_at_phase | apply start_run_inv, Hv | exact Hsteps].
Qed.

(** ** C4: the record that is written *)

Lemma truthy_session ph sys :
  at_phase ph sys -> all_truthy (app sys) ->
  exists ssid lvl loc,
    ssid <> "" /\ lvl <> 0 /\
    wifiDetails (app sys) = [("ssid", VStr ssid)] /\
    signalStrength (app sys) = Some lvl /\
    location (app sys) = Some loc.
Proof.
  intros Hph ((v & Hv & Htr) & (lvl & Hlvl & Hnz) & (loc & Hloc)).
  unfold networkId in Hv. rewrite (ph_wifi _ _ Hph) in *.
  assert (Hw : exists ssid, wifi_of ph = [("ssid", VStr ssid)]).
  { destruct ph as [ | [p|] | p | p ssid | p ssid | p n | p n r];
      try destruct n; try discriminate Hv; eexists; reflexivity. }
  destruct Hw as (ssid & Hw). rewrite Hw in *. cbn in Hv. injection Hv as <-.
  exists ssid, lvl, loc. repeat split; auto.
  intros ->. discriminate Htr.
Qed.

(** C4, as amended: every record handed to [addDoc], hence every record a
    successful save stores, is
    [{ wifiDetails: { ssid }, signalStrength, location: { latitude,
    longitude }, timestamp }] with a non-empty string, a non-zero integer,
    two coordinates and an ISO 8601 date-time. *)
Theorem records_have_source_shape (sys : System) (d : value) :
  reachable sys -> In (Invoke (addDoc d)) (trace sys) -> record_shape d.
Proof.
  intros Hreach Hin.
  destruct (reachable_at_phase sys Hreach) as [ph Hph].
  destruct (inv_written sys (reachable_run_inv sys Hreach) d Hin)
    as (now & _ & _ & loc & Hloc & Htruthy & ->).
  destruct (truthy_session ph sys Hph Htruthy)
    as (ssid & lvl & loc' & Hssid & Hlvl & Hw & Hl & _).
  exists ssid, lvl, (latitude (coords loc)), (longitude (coords loc)),
    (Date.toISOString now).
  repeat split; auto using DateFacts.toISOString_iso8601.
  unfold saveData_data. now rewrite Hw, Hl.
Qed.

Lemma records_have_source_shape_witness : record_shape record_saved.
Proof.
  apply (records_have_source_shape run_saved record_saved).
  - exact reachable_run_saved.
  - cbv. tauto.
Defined.

(** C4, as the specification words it, fails: the record of scenario C has
    no field [networkId]. *)
Lemma record_not_contract_shape : ~ records_have contract_shape.
Proof.
  intros H.
  assert (Hin : In (Invoke (addDoc record_saved)) (trace run_saved))
    by (cbv; tauto).
  destruct (H run_saved reachable_run_saved record_saved Hin)
    as (id & lvl & pos & lat & lon & ts & _ & Hid & _).
  discriminate Hid.
Qed.

(** ** C5: the timestamp *)

Lemma reachable_run_fixed : reachable run_fixed.
Proof.
  exists [], 0. split; [apply valid_0|]. unfold run_fixed.
  eapply steps_next; [ | settles ].
  eapply steps_next;
    [ | apply tick_step; [lia | unfold Date.valid, Date.maxTime; cbn; lia] ].
  repeat (eapply steps_next; [ | settles ]). apply steps_refl.
Qed.

(** C5, as the specification words its last clause, fails: nothing has been
    saved in [run_fixed], and its session holds the time of the fix,
    because [setLocation(loc)] keeps the location object whole. *)
Lemma session_holds_fix_time :
  reachable run_fixed /\
  (forall d, ~ In (Invoke (addDoc d)) (trace run_fixed)) /\
  session_timestamp (app run_fixed) = Some (VInt 3000) /\
  ~ no_timestamp_before_save.
Proof.
  assert (Hno : forall d, ~ In (Invoke (addDoc d)) (trace run_fixed)).
  { intros d Hin. cbv in Hin.
    repeat (destruct Hin as [Hin | Hin]; [discriminate Hin|]). exact Hin. }
  split; [exact reachable_run_fixed|]. split; [exact Hno|].
  split; [reflexivity|].
  intros Hclaim. specialize (Hclaim run_fixed reachable_run_fixed Hno).
  discriminate Hclaim.
Qed.

(** C5, amended: the timestamp of the record that a press of the button
    hands to [addDoc] is the clock at that press, printed.  The string
    reads back as that time value and is the print of no other, so it is
    not the time of an earlier moment of the run at which the clock was
    different, such as the collection of a field.  Before the save the
    program has assigned no timestamp: [wifiDetails] has no such property,
    and of the location object, whatever it carries, only the two
    coordinates go into the record. *)
Theorem timestamp_is_save_time (sys sys' : System) (es : list event) (d : value) :
  reachable sys -> step sys Press sys' ->
  trace sys' = trace sys ++ es -> In (Invoke (addDoc d)) es ->
  field "timestamp" d = Some (VStr (Date.toISOString (clock sys))) /\
  (forall ts, field "timestamp" d = Some (VStr ts) ->
     Date.fromISOString ts = Some (clock sys)) /\
  (forall t, Date.valid t ->
     field "timestamp" d = Some (VStr (Date.toISOString t)) -> t = clock sys) /\
  (forall sys0, reachable sys0 -> steps sys0 sys -> clock sys0 <> clock sys ->
     field "timestamp" d <> Some (VStr (Date.toISOString (clock sys0)))) /\
  obj_get "timestamp" (wifiDetails (app sys)) = None /\
  exists loc,
    location (app sys) = Some loc /\
    field "location" d
    = Some (VMap [("latitude", VFloat (latitude (coords loc)));
                  ("longitude", VFloat (longitude (coords loc)))]).
Proof.
  intros Hreach Hstep Htrace Hin.
  destruct (reachable_at_phase sys Hreach) as [ph Hph].
  pose proof (inv_clock sys (reachable_run_inv sys Hreach)) as Hvalid.
  inversion Hstep as [ | sys0 st es0 Hsave | ]; subst.
  cbn [trace] in Htrace. apply app_inv_head in Htrace. subst es0.
  destruct (saveData_cases (clock sys) (app sys))
    as [[Hg E] | [Hg (loc & Hloc & E)]];
    rewrite E in Hsave; injection Hsave as <- <-;
    destruct Hin as [Hin | []]; [discriminate Hin|].
  injection Hin as <-.
  assert (Hinj : forall t, Date.valid t ->
            field "timestamp" (saveData_data (app sys) loc (clock sys))
            = Some (VStr (Date.toISOString t)) -> t = clock sys).
  { intros t Ht Hf. cbn in Hf. injection Hf as Hf.
    symmetry. now apply DateFacts.toISOString_inj. }
  split; [reflexivity|]. split; [|split; [exact Hinj|split; [|split]]].
  - intros ts Hts. cbn in Hts. injection Hts as <-.
    now apply DateFacts.fromISOString_toISOString.
  - intros sys0 Hreach0 _ Hclock Hf. apply Hclock.
    apply Hinj; [|exact Hf].
    exact (inv_clock sys0 (reachable_run_inv sys0 Hreach0)).
  - apply saveData_guard_false in Hg.
    destruct (truthy_session ph sys Hph Hg) as (ssid & _ & _ & _ & _ & Hw & _).
    now rewrite Hw.
  - exists loc. split; [exact Hloc | reflexivity].
Qed.

Lemma timestamp_is_save_time_witness :
  session_timestamp (app (tick 2000 run_fixed)) = Some (VInt 3000) /\
  field "timestamp" record_fixed = Some (VStr "1970-01-01T00:00:05.000Z") /\
  Date.fromISOString "1970-01-01T00:00:05.000Z" = Some 5000 /\
  field "timestamp" record_fixed
  <> Some (VStr (Date.toISOString (clock run_fixed))) /\
  keys (VMap (wifiDetails (app run_fixed))) = ["ssid"] /\
  field "location" record_fixed
  = Some (VMap [("latitude", VFloat (S754_finite false 37 0));
                ("longitude", VFloat (S754_finite true 122 0))]).
Proof.
  assert (Hv : Date.valid (clock run_fixed + 2000)).
  { unfold Date.valid, Date.maxTime. cbn. lia. }
  assert (Hstep : step run_fixed (Tick 2000) (tick 2000 run_fixed)).
  { apply tick_step; [lia | exact Hv]. }
  destruct (timestamp_is_save_time (tick 2000 run_fixed)
              (press (tick 2000 run_fixed))
              [Invoke (addDoc record_fixed)] record_fixed
              (reachable_step _ _ _ reachable_run_fixed Hstep)
              (press_step _) eq_refl (or_introl eq_refl))
    as (Hts & Hread & _ & Hearlier & _ & _).
  split; [reflexivity|]. split; [exact Hts|].
  split; [exact (Hread _ Hts)|]. split; [|split; reflexivity].
  apply (Hearlier run_fixed reachable_run_fixed (steps_one _ _ _ Hstep)).
  cbn. lia.
Defined.

(** ** C6: a write that fails *)

(** C6: when [addDoc] rejects, the state cells and the collection are what
    they were; the session is still the one the record was built from, so
    pressing the button again, at any time, hands [addDoc] a record of the
    same fields. *)
Theorem failed_write_keeps_session (sys : System) (tk : task) (d : value)
    (sys' : System) :
  reachable sys ->
  step sys (Settle tk (AddDocSettled d Rejected)) sys' ->
  app sys' = app sys /\ store sys' = store sys /\
  exists loc now,
    d = saveData_data (app sys') loc now /\
    forall now', saveData now' (app sys')
                 = (app sys', [Invoke (addDoc (saveData_data (app sys') loc now'))]).
Proof.
  intros Hreach Hstep.
  pose proof (reachable_run_inv sys Hreach) as Hinv.
  inversion Hstep as [ | | sys0 before tk0 after s st es Hsplit Htk Hans Hres];
    subst. cbn [app store store_after].
  run_sync. injection Hres as <- <-.
  split; [reflexivity|]. split; [reflexivity|].
  destruct (inv_pool sys Hinv tk) as [Hinvoked _].
  { rewrite Hsplit. apply in_or_app. right. now left. }
  rewrite Htk in Hinvoked. cbn [call_of] in Hinvoked.
  destruct (inv_written sys Hinv d Hinvoked)
    as (now & _ & _ & loc & Hloc & Htruthy & Hd).
  exists loc, now. split; [exact Hd|]. intros now'.
  apply saveData_guard_false in Htruthy.
  unfold saveData, await, emit. now rewrite Htruthy, Hloc.
Qed.

Lemma failed_write_keeps_session_witness :
  app run_save_failed = app run_saved /\
  fst (saveData 9000 (app run_save_failed)) = app run_save_failed.
Proof.
  destruct (failed_write_keeps_session run_saved
              {| awaited := addDoc record_saved; issued := 0 |}
              record_saved run_save_failed reachable_run_saved)
    as (Happ & _ & loc & now & _ & Hretry).
  - apply (settle_step run_saved 2); [reflexivity | reflexivity | exact I].
  - split; [exact Happ|]. now rewrite (Hretry 9000).
Defined.

(** ** C8: a saved record is listed *)

Lemma step_store_grows sys l sys' :
  step sys l sys' -> exists more, store sys' = store sys ++ more.
Proof.
  intros Hstep. destruct Hstep as [ | | sys before tk after s st es _ _ _ _];
    cbn [store]; try (exists []; now rewrite app_nil_r).
  destruct s as [r|r|r|r|r|r|d r|r]; cbn [store_after];
    try (exists []; now rewrite app_nil_r).
  destruct r; [now exists [d] | exists []; now rewrite app_nil_r].
Qed.

Lemma store_grows sys sys' :
  steps sys sys' -> exists more, store sys' = store sys ++ more.
Proof.
  induction 1 as [sys | sys l sys1 sys2 _ [more1 IH] Hstep].
  - exists []. now rewrite app_nil_r.
  - destruct (step_store_grows _ _ _ Hstep) as [more2 H2].
    exists (more1 ++ more2). now rewrite H2, IH, app_assoc.
Qed.

Lemma in_firstn_past {A : Type} (l more : list A) (x : A) (k : nat) :
  (length l < k)%nat -> In x (firstn k (l ++ x :: more)).
Proof.
  intros Hk. rewrite firstn_app. apply in_or_app. right.
  destruct (k - length l)%nat as [|j] eqn:E; [lia|]. now left.
Qed.

(** C8: when [addDoc] resolves, the record is in the collection and the
    list is asked for again; when a [getDocs] issued from then on resolves,
    the cached list is replaced by its answer, and the record is in it.
    The record is the one built from the session's fields. *)
Theorem saved_record_is_listed (sys : System) (tk : task) (d : value) (u : unit)
    (sys1 : System) :
  reachable sys ->
  step sys (Settle tk (AddDocSettled d (Resolved u))) sys1 ->
  (exists now, saved_from (app sys) d now) /\
  store sys1 = store sys ++ [d] /\
  In {| awaited := getDocs; issued := length (store sys1) |} (pool sys1) /\
  forall sys2 tk' docs sys3,
    steps sys1 sys2 ->
    step sys2 (Settle tk' (GetDocsSettled (Resolved docs))) sys3 ->
    (length (store sys1) <= issued tk')%nat ->
    savedData (app sys3) = docs /\ In d docs.
Proof.
  intros Hreach Hstep.
  pose proof (reachable_run_inv sys Hreach) as Hinv.
  inversion Hstep as [ | | sys0 before tk0 after s st es Hsplit Htk Hans Hres];
    subst. cbn [app store pool store_after].
  run_sync. injection Hres as <- <-.
  split; [|split; [reflexivity|split]].
  - destruct (inv_pool sys Hinv tk) as [Hinvoked _].
    { rewrite Hsplit. apply in_or_app. right. now left. }
    rewrite Htk in Hinvoked. cbn [call_of] in Hinvoked.
    destruct (inv_written sys Hinv d Hinvoked) as (now & _ & _ & Hs).
    now exists now.
  - apply in_or_app. right. apply in_or_app. right. now left.
  - intros sys2 tk' docs sys3 Hsteps Hlist Hissued.
    destruct (store_grows _ _ Hsteps) as [more Hmore]. cbn [store] in Hmore.
    inversion Hlist
      as [ | | sys0 before' tk0 after' s st es Hsplit' Htk' Hans' Hres'];
      subst. cbn [app].
    run_sync. injection Hres' as <- <-. split; [reflexivity|].
    destruct Hans' as (k & [Hlo Hhi] & Hperm).
    apply (Permutation_in d (Permutation_sym Hperm)).
    rewrite Hmore, <- app_assoc. cbn [List.app].
    apply in_firstn_past. rewrite length_app in Hissued. cbn in Hissued. lia.
Qed.

Lemma saved_record_is_listed_witness :
  savedData (app run_refreshed) = [record_saved] /\
  In record_saved (savedData (app run_refreshed)).
Proof.
  destruct (saved_record_is_listed run_saved
              {| awaited := addDoc record_saved; issued := 0 |}
              record_saved tt run_stored reachable_run_saved)
    as (_ & _ & _ & Hlisted).
  - apply (settle_step run_saved 2); [reflexivity | reflexivity | exact I].
  - destruct (Hlisted run_stored {| awaited := getDocs; issued := 1 |}
                [record_saved] run_refreshed) as [Hsaved Hin].
    + apply steps_refl.
    + apply (settle_step run_stored 2); [reflexivity | reflexivity | ].
      exists 1%nat. split; [cbn; lia | apply Permutation_refl].
    + cbn. lia.
    + split; [exact Hsaved | now rewrite Hsaved].
Defined.

(** * More of the component

    Properties of the run as a whole, of the screen, and of the earlier
    version of the component. *)

(** ** The session over a run *)

Lemma steps_reachable sys sys' : reachable sys -> steps sys sys' -> reachable sys'.
Proof.
  intros (store0 & t0 & Hv & Hs) Hsteps. exists store0, t0.
  split; [exact Hv | eapply steps_trans; eassumption].
Qed.

Lemma advance_extends ph s :
  (forall v, obj_get "ssid" (wifi_of ph) = Some v ->
             obj_get "ssid" (wifi_of (advance ph s)) = Some v) /\
  (forall z, level_of ph = Some z -> level_of (advance ph s) = Some z) /\
  (forall loc, position_of ph = Some loc ->
               position_of (advance ph s) = Some loc).
Proof.
  destruct ph as [ | [p|] | p | p ssid | p ssid | p n | p n r];
    destruct s as [[q|]|[q|]|[q|]|[[|]|]|[q|]|[q|]|d [q|]|[q|]];
    cbn [advance]; try destruct (granted q);
    repeat split; intros x Hx; try discriminate Hx; exact Hx.
Qed.

(** X1: in a run a field of the session, once set, keeps its value: the
    network identifier, the signal level and the position are never
    overwritten or cleared. *)
Theorem session_fields_stable (sys sys' : System) :
  reachable sys -> steps sys sys' ->
  (forall v, networkId (app sys) = Some v -> networkId (app sys') = Some v) /\
  (forall z, signalStrength (app sys) = Some z ->
             signalStrength (app sys') = Some z) /\
  (forall loc, location (app sys) = Some loc -> location (app sys') = Some loc).
Proof.
  intros Hreach Hsteps. destruct (reachable_at_phase sys Hreach) as [ph Hph].
  unfold networkId.
  rewrite (ph_wifi _ _ Hph), (ph_level _ _ Hph), (ph_position _ _ Hph).
  clear Hreach.
  assert (H : exists ph', at_phase ph' sys' /\
            (forall v, obj_get "ssid" (wifi_of ph) = Some v ->
                       obj_get "ssid" (wifi_of ph') = Some v) /\
            (forall z, level_of ph = Some z -> level_of ph' = Some z) /\
            (forall loc, position_of ph = Some loc -> position_of ph' = Some loc)).
  { induction Hsteps as [sys | sys l sys1 sys2 _ IH Hstep].
    - exists ph. auto.
    - destruct (IH Hph) as (ph1 & Hph1 & Hw & Hl & Hp).
      exists (advance_label ph1 l).
      split; [eapply step_at_phase; eassumption|].
      destruct l as [dt| |tk s]; cbn [advance_label]; auto.
      destruct (advance_extends ph1 s) as (Hw' & Hl' & Hp'). auto. }
  destruct H as (ph' & Hph' & Hw & Hl & Hp).
  rewrite (ph_wifi _ _ Hph'), (ph_level _ _ Hph'), (ph_position _ _ Hph').
  auto.
Qed.

Lemma session_fields_stable_witness :
  signalStrength (app run_refreshed) = Some (-54).
Proof.
  apply (session_fields_stable run_collected run_refreshed).
  - exists [], 0. split; [apply valid_0 | exact steps_run_collected].
  - eapply steps_trans; [exact steps_run_saved|].
    apply (steps_next run_saved
             (Settle {| awaited := getDocs; issued := 1 |}
                (GetDocsSettled (Resolved [record_saved])))
             run_stored run_refreshed).
    + apply (steps_one run_saved
               (Settle {| awaited := addDoc record_saved; issued := 0 |}
                  (AddDocSettled record_saved (Resolved tt)))).
      apply (settle_step run_saved 2); [reflexivity | reflexivity | exact I].
    + apply (settle_step run_stored 2); [reflexivity | reflexivity | ].
      exists 1%nat. split; [cbn; lia | apply Permutation_refl].
  - reflexivity.
Defined.

Lemma step_run_stored :
  step run_saved
    (Settle {| awaited := addDoc record_saved; issued := 0 |}
       (AddDocSettled record_saved (Resolved tt))) run_stored.
Proof.
  apply (settle_step run_saved 2); [reflexivity | reflexivity | exact I].
Qed.

Lemma step_run_refreshed :
  step run_stored
    (Settle {| awaited := getDocs; issued := 1 |}
       (GetDocsSettled (Resolved [record_saved]))) run_refreshed.
Proof.
  apply (settle_step run_stored 2); [reflexivity | reflexivity | ].
  exists 1%nat. split; [cbn; lia | apply Permutation_refl].
Qed.

Lemma reachable_run_collected : reachable run_collected.
Proof. exists [], 0. split; [apply valid_0 | exact steps_run_collected]. Qed.

Lemma reachable_run_refreshed : reachable run_refreshed.
Proof.
  eapply reachable_step; [|exact step_run_refreshed].
  eapply reachable_step; [exact reachable_run_saved | exact step_run_stored].
Qed.

(** What the settlements in a script say about the cells of its phase. *)
Lemma resolved_in_script ph :
  (forall ssid, In (Settled (SsidSettled (Resolved ssid))) (script ph) ->
     wifi_of ph = [("ssid", VStr ssid)]) /\
  (forall lvl, In (Settled (SignalSettled (Resolved lvl))) (script ph) ->
     level_of ph = Some lvl) /\
  (forall loc, In (Settled (PositionSettled (Resolved loc))) (script ph) ->
     position_of ph = Some loc).
Proof.
  repeat split; intros x Hin;
    destruct ph as [ | [p|] | p | p ssid | p ssid | p n | p n r];
    try destruct n; try destruct r; in_script;
    repeat match goal with
           | H : _ \/ _ |- _ => destruct H
           | H : False |- _ => destruct H
           | H : Settled _ = Settled _ |- _ => injection H as <-
           end;
    try discriminate; reflexivity.
Qed.

Lemma session_of_settlements sys :
  reachable sys ->
  (forall ssid, In (Settled (SsidSettled (Resolved ssid))) (trace sys) ->
     wifiDetails (app sys) = [("ssid", VStr ssid)]) /\
  (forall lvl, In (Settled (SignalSettled (Resolved lvl))) (trace sys) ->
     signalStrength (app sys) = Some lvl) /\
  (forall loc, In (Settled (PositionSettled (Resolved loc))) (trace sys) ->
     location (app sys) = Some loc).
Proof.
  intros Hreach. destruct (reachable_at_phase sys Hreach) as [ph Hph].
  destruct (resolved_in_script ph) as (Hw & Hl & Hp).
  rewrite (ph_wifi _ _ Hph), (ph_level _ _ Hph), (ph_position _ _ Hph).
  repeat split; intros x Hin;
    (apply (trace_to_script ph sys _ Hph) in Hin; [|reflexivity]); auto.
Qed.

Lemma settlements_of_session sys :
  reachable sys ->
  (forall k v, obj_get k (wifiDetails (app sys)) = Some v ->
     exists ssid, k = "ssid" /\ v = VStr ssid /\
       In (Settled (SsidSettled (Resolved ssid))) (trace sys)) /\
  (forall lvl, signalStrength (app sys) = Some lvl ->
     In (Settled (SignalSettled (Resolved lvl))) (trace sys)) /\
  (forall loc, location (app sys) = Some loc ->
     In (Settled (PositionSettled (Resolved loc))) (trace sys)).
Proof.
  intros Hreach. destruct (reachable_at_phase sys Hreach) as [ph Hph].
  rewrite (ph_wifi _ _ Hph), (ph_level _ _ Hph), (ph_position _ _ Hph).
  split; [|split].
  - intros k v Hget.
    assert (Hssid : exists ssid, wifi_of ph = [("ssid", VStr ssid)] /\
              In (Settled (SsidSettled (Resolved ssid))) (script ph)).
    { destruct ph as [ | [p|] | p | p ssid | p ssid | p n | p n r];
        try destruct n; try discriminate Hget;
        eexists; (split; [reflexivity|]); try destruct r; in_script; tauto. }
    destruct Hssid as (ssid & Hw & Hin). rewrite Hw in Hget.
    cbn [obj_get] in Hget.
    destruct (String.eqb_spec "ssid" k) as [<- | Hk]; [|discriminate Hget].
    injection Hget as <-. exists ssid. repeat split.
    apply (script_to_trace ph sys _ Hph); [reflexivity | exact Hin].
  - intros lvl Hl. apply (script_to_trace ph sys _ Hph); [reflexivity|].
    destruct ph as [ | [p|] | p | p ssid | p ssid | p n | p n r];
      try destruct n; try discriminate Hl; injection Hl as <-;
      try destruct r; in_script; tauto.
  - intros loc Hl. apply (script_to_trace ph sys _ Hph); [reflexivity|].
    destruct ph as [ | [p|] | p | p ssid | p ssid | p n | p n [loc'|]];
      try discriminate Hl; injection Hl as <-;
      destruct n; in_script; tauto.
Qed.

(** X2: what a query of the run has resolved to is in the session from
    then on: the identifier as the one property of [wifiDetails], the level
    in [signalStrength], the position in [location]. *)
Theorem resolved_values_are_kept (sys : System) :
  reachable sys ->
  (forall ssid, In (Settled (SsidSettled (Resolved ssid))) (trace sys) ->
     wifiDetails (app sys) = [("ssid", VStr ssid)]) /\
  (forall lvl, In (Settled (SignalSettled (Resolved lvl))) (trace sys) ->
     signalStrength (app sys) = Some lvl) /\
  (forall loc, In (Settled (PositionSettled (Resolved loc))) (trace sys) ->
     location (app sys) = Some loc).
Proof.
  intros Hreach. destruct (reachable_at_phase sys Hreach) as [ph Hph].
  destruct (resolved_in_script ph) as (Hw & Hl & Hp).
  split; [|split].
  - intros ssid Hin. rewrite (ph_wifi _ _ Hph). apply Hw.
    now apply (trace_to_script ph sys _ Hph) in Hin.
  - intros lvl Hin. rewrite (ph_level _ _ Hph). apply Hl.
    now apply (trace_to_script ph sys _ Hph) in Hin.
  - intros loc Hin. rewrite (ph_position _ _ Hph). apply Hp.
    now apply (trace_to_script ph sys _ Hph) in Hin.
Qed.

Lemma resolved_values_are_kept_witness :
  wifiDetails (app run_refreshed) = [("ssid", VStr "NET1")].
Proof.
  apply (resolved_values_are_kept run_refreshed reachable_run_refreshed).
  cbv. tauto.
Defined.

(** X3: in a run the button writes exactly when the three queries have
    resolved, the identifier to a non-empty string and the level to a
    non-zero integer. *)
Theorem save_enabled_iff_collected (sys : System) :
  reachable sys ->
  (all_truthy (app sys) <->
   exists ssid lvl loc,
     ssid <> "" /\ lvl <> 0 /\
     In (Settled (SsidSettled (Resolved ssid))) (trace sys) /\
     In (Settled (SignalSettled (Resolved lvl))) (trace sys) /\
     In (Settled (PositionSettled (Resolved loc))) (trace sys)).
Proof.
  intros Hreach. destruct (reachable_at_phase sys Hreach) as [ph Hph].
  destruct (session_of_settlements sys Hreach) as (Hw & Hl & Hp).
  destruct (settlements_of_session sys Hreach) as (Hw' & Hl' & Hp').
  split.
  - intros Htruthy.
    destruct (truthy_session ph sys Hph Htruthy)
      as (ssid & lvl & loc & Hssid & Hlvl & Ew & El & Ep).
    exists ssid, lvl, loc. repeat split; auto.
    destruct (Hw' "ssid" (VStr ssid)) as (ssid' & _ & E & Hin).
    { now rewrite Ew. }
    now injection E as ->.
  - intros (ssid & lvl & loc & Hssid & Hlvl & H1 & H2 & H3).
    unfold all_truthy, networkId. rewrite (Hw _ H1), (Hl _ H2), (Hp _ H3).
    split; [|split].
    + exists (VStr ssid). split; [reflexivity|]. cbn.
      now apply negb_true_iff, String.eqb_neq.
    + now exists lvl.
    + now exists loc.
Qed.

Lemma save_enabled_iff_collected_witness : all_truthy (app run_collected).
Proof.
  apply (save_enabled_iff_collected run_collected reachable_run_collected).
  exists "NET1", (-54), position_37_122.
  repeat split; try discriminate; cbv; tauto.
Defined.

(** ** Runs that cannot save *)

Lemma blocks_save_pipeline e : blocks_save e = true -> pipeline_event e = true.
Proof.
  destruct e as [c|m|m|m|s]; try discriminate.
  destruct s as [r|r|r|r|r|r|d r|r]; try discriminate; reflexivity.
Qed.

Lemma blocked_phase ph e :
  phase_ok ph = true -> blocks_save e = true -> In e (script ph) ->
  wifi_of ph = [] \/ level_of ph = None \/ position_of ph = None.
Proof.
  intros Hok He Hin.
  destruct ph as [ | [p|] | p | p ssid | p ssid | p n | p n r];
    try destruct n; try destruct r; cbn [phase_ok] in Hok; in_script;
    cbn [wifi_of level_of position_of wifi_of_network level_of_network];
    auto;
    repeat match goal with
           | H : _ \/ _ |- _ => destruct H
           | H : False |- _ => destruct H
           end;
    subst e; cbn [blocks_save is_grant] in He; rewrite ?Hok in He;
    discriminate He.
Qed.

(** X4: once the permission request has settled without a grant, a query
    has rejected or the device has answered that it is not connected, the
    button never writes again in that run: every later press reports the
    incomplete observation. *)
Theorem failed_collection_never_saves (sys sys' : System) (e : event) (now : Z) :
  reachable sys -> In e (trace sys) -> blocks_save e = true ->
  steps sys sys' ->
  saveData now (app sys') = (app sys', IncompleteObservation).
Proof.
  intros Hreach Hin He Hsteps.
  pose proof (steps_reachable _ _ Hreach Hsteps) as Hreach'.
  destruct (reachable_at_phase sys' Hreach') as [ph Hph].
  apply (trace_grows _ _ Hsteps) in Hin.
  apply (trace_to_script ph sys' _ Hph) in Hin;
    [|now apply blocks_save_pipeline].
  pose proof (blocked_phase ph e (ph_ok _ _ Hph) He Hin) as Hblocked.
  assert (Hg : saveData_guard (app sys') = true).
  { unfold saveData_guard.
    rewrite (ph_wifi _ _ Hph), (ph_level _ _ Hph), (ph_position _ _ Hph).
    destruct Hblocked as [-> | [-> | ->]]; cbn;
      now rewrite ?orb_true_r. }
  unfold saveData. now rewrite Hg.
Qed.

Lemma failed_collection_never_saves_witness :
  saveData 7000 (app run_not_connected)
  = (app run_not_connected, IncompleteObservation).
Proof.
  apply (failed_collection_never_saves run_not_connected run_not_connected
           (Settled (ConnectionSettled (Resolved false))) 7000).
  - exact reachable_run_not_connected.
  - cbv. tauto.
  - reflexivity.
  - apply steps_refl.
Defined.

(** ** The position stage *)

(** X5: after the grant the position is queried whatever the network stage
    gives: in every system of the run, either a query of the network stage
    is still outstanding or [getCurrentPositionAsync] has been called. *)
Theorem position_follows_network_stage (sys : System) :
  reachable sys -> permission_granted_in (trace sys) ->
  (exists tk, In tk (pool sys) /\ network_query (awaited tk) = true) \/
  In (Invoke getCurrentPositionAsync) (trace sys).
Proof.
  intros Hreach (e & Hin & He).
  destruct (reachable_at_phase sys Hreach) as [ph Hph].
  assert (Hpipe : pipeline_event e = true).
  { destruct e as [c|m|m|m|[[p|]|r|r|r|r|r|d r|r]]; try discriminate He.
    reflexivity. }
  apply (trace_to_script ph sys _ Hph) in Hin; [|exact Hpipe].
  pose proof (ph_ok _ _ Hph) as Hok. pose proof (ph_pool _ _ Hph) as Hpool.
  assert (Hout : forall c, awaiting ph = [c] -> network_query c = true ->
            exists tk, In tk (pool sys) /\ network_query (awaited tk) = true).
  { intros c Hc Hq. rewrite Hc in Hpool.
    assert (Hinc : In c (filter pipeline_call (map awaited (pool sys))))
      by (rewrite Hpool; now left).
    apply filter_In in Hinc as [Hinc _].
    apply in_map_iff in Hinc as (tk & <- & Htk). now exists tk. }
  destruct ph as [ | [p|] | p | p ssid | p ssid | p n | p n r].
  - in_script. destruct Hin as [<- | []]. discriminate He.
  - in_script. cbn [phase_ok] in Hok. unfold granted in *.
    destruct Hin as [<- | [<- | [<- | []]]]; try discriminate He.
    cbn in He. unfold granted in He. rewrite He in Hok. discriminate Hok.
  - in_script. destruct Hin as [<- | [<- | [<- | []]]]; discriminate He.
  - left. now apply (Hout getCurrentWifiSSID).
  - left. now apply (Hout connectionStatus).
  - left. now apply (Hout getCurrentSignalStrength).
  - right. apply (script_to_trace _ sys _ Hph); [reflexivity|].
    destruct n; in_script; tauto.
  - right. apply (script_to_trace _ sys _ Hph); [reflexivity|].
    destruct n; in_script; tauto.
Qed.

Lemma position_follows_network_stage_witness :
  In (Invoke getCurrentPositionAsync) (trace run_no_ssid).
Proof.
  destruct (position_follows_network_stage run_no_ssid reachable_run_no_ssid)
    as [(tk & Hin & Hq) | Hpos].
  - exists (Settled (PermissionSettled (permission "granted"))).
    split; [cbv; tauto | reflexivity].
  - cbv in Hin. destruct Hin as [<- | [<- | [<- | []]]]; discriminate Hq.
  - exact Hpos.
Defined.

(** X6: when the position query rejects, the failure is reported on the
    console and with a toast, and [location] stays null for the rest of the
    run. *)
Theorem position_failure_is_final (sys sys' : System) :
  reachable sys -> In (Settled (PositionSettled Rejected)) (trace sys) ->
  steps sys sys' ->
  location (app sys') = None /\
  In (ConsoleError "Error fetching location:") (trace sys) /\
  In (ToastShow "Error fetching location") (trace sys).
Proof.
  intros Hreach Hin Hsteps.
  assert (Hfail : forall s, reachable s ->
            In (Settled (PositionSettled Rejected)) (trace s) ->
            exists ph p n, at_phase ph s /\ ph = Finished p n Rejected).
  { intros s Hs Hins. destruct (reachable_at_phase s Hs) as [ph Hph].
    apply (trace_to_script ph s _ Hph) in Hins; [|reflexivity].
    exists ph.
    destruct ph as [ | [p|] | p | p ssid | p ssid | p n | p n r];
      try destruct n; try destruct r; in_script;
      repeat destruct Hins as [Hins | Hins]; try discriminate Hins;
      try contradiction; eauto. }
  split; [|split].
  - destruct (Hfail sys' (steps_reachable _ _ Hreach Hsteps)
                (trace_grows _ _ Hsteps _ Hin)) as (ph & p & n & Hph & ->).
    now rewrite (ph_position _ _ Hph).
  - destruct (Hfail sys Hreach Hin) as (ph & p & n & Hph & ->).
    apply (script_to_trace _ sys _ Hph); [reflexivity|].
    destruct n; in_script; tauto.
  - destruct (Hfail sys Hreach Hin) as (ph & p & n & Hph & ->).
    apply (script_to_trace _ sys _ Hph); [reflexivity|].
    destruct n; in_script; tauto.
Qed.

(** ** Calls that are made once *)

Lemma script_NoDup ph : NoDup (script ph).
Proof.
  destruct ph as [ | [p|] | p | p ssid | p ssid | p n | p n r];
    try destruct n; try destruct r; in_script;
    repeat (constructor; [cbn [In]; intuition discriminate|]);
    constructor.
Qed.

Lemma mount_calls_stay sys sys' :
  steps sys sys' ->
  exists more, trace sys' = trace sys ++ more /\
               ~ In (Invoke loadWifiList) more.
Proof.
  induction 1 as [sys | sys l sys1 sys2 _ (more & IH & Hno) Hstep].
  - exists []. split; [now rewrite app_nil_r | intros []].
  - assert (Hnew : exists es, trace sys2 = trace sys1 ++ es /\
                              ~ In (Invoke loadWifiList) es).
    { destruct Hstep as [sys1 dt Hdt Hvalid | sys1 st es Hsave
                        | sys1 before tk after s st es Hsplit Htk Hans Hres];
        cbn [trace].
      - exists []. split; [now rewrite app_nil_r | intros []].
      - exists es. split; [reflexivity|].
        destruct (saveData_cases (clock sys1) (app sys1))
          as [[_ E] | [_ (loc & _ & E)]];
          rewrite E in Hsave; injection Hsave as <- <-;
          intros [Hin | []]; discriminate Hin.
      - exists (Settled s :: es). split; [reflexivity|].
        intros [Hin | Hin]; [discriminate Hin|].
        destruct s as [r|r|r|r|r|r|d r|r]; destruct r as [a|]; run_sync;
          try (destruct a as [|]);
          try (destruct (negb (String.eqb (status a) "granted")));
          injection Hres as <- <-; cbn in Hin;
          repeat destruct Hin as [Hin | Hin]; discriminate || contradiction. }
    destruct Hnew as (es & Hes & Hno').
    exists (more ++ es). split; [now rewrite Hes, IH, app_assoc|].
    intros Hin. apply in_app_or in Hin. tauto.
Qed.

Lemma split_of_single {A : Type} (x : A) (l1 l2 pre post : list A) :
  ~ In x l1 -> ~ In x l2 -> l1 ++ x :: l2 = pre ++ x :: post ->
  ~ In x pre /\ ~ In x post.
Proof.
  revert pre. induction l1 as [|a l1 IH]; intros pre H1 H2 Heq.
  - destruct pre as [|b pre]; cbn in Heq.
    + injection Heq as <-. split; [intros [] | exact H2].
    + injection Heq as <- Heq. exfalso. apply H2. rewrite Heq.
      apply in_or_app. right. now left.
  - destruct pre as [|b pre]; cbn in Heq.
    + injection Heq as -> _. exfalso. apply H1. now left.
    + injection Heq as <- Heq.
      destruct (IH pre) as [Hpre Hpost]; auto.
      { intros Hin. apply H1. now right. }
      split; [|exact Hpost].
      intros [-> | Hin]; [apply H1; now left | now apply Hpre].
Qed.

(** X7: in a run the permission request, each query of the pipeline and
    the listing of the networks are called at most once: nothing is asked
    a second time, whatever the answers. *)
Theorem single_calls_once (store0 : list value) (t0 : Z) (sys : System)
    (pre post : list event) (c : call) :
  Date.valid t0 -> steps (start store0 t0) sys ->
  single_call c = true ->
  trace sys = pre ++ Invoke c :: post ->
  ~ In (Invoke c) pre /\ ~ In (Invoke c) post.
Proof.
  intros Hv Hsteps Hc Heq.
  destruct (pipeline_call c) eqn:Hpipe.
  - destruct (steps_at_phase _ _ _ (start_at_phase store0 t0) Hsteps)
      as [ph Hph].
    assert (He : pipeline_event (Invoke c) = true) by exact Hpipe.
    pose proof (filter_split pipeline_event _ _ _ _ Heq He) as Hf.
    rewrite (ph_script _ _ Hph) in Hf.
    pose proof (script_NoDup ph) as Hnd. rewrite Hf in Hnd.
    apply NoDup_remove_2 in Hnd.
    split; intros Hin; apply Hnd, in_or_app; [left | right];
      apply filter_In; auto.
  - assert (c = loadWifiList) as -> by (destruct c; try discriminate; reflexivity).
    destruct (mount_calls_stay _ _ Hsteps) as (more & Hmore & Hno).
    rewrite Hmore in Heq.
    change (trace (start store0 t0))
      with ([Invoke requestForegroundPermissionsAsync; Invoke getDocs]
            ++ Invoke loadWifiList :: []) in Heq.
    rewrite <- app_assoc in Heq. cbn [List.app] in Heq.
    apply (split_of_single (Invoke loadWifiList)
             [Invoke requestForegroundPermissionsAsync; Invoke getDocs] more);
      auto.
    cbn. intros [H | [H | []]]; discriminate H.
Qed.

Lemma single_calls_once_witness :
  ~ In (Invoke getCurrentPositionAsync)
      [Settled (PositionSettled (Resolved position_37_122))].
Proof.
  refine (proj2 (single_calls_once [] 0 run_collected
            [Invoke requestForegroundPermissionsAsync; Invoke getDocs;
             Invoke loadWifiList;
             Settled (PermissionSettled (permission "granted"));
             Invoke getCurrentWifiSSID;
             Settled (SsidSettled (Resolved "NET1"));
             Invoke connectionStatus;
             Settled (ConnectionSettled (Resolved true));
             Invoke getCurrentSignalStrength;
             Settled (SignalSettled (Resolved (-54)))]
            [Settled (PositionSettled (Resolved position_37_122))]
            getCurrentPositionAsync valid_0 steps_run_collected eq_refl eq_refl)).
Defined.

Lemma position_failure_is_final_witness_run :
  reachable (settle 2 (PositionSettled Rejected) run_no_ssid).
Proof.
  eapply reachable_step; [exact reachable_run_no_ssid | settles].
Qed.

Lemma position_failure_is_final_witness :
  location (app (settle 2 (PositionSettled Rejected) run_no_ssid)) = None /\
  In (ConsoleError "Error fetching location:")
     (trace (settle 2 (PositionSettled Rejected) run_no_ssid)) /\
  In (ToastShow "Error fetching location")
     (trace (settle 2 (PositionSettled Rejected) run_no_ssid)).
Proof.
  apply (position_failure_is_final
           (settle 2 (PositionSettled Rejected) run_no_ssid)
           (settle 2 (PositionSettled Rejected) run_no_ssid)).
  - exact position_failure_is_final_witness_run.
  - cbv. tauto.
  - apply steps_refl.
Defined.

(** X8: the queries of the pipeline never overlap: while one of them is
    outstanding, no other outstanding call is a call of the pipeline. *)
Theorem pipeline_calls_never_overlap (sys : System) (before after : list task)
    (tk tk' : task) :
  reachable sys -> pool sys = before ++ tk :: after ->
  pipeline_call (awaited tk) = true ->
  In tk' (before ++ after) -> pipeline_call (awaited tk') = false.
Proof.
  intros Hreach Hsplit Htk Hin.
  destruct (reachable_at_phase sys Hreach) as [ph Hph].
  pose proof (ph_pool _ _ Hph) as Hpool. rewrite Hsplit in Hpool.
  rewrite map_app in Hpool. cbn [map] in Hpool.
  pose proof (awaiting_short ph) as Hlen.
  destruct (awaiting ph) as [|c [|c' cs]]; cbn in Hlen; try lia.
  - rewrite filter_app in Hpool. cbn [filter] in Hpool. rewrite Htk in Hpool.
    destruct (filter pipeline_call (map awaited before)); discriminate Hpool.
  - destruct (filter_singleton_split _ _ _ _ _ Hpool Htk) as [_ Hrest].
    rewrite <- map_app in Hrest.
    destruct (pipeline_call (awaited tk')) eqn:E; [|reflexivity].
    assert (Hf : In (awaited tk')
                    (filter pipeline_call (map awaited (before ++ after)))).
    { apply filter_In. split; [now apply in_map | exact E]. }
    rewrite Hrest in Hf. destruct Hf.
Qed.

Lemma pipeline_calls_never_overlap_witness :
  pipeline_call (awaited {| awaited := getDocs; issued := 0 |}) = false.
Proof.
  apply (pipeline_calls_never_overlap run_no_ssid
           [{| awaited := getDocs; issued := 0 |};
            {| awaited := loadWifiList; issued := 0 |}] []
           {| awaited := getCurrentPositionAsync; issued := 0 |}).
  - exact reachable_run_no_ssid.
  - reflexivity.
  - reflexivity.
  - left. reflexivity.
Defined.

(** ** The cached lists *)

Lemma firstn_app_keep {A : Type} (l more : list A) (k : nat) :
  (k <= length l)%nat -> firstn k (l ++ more) = firstn k l.
Proof.
  intros Hk. rewrite firstn_app.
  replace (k - length l)%nat with 0%nat by lia.
  cbn [firstn]. now rewrite app_nil_r.
Qed.

Lemma saved_data_snapshot (store0 : list value) (t0 : Z) (sys : System) :
  steps (start store0 t0) sys ->
  exists k : nat,
    (k <= length (store sys))%nat /\
    Permutation (savedData (app sys)) (firstn k (store sys)).
Proof.
  intros Hsteps. remember (start store0 t0) as sys0 eqn:Hstart.
  induction Hsteps as [sys | sys l sys1 sys2 _ IH Hstep].
  - subst. exists 0%nat. split; [lia | apply Permutation_refl].
  - destruct (IH Hstart) as (k & Hk & Hperm). clear IH.
    destruct Hstep as [sys1 dt Hdt Hvalid | sys1 st es Hsave
                      | sys1 before tk after s st es Hsplit Htk Hans Hres];
      cbn [app store].
    + now exists k.
    + exists k. split; [exact Hk|].
      destruct (saveData_cases (clock sys1) (app sys1))
        as [[_ E] | [_ (loc & _ & E)]];
        rewrite E in Hsave; injection Hsave as <- <-; exact Hperm.
    + assert (Hgrow : exists more, store_after s (store sys1) = store sys1 ++ more).
      { destruct s as [r|r|r|r|r|r|d r|r]; cbn [store_after];
          try (exists []; now rewrite app_nil_r).
        destruct r; [now exists [d] | exists []; now rewrite app_nil_r]. }
      destruct Hgrow as [more Hmore]. rewrite Hmore.
      assert (Hlen : forall j, (j <= length (store sys1))%nat ->
                (j <= length (store sys1 ++ more))%nat)
        by (intros j Hj; rewrite length_app; lia).
      destruct s as [r|r|r|r|r|r|d r|r]; destruct r as [a|]; run_sync;
        try (destruct a as [|]);
        try (destruct (negb (String.eqb (status a) "granted")));
        injection Hres as <- <-; cbn [savedData setSavedData setLocation
          setWifiDetails setSignalStrength setAvailableNetworks];
        try (exists k; split; [now apply Hlen|];
             now rewrite firstn_app_keep by exact Hk).
      all: destruct Hans as (j & [_ Hj] & Hpj).
      all: exists j; split; [now apply Hlen|].
      all: now rewrite firstn_app_keep by exact Hj.
Qed.

(** X9: the cached list of saved records is, at every moment of a run, the
    collection as it was at some moment, in some order: it holds no
    document that is not in the collection. *)
Theorem cached_list_is_a_snapshot (store0 : list value) (t0 : Z) (sys : System) :
  steps (start store0 t0) sys ->
  (exists k : nat,
     (k <= length (store sys))%nat /\
     Permutation (savedData (app sys)) (firstn k (store sys))) /\
  forall d, In d (savedData (app sys)) -> In d (store sys).
Proof.
  intros Hsteps.
  destruct (saved_data_snapshot store0 t0 sys Hsteps) as (k & Hk & Hperm).
  split; [now exists k|].
  intros d Hin. apply (Permutation_in d Hperm) in Hin.
  rewrite <- (firstn_skipn k (store sys)). apply in_or_app. now left.
Qed.

Lemma cached_list_is_a_snapshot_witness :
  exists k : nat,
    (k <= length (store run_refreshed))%nat /\
    Permutation (savedData (app run_refreshed)) (firstn k (store run_refreshed)).
Proof.
  refine (proj1 (cached_list_is_a_snapshot [] 0 run_refreshed _)).
  eapply steps_next; [|exact step_run_refreshed].
  eapply steps_next; [|exact step_run_stored].
  exact (steps_trans _ _ _ steps_run_collected steps_run_saved).
Defined.

(** X10: all the records that a run hands to [addDoc] are records of one
    observation: they have the same [wifiDetails], [signalStrength] and
    [location], and differ at most in their timestamp. *)
Theorem run_writes_one_observation (sys : System) (d d' : value) :
  reachable sys ->
  In (Invoke (addDoc d)) (trace sys) -> In (Invoke (addDoc d')) (trace sys) ->
  field "wifiDetails" d = field "wifiDetails" d' /\
  field "signalStrength" d = field "signalStrength" d' /\
  field "location" d = field "location" d'.
Proof.
  intros Hreach Hd Hd'.
  pose proof (reachable_run_inv sys Hreach) as Hinv.
  destruct (inv_written sys Hinv d Hd) as (now & _ & _ & loc & Hloc & _ & ->).
  destruct (inv_written sys Hinv d' Hd')
    as (now' & _ & _ & loc' & Hloc' & _ & ->).
  rewrite Hloc in Hloc'. injection Hloc' as <-. repeat split.
Qed.

Lemma reachable_run_saved_again : reachable run_saved_again.
Proof.
  eapply reachable_step; [|apply press_step].
  eapply reachable_step; [exact reachable_run_saved|].
  apply tick_step; [lia|]. unfold Date.valid, Date.maxTime. cbn. lia.
Qed.

Lemma run_writes_one_observation_witness :
  field "location" record_saved = field "location" record_saved_again.
Proof.
  apply (run_writes_one_observation run_saved_again record_saved
           record_saved_again reachable_run_saved_again); cbv; tauto.
Defined.

(** ** The list of the nearby networks *)

Lemma resume_emitted s st st' es :
  resume s st = (st', es) -> forallb emitted_event es = true.
Proof.
  intros Hres.
  destruct s as [r|r|r|r|r|r|d r|r]; destruct r as [a|]; run_sync;
    try (destruct a as [|]);
    try (destruct (negb (String.eqb (status a) "granted")));
    injection Hres as <- <-; reflexivity.
Qed.

Lemma saveData_emitted now st st' es :
  saveData now st = (st', es) -> forallb emitted_event es = true.
Proof.
  intros Hsave.
  destruct (saveData_cases now st) as [[_ E] | [_ (loc & _ & E)]];
    rewrite E in Hsave; injection Hsave as <- <-; reflexivity.
Qed.

Lemma emitted_no_listing es :
  forallb emitted_event es = true ->
  filter listing_call (invoked es) = [] /\
  forall r, ~ In (Settled (WifiListSettled r)) es.
Proof.
  intros H. rewrite forallb_forall in H. split.
  - induction es as [|e es IH]; [reflexivity|].
    assert (He : emitted_event e = true) by (apply H; now left).
    assert (IH' : filter listing_call (invoked es) = [])
      by (apply IH; intros x Hx; apply H; now right).
    unfold invoked in *. cbn [flat_map]. rewrite filter_app, IH', app_nil_r.
    destruct e as [c|m|m|m|s]; try reflexivity.
    destruct c; try reflexivity; discriminate He.
  - intros r Hin. apply H in Hin. discriminate Hin.
Qed.

Lemma resume_keeps_networks s st st' es :
  listing_call (call_of s) = false -> resume s st = (st', es) ->
  availableNetworks st' = availableNetworks st.
Proof.
  intros Hs Hres.
  destruct s as [r|r|r|r|r|r|d r|r]; try discriminate Hs;
    destruct r as [a|]; run_sync;
    try (destruct a as [|]);
    try (destruct (negb (String.eqb (status a) "granted")));
    injection Hres as <- <-; reflexivity.
Qed.

Lemma pool_filter_settle (f : call -> bool) before tk after cs new :
  filter f (map awaited (before ++ tk :: after)) = cs ->
  (length cs <= 1)%nat ->
  (f (awaited tk) = true ->
     cs = [awaited tk] /\
     filter f (map awaited (before ++ after ++ new)) = filter f (map awaited new)) /\
  (f (awaited tk) = false ->
     filter f (map awaited (before ++ after ++ new))
     = cs ++ filter f (map awaited new)).
Proof.
  intros Hcs Hlen.
  rewrite app_assoc, map_app, filter_app.
  rewrite map_app in Hcs. cbn [map] in Hcs. split; intros Htk.
  - destruct cs as [|c [|c' cs]]; cbn in Hlen; try lia.
    + rewrite filter_app in Hcs. cbn [filter] in Hcs. rewrite Htk in Hcs.
      destruct (filter f (map awaited before)); discriminate Hcs.
    + destruct (filter_singleton_split _ _ _ _ _ Hcs Htk) as [-> Hrest].
      split; [reflexivity|].
      replace (map awaited (before ++ after))
        with (map awaited before ++ map awaited after)
        by (symmetry; apply map_app).
      now rewrite Hrest.
  - rewrite filter_drop in Hcs by exact Htk.
    rewrite map_app. now rewrite Hcs.
Qed.

Lemma listing_settles_once (store0 : list value) (t0 : Z) (sys : System) :
  steps (start store0 t0) sys ->
  (filter listing_call (map awaited (pool sys)) = [loadWifiList] /\
   availableNetworks (app sys) = [] /\
   forall r, ~ In (Settled (WifiListSettled r)) (trace sys)) \/
  (filter listing_call (map awaited (pool sys)) = [] /\
   exists r,
     availableNetworks (app sys) = networks_of r /\
     In (Settled (WifiListSettled r)) (trace sys) /\
     (forall r', In (Settled (WifiListSettled r')) (trace sys) -> r' = r) /\
     (r = Rejected ->
      In (ToastShow "Error fetching available networks") (trace sys))).
Proof.
  intros Hsteps. remember (start store0 t0) as sys0 eqn:Hstart.
  induction Hsteps as [sys | sys l sys1 sys2 _ IH Hstep].
  - subst. left. repeat split. intros r Hin. cbv in Hin.
    repeat destruct Hin as [Hin | Hin]; discriminate || contradiction.
  - specialize (IH Hstart).
    destruct Hstep as [sys1 dt Hdt Hvalid | sys1 st es Hsave
                      | sys1 before tk after s st es Hsplit Htk Hans Hres];
      cbn [app pool trace].
    + exact IH.
    + destruct (emitted_no_listing es (saveData_emitted _ _ _ _ Hsave))
        as [Hnone Hnot].
      assert (Hst : st = app sys1).
      { destruct (saveData_cases (clock sys1) (app sys1))
          as [[_ E] | [_ (loc & _ & E)]];
          rewrite E in Hsave; now injection Hsave as <- <-. }
      subst st. rewrite map_app, filter_app, awaited_spawn, Hnone, app_nil_r.
      destruct IH as [(Hp & Ha & Hn) | (Hp & r & Ha & Hin & Huniq & Herr)].
      * left. repeat split; auto. intros r Hin.
        apply in_app_or in Hin as [Hin | Hin]; [now apply (Hn r) | now apply (Hnot r)].
      * right. split; [exact Hp|]. exists r. repeat split; auto.
        -- apply in_or_app. now left.
        -- intros r' Hin'. apply in_app_or in Hin' as [Hin' | Hin'];
             [now apply Huniq | now destruct (Hnot r')].
        -- intros E. apply in_or_app. left. now apply Herr.
    + destruct (emitted_no_listing es (resume_emitted _ _ _ _ Hres))
        as [Hnone Hnot].
      assert (Hshort : forall cs,
                cs = [loadWifiList] \/ cs = [] -> (length cs <= 1)%nat)
        by (intros cs [-> | ->]; cbn; lia).
      set (n := length (store_after s (store sys1))).
      assert (Hcs : (length (filter listing_call (map awaited (pool sys1))) <= 1)%nat)
        by (apply Hshort; destruct IH as [(-> & _) | (-> & _)]; auto).
      rewrite Hsplit in Hcs.
      destruct (pool_filter_settle listing_call before tk after _ (spawn n es)
                  eq_refl Hcs) as [Hin Hout].
      rewrite <- Hsplit in Hin, Hout. rewrite awaited_spawn, Hnone in Hin, Hout.
      rewrite Htk in Hin, Hout.
      destruct (listing_call (call_of s)) eqn:Hls.
      * destruct (Hin eq_refl) as [Hwas Hnow].
        destruct IH as [(Hp & Ha & Hn) | (Hp & _)];
          [|rewrite Hp in Hwas; discriminate Hwas].
        destruct s as [r|r|r|r|r|r|d r|r]; try discriminate Hls.
        right. split; [exact Hnow|]. exists r.
        assert (Hnew : forall r', In (Settled (WifiListSettled r'))
                         (trace sys1 ++ Settled (WifiListSettled r) :: es) ->
                       r' = r).
        { intros r' Hin'. apply in_app_or in Hin' as [Hin' | [Hin' | Hin']].
          - now destruct (Hn r').
          - now injection Hin' as ->.
          - now destruct (Hnot r'). }
        destruct r as [a|]; run_sync; injection Hres as <- <-;
          (split; [first [reflexivity | exact Ha]|]);
          (split; [apply in_or_app; right; now left|]);
          (split; [exact Hnew|]); intros E; try discriminate E.
        apply in_or_app. right. cbn. tauto.
      * specialize (Hout eq_refl). rewrite app_nil_r in Hout.
        rewrite (resume_keeps_networks s _ _ _ Hls Hres).
        destruct IH as [(Hp & Ha & Hn) | (Hp & r & Ha & Hin' & Huniq & Herr)].
        -- left. split; [now rewrite Hout|]. split; [exact Ha|].
           intros r Hr. apply in_app_or in Hr as [Hr | [Hr | Hr]].
           ++ now apply (Hn r).
           ++ injection Hr as ->. discriminate Hls.
           ++ now apply (Hnot r).
        -- right. split; [now rewrite Hout|]. exists r. repeat split; auto.
           ++ apply in_or_app. now left.
           ++ intros r' Hr. apply in_app_or in Hr as [Hr | [Hr | Hr]].
              ** now apply Huniq.
              ** injection Hr as ->. discriminate Hls.
              ** now destruct (Hnot r').
           ++ intros E. apply in_or_app. left. now apply Herr.
Qed.

Lemma emitted_not_settled es :
  forallb emitted_event es = true -> filter listing_settled es = [].
Proof.
  intros H. induction es as [|e es IH]; [reflexivity|].
  cbn [forallb] in H. apply andb_prop in H as [He Hes].
  cbn [filter]. rewrite (IH Hes). destruct e; try reflexivity. discriminate He.
Qed.

(** The listing is called at the mount and nowhere else, so at any moment
    it is either outstanding or has settled, once. *)
Lemma listing_is_one (store0 : list value) (t0 : Z) (sys : System) :
  steps (start store0 t0) sys ->
  (length (filter listing_settled (trace sys))
   + length (filter listing_call (map awaited (pool sys))) = 1)%nat.
Proof.
  intros Hsteps. remember (start store0 t0) as sys0 eqn:Hstart.
  induction Hsteps as [sys | sys l sys1 sys2 _ IH Hstep].
  - subst. reflexivity.
  - specialize (IH Hstart).
    destruct Hstep as [sys1 dt Hdt Hvalid | sys1 st es Hsave
                      | sys1 before tk after s st es Hsplit Htk Hans Hres];
      cbn [app pool trace].
    + exact IH.
    + pose proof (saveData_emitted _ _ _ _ Hsave) as Hem.
      rewrite !map_app, !filter_app, awaited_spawn.
      rewrite (emitted_not_settled es Hem).
      rewrite (proj1 (emitted_no_listing es Hem)), !app_nil_r. exact IH.
    + pose proof (resume_emitted _ _ _ _ Hres) as Hem.
      rewrite Hsplit in IH.
      rewrite !map_app, !filter_app in IH. cbn [map filter] in IH.
      rewrite !map_app, !filter_app, awaited_spawn. cbn [filter].
      rewrite (emitted_not_settled es Hem).
      rewrite (proj1 (emitted_no_listing es Hem)), !app_nil_r.
      cbn [listing_settled]. rewrite Htk in IH.
      destruct (listing_call (call_of s));
        rewrite !length_app in *; cbn [length] in *; lia.
Qed.

Lemma filter_none_not_in {A : Type} (f : A -> bool) (l : list A) x :
  filter f l = [] -> f x = true -> ~ In x l.
Proof.
  intros Hnil Hx Hin.
  assert (H : In x (filter f l)) by (apply filter_In; now split).
  rewrite Hnil in H. exact H.
Qed.

(** X11: the list of nearby networks is empty until the listing settles;
    from then on it is what the listing resolved to, or still empty, with
    a toast, when the listing rejected.  The listing settles at most once
    in a run: around a settlement of it, the trace holds no other, be it
    with the same answer. *)
Theorem networks_are_the_listing (store0 : list value) (t0 : Z) (sys : System) :
  steps (start store0 t0) sys ->
  (forall r, In (Settled (WifiListSettled r)) (trace sys) ->
     availableNetworks (app sys) = networks_of r /\
     (r = Rejected ->
      In (ToastShow "Error fetching available networks") (trace sys))) /\
  ((forall r, ~ In (Settled (WifiListSettled r)) (trace sys)) ->
   availableNetworks (app sys) = []) /\
  (length (filter listing_settled (trace sys)) <= 1)%nat /\
  (forall pre r post,
     trace sys = pre ++ Settled (WifiListSettled r) :: post ->
     forall r', ~ In (Settled (WifiListSettled r')) (pre ++ post)).
Proof.
  intros Hsteps.
  pose proof (listing_is_one store0 t0 sys Hsteps) as Hone.
  assert (Hlast : forall pre r post,
            trace sys = pre ++ Settled (WifiListSettled r) :: post ->
            forall r', ~ In (Settled (WifiListSettled r')) (pre ++ post)).
  { intros pre r post Hsplit r'. rewrite Hsplit in Hone.
    rewrite filter_app in Hone. cbn [filter listing_settled call_of listing_call] in Hone.
    rewrite length_app in Hone. cbn [length] in Hone.
    apply (filter_none_not_in listing_settled); [|reflexivity].
    rewrite filter_app.
    destruct (filter listing_settled pre); [|cbn [length] in Hone; lia].
    destruct (filter listing_settled post); [reflexivity|].
    cbn [length] in Hone. lia. }
  destruct (listing_settles_once store0 t0 sys Hsteps)
    as [(_ & Ha & Hn) | (_ & r & Ha & Hin & Huniq & Herr)].
  - split; [|split; [auto|split; [lia|exact Hlast]]].
    intros r Hin. now destruct (Hn r).
  - split; [|split; [|split; [lia|exact Hlast]]].
    + intros r' Hin'. rewrite (Huniq r' Hin'). auto.
    + intros Hn. now destruct (Hn r).
Qed.

Lemma networks_are_the_listing_witness :
  availableNetworks (app run_listed) = two_networks /\
  trace run_listed
  = [Invoke requestForegroundPermissionsAsync; Invoke getDocs;
     Invoke loadWifiList; Settled (PermissionSettled (permission "denied"));
     ToastShow "Location permission is required to collect data.";
     Settled (WifiListSettled (Resolved two_networks))].
Proof.
  split; [|reflexivity].
  refine (proj1 (proj1 (networks_are_the_listing [] 0 run_listed _)
                   (Resolved two_networks) _)).
  - eapply steps_next; [ | settles ]. eapply steps_one. settles.
  - cbv. tauto.
Defined.

(** ** The screen *)

Lemma dBm_is_not_fetching (digits : string) :
  (digits ++ " dBm")%string <> "Fetching...".
Proof.
  do 12 (destruct digits as [|? digits]; [discriminate|]).
  discriminate.
Qed.

Lemma saveData_refused_iff_guard now st :
  saveData now st = (st, IncompleteObservation) <-> saveData_guard st = true.
Proof.
  destruct (saveData_cases now st) as [[Hg E] | [Hg (loc & _ & E)]];
    rewrite E, Hg; split; try reflexivity; intros H; discriminate H.
Qed.

(** X12: the button refuses to write exactly when the screen shows it: the
    signal line reads [Fetching...], or there is no location line, or the
    SSID line reads [Fetching...] without that being the name of the
    network. *)
Theorem refusal_is_on_screen (now : Z) (st : AppState) :
  saveData now st = (st, IncompleteObservation) <->
  (ssid_text st = ssid_fetching /\ networkId st <> Some (VStr "Fetching..."))
  \/ signal_text st = signal_fetching
  \/ location_text st = Nothing.
Proof.
  rewrite saveData_refused_iff_guard.
  unfold saveData_guard, ssid_text, signal_text, location_text, networkId,
    ssid_fetching, signal_fetching, js_or.
  destruct (truthy_prop (obj_get "ssid" (wifiDetails st))) eqn:Hs;
    destruct (truthy (signal_value (signalStrength st))) eqn:Hl;
    destruct (location st) as [loc|] eqn:Hp; cbn [negb orb isSome];
    split; intros H; try reflexivity; try discriminate H;
    try (right; right; reflexivity);
    try (right; left; reflexivity);
    try (left; split; [reflexivity|]; intros E; rewrite E in Hs;
         discriminate Hs).
  destruct H as [[H Hne] | [H | H]]; try discriminate H.
  - injection H as H. now contradiction Hne.
  - injection H as H. destruct (signalStrength st) as [z|]; [|discriminate Hl].
    now apply dBm_is_not_fetching in H.
Qed.

(** X13: building the element of a saved record throws exactly when the
    record has no [wifiDetails] or no [location], or has [null] there; a
    record with the two objects is shown whatever else it holds. *)
Theorem renderItem_throws_iff (item : value) :
  renderItem item = None <->
  is_nullish (field "wifiDetails" item) = true \/
  is_nullish (field "location" item) = true.
Proof.
  unfold renderItem, prop.
  destruct item as [s|z|f| |o]; cbn [field is_nullish]; try tauto.
  destruct (obj_get "wifiDetails" o) as [[s|z|f| |w]|];
    destruct (obj_get "location" o) as [[s'|z'|f'| |l]|];
    cbn [is_nullish]; split; intros H; auto; try discriminate H;
    destruct H as [H | H]; discriminate H.
Qed.

(** A record built by [saveData] is shown with its own fields. *)
Lemma renderItem_of_saved_record (st : AppState) (loc : LocationObject)
    (now : Z) :
  renderItem (saveData_data st loc now)
  = Some (View None (Some "item")
            [Text None [Some (VStr "SSID: "); networkId st];
             Text None [Some (VStr "Signal: ");
                        Some (signal_value (signalStrength st));
                        Some (VStr " dBm")];
             Text None [Some (VStr "Location: ");
                        Some (VFloat (latitude (coords loc)));
                        Some (VStr ", ");
                        Some (VFloat (longitude (coords loc)))];
             Text None [Some (VStr "Timestamp: ");
                        Some (VStr (Date.toISOString now))]]).
Proof. reflexivity. Qed.

(** The collection of a run: the documents it started with, then the
    records the run has handed to [addDoc]. *)
Lemma store_is_written (store0 : list value) (t0 : Z) (sys : System) :
  Date.valid t0 -> steps (start store0 t0) sys ->
  exists ws, store sys = store0 ++ ws /\
             forall d, In d ws -> In (Invoke (addDoc d)) (trace sys).
Proof.
  intros Hv Hsteps. remember (start store0 t0) as sys0 eqn:Hstart.
  induction Hsteps as [sys | sys l sys1 sys2 Hsteps IH Hstep].
  - subst. exists []. split; [now rewrite app_nil_r | intros d []].
  - destruct (IH Hstart) as (ws & Hws & Hin). clear IH.
    assert (Hinv : run_inv sys1).
    { apply reachable_run_inv. exists store0, t0. subst sys. now split. }
    assert (Hgrow : forall d, In d ws -> In (Invoke (addDoc d)) (trace sys2))
      by (intros d Hd; eapply step_trace_grows; eauto).
    destruct Hstep as [sys1 dt Hdt Hvalid | sys1 st es Hsave
                      | sys1 before tk after s st es Hsplit Htk Hans Hres];
      cbn [store]; try (exists ws; now split).
    destruct s as [r|r|r|r|r|r|d r|r]; cbn [store_after];
      try (exists ws; now split).
    destruct r as [u|]; [|exists ws; now split].
    exists (ws ++ [d]). split; [now rewrite Hws, app_assoc|].
    intros d' Hd'. apply in_app_or in Hd' as [Hd' | [<- | []]]; [now apply Hgrow|].
    cbn [trace]. apply in_or_app. left.
    destruct (inv_pool sys1 Hinv tk) as [Hinvoked _].
    { rewrite Hsplit. apply in_or_app. right. now left. }
    now rewrite Htk in Hinvoked.
Qed.

(** X14: when every document the collection starts with has its
    [wifiDetails] and [location] objects, every record of the cached list
    can be shown in every run: the records the run itself stores are shown
    with their own fields, and [renderItem] never throws. *)
Theorem cached_records_render (store0 : list value) (t0 : Z) (sys : System)
    (item : value) :
  Date.valid t0 -> steps (start store0 t0) sys ->
  (forall d, In d store0 -> renderItem d <> None) ->
  In item (savedData (app sys)) -> renderItem item <> None.
Proof.
  intros Hv Hsteps Hstore0 Hin.
  destruct (saved_data_snapshot store0 t0 sys Hsteps) as (k & _ & Hperm).
  apply (Permutation_in item Hperm) in Hin.
  assert (Hstore : In item (store sys)).
  { rewrite <- (firstn_skipn k (store sys)). apply in_or_app. now left. }
  destruct (store_is_written store0 t0 sys Hv Hsteps) as (ws & Hws & Hwritten).
  rewrite Hws in Hstore. apply in_app_or in Hstore as [H0 | Hw].
  - now apply Hstore0.
  - assert (Hreach : reachable sys) by (exists store0, t0; now split).
    destruct (inv_written sys (reachable_run_inv sys Hreach) item
                (Hwritten item Hw)) as (now & _ & _ & loc & _ & _ & ->).
    now rewrite renderItem_of_saved_record.
Qed.

Lemma steps_run_refreshed : steps (start [] 0) run_refreshed.
Proof.
  eapply steps_next; [|exact step_run_refreshed].
  eapply steps_next; [|exact step_run_stored].
  exact (steps_trans _ _ _ steps_run_collected steps_run_saved).
Qed.

Lemma cached_records_render_witness : renderItem record_saved <> None.
Proof.
  apply (cached_records_render [] 0 run_refreshed record_saved valid_0
           steps_run_refreshed).
  - intros d [].
  - left. reflexivity.
Defined.

(** A document of another writer that lacks the two objects cannot be
    shown. *)
Example foreign_document_throws : renderItem foreign_document = None.
Proof. reflexivity. Qed.

(** ** The earlier version *)

Module PreviousFacts.
Import Previous.

Ltac run_previous :=
  cbv [resume saveData saveData_resume requestPermissions_resume
       fetchNetworkInfo_ssid fetchNetworkInfo_connected fetchNetworkInfo_level
       fetchNetworkInfo_catch fetchNetworkInfo fetchLocation
       fetchLocation_resume fetchSavedData fetchSavedData_resume
       useEffect requestPermissions seq emit update await] in *.

Lemma grant_first_app l1 l2 :
  grant_first l1 = true -> has_grant l1 = true \/ grant_first l2 = true ->
  grant_first (l1 ++ l2) = true.
Proof.
  induction l1 as [|e l1 IH]; cbn [List.app grant_first has_grant existsb];
    intros H1 H2.
  - destruct H2 as [H2 | H2]; [discriminate H2 | exact H2].
  - destruct (is_grant e); [reflexivity|]. cbn [orb] in H2.
    destruct e as [c|t m|m|m|s]; try (apply IH; assumption).
    apply andb_prop in H1 as [Hc H1]. rewrite Hc. now apply IH.
Qed.

Lemma has_grant_app l1 l2 :
  has_grant l1 = true -> has_grant (l1 ++ l2) = true.
Proof. unfold has_grant. rewrite existsb_app. now intros ->. Qed.

Lemma previous_grant_first_split es :
  grant_first es = true ->
  forall pre c post, es = pre ++ Invoke c :: post -> device_query c = true ->
  exists e, In e pre /\ is_grant e = true.
Proof.
  induction es as [|e es IH]; intros Hgf pre c post Heq Hc.
  - destruct pre; discriminate Heq.
  - destruct pre as [|e' pre]; cbn in Heq; injection Heq as He Heq; subst e.
    + cbn in Hgf. now rewrite Hc in Hgf.
    + cbn [grant_first] in Hgf. rename e' into e.
      destruct (is_grant e) eqn:Hg.
      * exists e. split; [now left | exact Hg].
      * assert (Hgf' : grant_first es = true).
        { destruct e; try exact Hgf. now apply andb_prop in Hgf. }
        destruct (IH Hgf' pre c post Heq Hc) as (e0 & Hin & He0).
        exists e0. split; [now right | exact He0].
Qed.

Lemma previous_in_spawn tk n es :
  In tk (spawn n es) -> In (Invoke (awaited tk)) es.
Proof.
  unfold spawn, invoked. rewrite in_map_iff. intros (c & <- & Hc).
  apply in_flat_map in Hc as (e & He & Hc).
  destruct e; try contradiction. now destruct Hc as [<- | []].
Qed.

(** What a settlement adds to the trace: nothing that queries the device,
    unless it is the grant or a settlement of a query behind the grant. *)
Lemma settle_grant_first s p st st' es :
  resume s = Some p -> p st = (st', es) ->
  (gated_query (call_of s) = true /\
   forall c, In (Invoke c) es -> c <> loadWifiList) \/
  (grant_first (Settled s :: es) = true /\
   forall c, In (Invoke c) es -> gated_query c = true ->
             has_grant (Settled s :: es) = true).
Proof.
  intros Hp Hres.
  destruct s as [r|r|r|r|r|r|d r|r]; try discriminate Hp;
    injection Hp as <-; destruct r as [a|]; run_previous;
    try (destruct a as [|]);
    try (destruct (String.eqb (status a) "granted") eqn:Hg; cbn in Hres);
    injection Hres as <- <-;
    try (left; split; [reflexivity|]; intros c Hc; cbn in Hc;
         repeat destruct Hc as [Hc | Hc]; try contradiction;
         try discriminate Hc; injection Hc as <-; discriminate);
    right; cbn [grant_first is_grant has_grant existsb]; unfold granted;
    rewrite ?Hg; (split; [reflexivity|]); intros c Hc Hq; cbn in Hc;
    repeat destruct Hc as [Hc | Hc]; try contradiction; try discriminate Hc;
    try reflexivity; injection Hc as <-; discriminate Hq.
Qed.

Lemma run_guarded sys :
  reachable sys ->
  grant_first (trace sys) = true /\
  forall tk, In tk (pool sys) ->
    awaited tk <> loadWifiList /\
    (gated_query (awaited tk) = true -> has_grant (trace sys) = true).
Proof.
  intros (store0 & t0 & _ & Hsteps).
  remember (start store0 t0) as sys0 eqn:Hstart.
  induction Hsteps as [sys | sys l sys1 sys2 _ IH Hstep].
  - subst. split; [reflexivity|]. intros tk Hin. cbv in Hin.
    destruct Hin as [<- | [<- | []]]; split; discriminate.
  - destruct (IH Hstart) as [Hgf Hpool]. clear IH.
    destruct Hstep as [sys1 dt Hdt Hvalid | sys1 st es Hsave
                      | sys1 before tk after s p st es Hsplit Htk Hans Hp Hres];
      cbn [trace pool].
    + now split.
    + assert (Hes : grant_first es = true /\
                    forall c, In (Invoke c) es -> device_query c = false).
      { unfold saveData in Hsave. destruct (saveData_guard (app sys1)).
        - injection Hsave as <- <-. split; [reflexivity|].
          intros c [Hc | []]. discriminate Hc.
        - destruct (location (app sys1)); injection Hsave as <- <-;
            (split; [reflexivity|]); intros c [Hc | []];
            try discriminate Hc. now injection Hc as <-. }
      destruct Hes as [Hes Hnone]. split.
      * apply grant_first_app; auto.
      * intros tk Hin. apply in_app_or in Hin as [Hin | Hin].
        -- destruct (Hpool tk Hin) as [H1 H2].
           split; [exact H1|]. intros Hq. now apply has_grant_app, H2.
        -- apply previous_in_spawn in Hin. apply Hnone in Hin.
           split; [intros E; now rewrite E in Hin|].
           intros Hq. destruct (awaited tk); discriminate.
    + assert (Hold : forall tk', In tk' (before ++ after) -> In tk' (pool sys1)).
      { intros tk' Hin. rewrite Hsplit. apply in_app_or in Hin as [Hin | Hin];
          apply in_or_app; [now left | right; now right]. }
      assert (Htkin : In tk (pool sys1))
        by (rewrite Hsplit; apply in_or_app; right; now left).
      destruct (settle_grant_first s p _ _ _ Hp Hres)
        as [[Hq Hnl] | [Hnew Hgr]].
      * assert (Hg : has_grant (trace sys1) = true)
          by (apply (Hpool tk Htkin); now rewrite Htk).
        split; [apply grant_first_app; auto|].
        intros tk' Hin. rewrite app_assoc in Hin.
        apply in_app_or in Hin as [Hin | Hin].
        -- destruct (Hpool tk' (Hold tk' Hin)) as [H1 _].
           split; [exact H1 | intros _; now apply has_grant_app].
        -- apply previous_in_spawn in Hin.
           split; [now apply Hnl | intros _; now apply has_grant_app].
      * split; [apply grant_first_app; auto|].
        intros tk' Hin. rewrite app_assoc in Hin.
        apply in_app_or in Hin as [Hin | Hin].
        -- destruct (Hpool tk' (Hold tk' Hin)) as [H1 H2].
           split; [exact H1|]. intros Hq'. now apply has_grant_app, H2.
        -- apply previous_in_spawn in Hin. split.
           ++ intros E. rewrite E in Hin.
              destruct s as [r|r|r|r|r|r|d r|r]; try discriminate Hp;
                injection Hp as <-; destruct r as [a|]; run_previous;
                try (destruct a as [|]);
                try (destruct (String.eqb (status a) "granted"); cbn in Hres);
                injection Hres as <- <-; cbn in Hin;
                repeat destruct Hin as [Hin | Hin]; try contradiction;
                discriminate Hin.
           ++ intros Hq'. unfold has_grant. rewrite existsb_app.
              apply orb_true_iff. right. now apply (Hgr (awaited tk')).
Qed.

(** X15: in the earlier version no device query of any kind is made
    before the permission request of the run has resolved to granted: the
    ordering that the later version keeps for the pipeline only holds
    there for every query, the nearby networks never being listed. *)
Theorem queries_follow_grant (sys : System) (pre post : list event) (c : call) :
  reachable sys ->
  trace sys = pre ++ Invoke c :: post -> device_query c = true ->
  exists e, In e pre /\ is_grant e = true.
Proof.
  intros Hreach Heq Hc.
  exact (previous_grant_first_split _ (proj1 (run_guarded sys Hreach)) _ _ _ Heq Hc).
Qed.

Lemma previous_settle_step sys i tk s :
  resume s <> None ->
  nth_error (pool sys) i = Some tk ->
  awaited tk = call_of s ->
  answer_ok tk s (store sys) ->
  step sys (Settle tk s) (settle i s sys).
Proof.
  intros Hsome Hnth Htk Hans. unfold settle.
  destruct (resume s) as [p|] eqn:Hp; [|now contradiction Hsome].
  destruct (p (app sys)) as [st es] eqn:E.
  eapply step_settle; eauto using nth_error_firstn_skipn.
Qed.

Lemma previous_reachable_step sys l sys' : reachable sys -> step sys l sys' -> reachable sys'.
Proof.
  intros (store0 & t0 & Hv & Hs) Hstep. exists store0, t0.
  split; [exact Hv | eapply steps_next; eassumption].
Qed.

Lemma reachable_run_granted : reachable run_granted.
Proof.
  eapply previous_reachable_step.
  - exists [], 0. split; [exact valid_0 | apply steps_refl].
  - apply (previous_settle_step _ 0); [discriminate | reflexivity | reflexivity | exact I].
Qed.

Lemma previous_reachable_run_denied : reachable run_denied.
Proof.
  eapply previous_reachable_step.
  - exists [], 0. split; [exact valid_0 | apply steps_refl].
  - apply (previous_settle_step _ 0); [discriminate | reflexivity | reflexivity | exact I].
Qed.

Lemma queries_follow_grant_witness :
  exists e, In e [Invoke requestForegroundPermissionsAsync; Invoke getDocs;
                  Settled (PermissionSettled (permission "granted"))] /\
            is_grant e = true.
Proof.
  apply (queries_follow_grant run_granted _ [] getCurrentWifiSSID
           reachable_run_granted); reflexivity.
Defined.

Lemma step_alerts sys l sys' e :
  step sys l sys' -> In e (trace sys') -> is_alert e = true ->
  In e (trace sys) \/
  (In e alerts /\ forall tk s, l = Settle tk s -> is_rejection s = false).
Proof.
  intros Hstep Hin He.
  destruct Hstep as [sys dt Hdt Hvalid | sys st es Hsave
                    | sys before tk after s p st es Hsplit Htk Hans Hp Hres];
    cbn [trace] in Hin.
  - now left.
  - apply in_app_or in Hin as [Hin | Hin]; [now left|]. right.
    split; [|intros tk s E; discriminate E].
    unfold saveData in Hsave. destruct (saveData_guard (app sys)).
    + injection Hsave as <- <-. destruct Hin as [<- | []]. cbn. tauto.
    + destruct (location (app sys)); injection Hsave as <- <-;
        destruct Hin as [<- | []]; discriminate He.
  - apply in_app_or in Hin as [Hin | [<- | Hin]];
      [now left | discriminate He |].
    right.
    destruct s as [r|r|r|r|r|r|d r|r]; try discriminate Hp;
      injection Hp as <-; destruct r as [a|]; run_previous;
      try (destruct a as [|]);
      try (destruct (String.eqb (status a) "granted"); cbn in Hres);
      injection Hres as <- <-; cbn in Hin;
      repeat destruct Hin as [Hin | Hin]; try contradiction;
      subst e; try discriminate He;
      (split; [cbn; tauto | intros tk' s' E; injection E as _ <-; reflexivity]).
Qed.

(** X16: in the earlier version the only alerts of a run are the three of
    the source (permission error, data missing, success), and a call that
    rejects is never shown to the user: the step that settles a rejection
    adds no alert, it only logs. *)
Theorem failures_are_silent (sys sys' : System) (l : label) (e : event) :
  reachable sys -> step sys l sys' ->
  In e (trace sys') -> is_alert e = true ->
  In e alerts /\
  (forall tk s, l = Settle tk s -> is_rejection s = true -> In e (trace sys)).
Proof.
  intros Hreach Hstep Hin He.
  assert (Hall : forall s, reachable s ->
            forall x, In x (trace s) -> is_alert x = true -> In x alerts).
  { intros s (store0 & t0 & _ & Hsteps).
    remember (start store0 t0) as s0 eqn:Hstart.
    induction Hsteps as [s | s l0 s1 s2 _ IH Hst]; intros x Hx Hax.
    - subst. cbv in Hx. destruct Hx as [<- | [<- | []]]; discriminate Hax.
    - destruct (step_alerts _ _ _ x Hst Hx Hax) as [Hold | [Hnew _]];
        [now apply (IH Hstart) | exact Hnew]. }
  split.
  - apply (Hall sys' (previous_reachable_step _ _ _ Hreach Hstep) e Hin He).
  - intros tk s -> Hrej.
    destruct (step_alerts _ _ _ e Hstep Hin He) as [Hold | [_ Hnot]];
      [exact Hold|].
    rewrite (Hnot tk s eq_refl) in Hrej. discriminate Hrej.
Qed.

Lemma failures_are_silent_witness :
  In (AlertShow "Permission Error"
        "Location permission is required to collect data.")
     (trace run_denied).
Proof.
  refine (proj2 (failures_are_silent run_denied run_denied_unlisted
                   (Settle {| awaited := getDocs; issued := 0 |}
                      (GetDocsSettled Rejected))
                   (AlertShow "Permission Error"
                      "Location permission is required to collect data.")
                   previous_reachable_run_denied _ _ eq_refl)
            _ _ eq_refl eq_refl).
  - apply (previous_settle_step _ 0); [discriminate | reflexivity | reflexivity | exact I].
  - cbv. tauto.
Defined.

End PreviousFacts.

(** ** The later version does what the earlier one did *)

Lemma filter_split_inv {A : Type} (f : A -> bool) (l before after : list A) x :
  filter f l = before ++ x :: after ->
  exists before' after',
    l = before' ++ x :: after' /\
    filter f before' = before /\ filter f after' = after.
Proof.
  revert before. induction l as [|a l IH]; intros before H; cbn [filter] in H.
  - destruct before; discriminate H.
  - destruct (f a) eqn:Ha.
    + destruct before as [|b before]; cbn in H; injection H as -> H.
      * exists [], l. cbn. repeat split; auto.
      * destruct (IH before H) as (b' & a' & -> & Hb & Ha').
        exists (b :: b'), a'. cbn [List.app filter]. rewrite Ha, Hb.
        repeat split; auto.
    + destruct (IH before H) as (b' & a' & -> & Hb & Ha').
      exists (a :: b'), a'. cbn [List.app filter]. rewrite Ha.
      repeat split; auto.
Qed.

Lemma exchanges_app es1 es2 :
  exchanges (es1 ++ es2) = exchanges es1 ++ exchanges es2.
Proof. unfold exchanges. apply flat_map_app. Qed.

Lemma previous_exchanges_app es1 es2 :
  previous_exchanges (es1 ++ es2)
  = previous_exchanges es1 ++ previous_exchanges es2.
Proof. unfold previous_exchanges. apply flat_map_app. Qed.

Lemma spawn_not_listing n es :
  filter listing_call (invoked es) = [] ->
  filter not_listing (spawn n es) = spawn n es.
Proof.
  unfold spawn. induction (invoked es) as [|c cs IH]; cbn [filter map];
    [reflexivity|]. intros H.
  unfold not_listing at 1. cbn [awaited].
  destruct (listing_call c); [discriminate H|]. cbn [negb]. f_equal. now apply IH.
Qed.

Lemma resume_same s f p p' pes a :
  same_cells p a -> Previous.resume s = Some f -> f p = (p', pes) ->
  same_cells p' (fst (resume s a)) /\
  Previous.invoked pes = invoked (snd (resume s a)) /\
  previous_exchanges pes = exchanges (snd (resume s a)).
Proof.
  intros (Hw & Hl & Hp & Hs) Hf Hres. unfold same_cells.
  destruct s as [r|r|r|r|r|r|d r|r]; try discriminate Hf;
    injection Hf as <-; destruct r as [x|];
    PreviousFacts.run_previous; run_sync;
    try (destruct x as [|]);
    try (destruct (String.eqb (status x) "granted"); cbn in Hres |- *);
    injection Hres as <- <-; cbn; rewrite ?Hw; repeat split; assumption.
Qed.

Lemma saveData_same now p a p' pes :
  same_cells p a -> Previous.saveData now p = (p', pes) ->
  same_cells p' (fst (saveData now a)) /\
  Previous.invoked pes = invoked (snd (saveData now a)) /\
  previous_exchanges pes = exchanges (snd (saveData now a)).
Proof.
  intros (Hw & Hl & Hp & Hs) Hres.
  unfold Previous.saveData, saveData, Previous.saveData_guard, saveData_guard,
    Previous.saveData_data, saveData_data in *.
  rewrite Hw, Hl, Hp in Hres.
  destruct (negb (truthy_prop (obj_get "ssid" (wifiDetails a)))
            || negb (truthy (signal_value (signalStrength a)))
            || negb (isSome (location a))).
  - injection Hres as <- <-. repeat split; assumption.
  - destruct (location a) eqn:El; injection Hres as <- <-;
      unfold same_cells, await, emit; cbn [fst snd]; rewrite ?El;
      repeat split; assumption.
Qed.

Lemma step_same psys l psys' sys :
  same_run psys sys -> Previous.step psys l psys' ->
  exists l' sys', step sys l' sys' /\ same_run psys' sys'.
Proof.
  intros [Happ Hstore Hclock Hpool Htrace] Hstep.
  destruct Hstep as [psys dt Hdt Hvalid | psys st es Hsave
                    | psys before tk after s f st es Hsplit Htk Hans Hf Hres].
  - exists (Tick dt), (tick dt sys). split.
    + apply tick_step; [exact Hdt | now rewrite <- Hclock].
    + split; cbn; auto. now rewrite Hclock.
  - exists Press, (press sys). split; [apply press_step|].
    rewrite Hclock in Hsave.
    destruct (saveData_same _ _ _ _ _ Happ Hsave) as (Hc & Hi & He).
    unfold press. destruct (saveData (clock sys) (app sys)) as [st' es'] eqn:E.
    cbn [fst snd] in Hc, Hi, He.
    assert (Hnl : filter listing_call (invoked es') = [])
      by (apply emitted_no_listing; eapply saveData_emitted; eassumption).
    split; cbn [Previous.app Previous.store Previous.clock Previous.pool
                Previous.trace app store clock pool trace]; auto.
    + rewrite filter_app, spawn_not_listing by exact Hnl.
      rewrite <- Hpool, Hstore. unfold Previous.spawn, spawn. now rewrite Hi.
    + now rewrite previous_exchanges_app, exchanges_app, Htrace, He.
  - rewrite Hsplit in Hpool. symmetry in Hpool.
    destruct (filter_split_inv _ _ _ _ _ Hpool) as (b' & a' & Hsys & Hb & Ha).
    assert (Hnth : nth_error (pool sys) (length b') = Some tk).
    { rewrite Hsys, nth_error_app2 by lia. now rewrite Nat.sub_diag. }
    exists (Settle tk s), (settle (length b') s sys). split.
    + apply settle_step; auto. now rewrite <- Hstore.
    + destruct (resume_same _ _ _ _ _ _ Happ Hf Hres) as (Hc & Hi & He).
      unfold settle. destruct (resume s (app sys)) as [st' es'] eqn:E.
      cbn [fst snd] in Hc, Hi, He.
      assert (Hnl : filter listing_call (invoked es') = [])
        by (apply emitted_no_listing; eapply resume_emitted; eassumption).
      assert (Hs : listing_call (call_of s) = false)
        by (destruct s; try reflexivity; discriminate Hf).
      split; cbn [Previous.app Previous.store Previous.clock Previous.pool
                  Previous.trace app store clock pool trace]; auto.
      * now rewrite Hstore.
      * rewrite Hsys.
        rewrite firstn_app, Nat.sub_diag, firstn_all, app_nil_r.
        replace (skipn (S (length b')) (b' ++ tk :: a')) with a'
          by (rewrite skipn_app, skipn_all2 by lia;
              replace (S (length b') - length b')%nat with 1%nat by lia;
              reflexivity).
        rewrite !filter_app, spawn_not_listing by exact Hnl.
        rewrite Hb, Ha, Hstore. unfold Previous.spawn, spawn. now rewrite Hi.
      * rewrite previous_exchanges_app, exchanges_app, Htrace.
        cbn [previous_exchanges exchanges flat_map]. rewrite Hs.
        cbn [List.app]. f_equal. f_equal. exact He.
Qed.

(** X17: every run of the earlier version is matched by a run of the later
    one from the same collection and clock: it reaches the same state
    cells and the same collection, with the same calls outstanding and the
    same calls and settlements in the same order, the listing of the
    nearby networks apart. *)
Theorem later_version_does_the_same (psys : Previous.System) :
  Previous.reachable psys ->
  exists sys, reachable sys /\ same_run psys sys.
Proof.
  intros (store0 & t0 & Hv & Hsteps).
  remember (Previous.start store0 t0) as psys0 eqn:Hstart.
  induction Hsteps as [psys | psys l psys1 psys2 _ IH Hstep].
  - subst. exists (start store0 t0). split.
    + now apply reachable_start.
    + split; try reflexivity. repeat split.
  - destruct (IH Hstart) as (sys1 & Hreach & Hsame).
    destruct (step_same _ _ _ _ Hsame Hstep) as (l' & sys2 & Hstep' & Hsame').
    exists sys2. split; [eapply reachable_step; eassumption | exact Hsame'].
Qed.

Lemma later_version_does_the_same_witness :
  exists sys, reachable sys /\ same_run Previous.run_granted sys.
Proof.
  exact (later_version_does_the_same Previous.run_granted
           PreviousFacts.reachable_run_granted).
Defined.

(** ** Rejections, and the update of [wifiDetails] *)

(** X18: a call that rejects changes no state cell, and is never retried:
    the only call that follows is the position query after a query of the
    network stage.  Every rejection is logged and shown with a toast,
    except that of the permission request, which no handler catches. *)
Theorem rejection_is_reported (s : settlement) (st : AppState) :
  is_rejection s = true ->
  fst (resume s st) = st /\
  invoked (snd (resume s st))
  = (if network_query (call_of s) then [getCurrentPositionAsync] else []) /\
  ((call_of s = requestForegroundPermissionsAsync /\
    snd (resume s st) = [Uncaught "requestForegroundPermissionsAsync rejected"])
   \/
   (call_of s <> requestForegroundPermissionsAsync /\
    exists m t, In (ConsoleError m) (snd (resume s st)) /\
                In (ToastShow t) (snd (resume s st)))).
Proof.
  intros Hrej.
  destruct s as [r|r|r|r|r|r|d r|r]; destruct r as [a|];
    try discriminate Hrej; cbn; (split; [reflexivity|]);
    (split; [reflexivity|]);
    try (left; split; reflexivity);
    right; (split; [discriminate|]); do 2 eexists; split; cbn; eauto.
Qed.

Lemma rejection_is_reported_witness :
  fst (resume (AddDocSettled record_saved Rejected) session_complete)
  = session_complete.
Proof.
  now apply (rejection_is_reported (AddDocSettled record_saved Rejected)
               session_complete).
Defined.

Lemma obj_keys_set k v o :
  obj_keys (obj_set k v o)
  = if existsb (String.eqb k) (obj_keys o) then obj_keys o
    else obj_keys o ++ [k].
Proof.
  unfold obj_keys. induction o as [|[k0 v0] o IH]; cbn [obj_set map existsb fst].
  - reflexivity.
  - rewrite (String.eqb_sym k k0).
    destruct (String.eqb_spec k0 k) as [-> | Hk0]; cbn [map fst orb].
    + reflexivity.
    + rewrite IH. now destruct (existsb (String.eqb k) (map fst o)).
Qed.

(** X19: the update [{ ...prev, ssid }] of [wifiDetails] sets [ssid] and
    keeps every other property of the object with its value, whatever the
    object holds; it adds no second [ssid], and it touches no other state
    cell. *)
Theorem ssid_update_keeps_the_rest (ssid : string) (st : AppState) :
  let st' := setWifiDetails (fun prev => obj_set "ssid" (VStr ssid) prev) st in
  networkId st' = Some (VStr ssid) /\
  (forall k, k <> "ssid" ->
     obj_get k (wifiDetails st') = obj_get k (wifiDetails st)) /\
  (NoDup (obj_keys (wifiDetails st)) -> NoDup (obj_keys (wifiDetails st'))) /\
  (In "ssid" (obj_keys (wifiDetails st)) ->
     obj_keys (wifiDetails st') = obj_keys (wifiDetails st)) /\
  signalStrength st' = signalStrength st /\ location st' = location st /\
  savedData st' = savedData st /\
  availableNetworks st' = availableNetworks st.
Proof.
  cbn zeta. unfold networkId. cbn [setWifiDetails wifiDetails signalStrength
    location savedData availableNetworks].
  split; [apply obj_get_set|]. split; [intros k Hk; now apply obj_get_set_other|].
  rewrite obj_keys_set. repeat split.
  - intros Hnd.
    destruct (existsb (String.eqb "ssid") (obj_keys (wifiDetails st))) eqn:E;
      [exact Hnd|].
    apply NoDup_app; [exact Hnd | repeat constructor; intros [] |].
    intros k Hin [Hk | []]. subst k.
    assert (Hex : existsb (String.eqb "ssid") (obj_keys (wifiDetails st)) = true).
    { apply existsb_exists. exists "ssid". split; [exact Hin | reflexivity]. }
    rewrite Hex in E. discriminate E.
  - intros Hin.
    assert (Hex : existsb (String.eqb "ssid") (obj_keys (wifiDetails st)) = true).
    { apply existsb_exists. exists "ssid". split; [exact Hin | reflexivity]. }
    now rewrite Hex.
Qed.

Lemma ssid_update_keeps_the_rest_witness :
  wifiDetails (setWifiDetails (fun prev => obj_set "ssid" (VStr "NET2") prev)
                 session_complete)
  = [("ssid", VStr "NET2")] /\
  obj_keys (wifiDetails
              (setWifiDetails (fun prev => obj_set "ssid" (VStr "NET2") prev)
                 session_complete))
  = obj_keys (wifiDetails session_complete).
Proof.
  split; [reflexivity|].
  apply (ssid_update_keeps_the_rest "NET2" session_complete).
  left. reflexivity.
Defined.
